(** * Speechy: capture, segmentation and transcription

    A shallow embedding of [src/index.py] (the command-line recorder) and
    [src/speech_app.py] (the menubar daemon), followed by the properties
    of the specification that are settled against it.

    Conventions of the embedding:
    - Python [float] values are IEEE 754 binary64 numbers, modelled by
      [spec_float] at precision 53; the arithmetic on them is the
      correctly rounded one of [SpecFloat].
    - The samples of a numpy [float32] array are modelled by their exact
      rational values ([Q]).  The level of a block, numpy's [float32] mean
      of its absolute values, and its comparison with the threshold are
      not computed by the embedding: they are the operations of a class
      [Numpy], and the properties of the recorder hold for every
      instance.  The examples run on the instance of exact arithmetic,
      on blocks on which numpy's arithmetic is exact.  The rounding of
      the division of the normalisation is not modelled.
    - Code that raises returns [Raise e]; stateful code threads a [world]
      that holds the file system, the module globals, the state of the
      menubar application and the trace of calls that leave the process.
    - Calls into Whisper are answered by an environment [env]: the
      embedding fixes what the repository does around them, not what the
      model computes.
    - Threads are modelled by their interleavings: a run of the recorder
      is an order of callbacks and wake-ups of its loop ([Index.listen])
      or, finer, of the single accesses of the two threads to the
      variables they share ([Stream.play]); a run of [get_model] is an
      order of steps of its callers.
    - What is printed on the console is left out. *)

From Stdlib Require Import ZArith QArith Qabs List Bool Lia String Ascii.
From Stdlib Require Import Floats.SpecFloat.
From stdpp Require Import gmap strings list pretty.
Import ListNotations.

Open Scope string_scope.
Open Scope list_scope.
Open Scope stdpp_scope.

(** ** Python exceptions *)

Inductive exn : Type :=
| ValueError                       (* numpy reductions and [int(nan)] *)
| OverflowError                    (* [int(inf)] *)
| AttributeError                   (* a method looked up on [None] *)
| KeyError (key : string)
| FileNotFoundError (path : string)
| IsADirectoryError (path : string)
| JSONDecodeError
| ExternalError (msg : string).    (* raised inside faster_whisper *)

Inductive outcome (A : Type) : Type :=
| Ok (a : A)
| Raise (e : exn).

Arguments Ok {A} a.
Arguments Raise {A} e.

Definition exn_str (e : exn) : string :=
  match e with
  | ValueError => "ValueError"
  | OverflowError => "OverflowError"
  | AttributeError => "AttributeError"
  | KeyError k => "'" +:+ k +:+ "'"
  | FileNotFoundError p => p
  | IsADirectoryError p => p
  | JSONDecodeError => "JSONDecodeError"
  | ExternalError msg => msg
  end.

(** ** binary64 arithmetic, as Python's [float] has it *)

Module F64.

Definition prec : Z := 53.
Definition emax : Z := 1024.

(** [float(n)] for a Python int (exact below 2^53). *)
Definition of_Z (n : Z) : spec_float := binary_normalize prec emax n 0 false.

Definition mul : spec_float -> spec_float -> spec_float := SFmul prec emax.
Definition div : spec_float -> spec_float -> spec_float := SFdiv prec emax.

(** [x < y], [x <= y] and [x >= y]: false as soon as one side is nan. *)
Definition lt (x y : spec_float) : bool := SFltb x y.
Definition le (x y : spec_float) : bool := SFleb x y.
Definition ge (x y : spec_float) : bool := SFleb y x.

(** The literals of the source. *)
Definition c0_1 : spec_float := S754_finite false 7205759403792794 (-56).
Definition c0_3 : spec_float := S754_finite false 5404319552844595 (-54).
Definition c0_01 : spec_float := S754_finite false 5764607523034235 (-59).
Definition c1_5 : spec_float := S754_finite false 6755399441055744 (-52).
Definition c30 : spec_float := of_Z 30.

(** [int(x)]: truncation toward zero; [int(inf)] and [int(nan)] raise. *)
Definition to_int (x : spec_float) : outcome Z :=
  match x with
  | S754_zero _ => Ok 0%Z
  | S754_finite s m e =>
      let a := Z.shiftl (Z.pos m) e in
      Ok (if s then (- a)%Z else a)
  | S754_infinity _ => Raise OverflowError
  | S754_nan => Raise ValueError
  end.

(** The exact rational value of a finite binary64 number. *)
Definition to_Q (m : positive) (e : Z) : Q :=
  match e with
  | Z0 => inject_Z (Z.pos m)
  | Z.pos p => inject_Z (Z.pos m * 2 ^ Z.pos p)
  | Z.neg p => Z.pos m # (2 ^ p)
  end.

End F64.

(** ** The numpy operations the sources use *)

Definition np_abs (a : list Q) : list Q := map Qabs a.

Definition Qsum (a : list Q) : Q := fold_right Qplus 0%Q a.

(** The mean in exact arithmetic; [None] stands for the nan of an array
    without elements.  It is what [a.mean()] returns whenever the
    [float32] sums numpy forms and the final quotient are exact. *)
Definition np_mean (a : list Q) : option Q :=
  match a with
  | [] => None
  | _ :: _ => Some (Qsum a / inject_Z (Z.of_nat (length a)))%Q
  end.

Definition Qmax (x y : Q) : Q := if Qle_bool x y then y else x.

(** [np.max(a)]: raises [ValueError] on an array without elements. *)
Definition np_max (a : list Q) : outcome Q :=
  match a with
  | [] => Raise ValueError
  | x :: xs => Ok (fold_left Qmax xs x)
  end.

Definition Qltb (x y : Q) : bool := negb (Qle_bool y x).

(** [level > threshold] on exact values, for a Python float threshold: a
    comparison with nan is false. *)
Definition level_gt (level : option Q) (threshold : spec_float) : bool :=
  match level with
  | None => false
  | Some l =>
      match threshold with
      | S754_nan => false
      | S754_infinity s => s
      | S754_zero _ => Qltb 0 l
      | S754_finite s m e =>
          Qltb (if s then (- F64.to_Q m e)%Q else F64.to_Q m e) l
      end
  end.

(** What the recorder asks of numpy for a block (index.py lines 50 and
    53).  The result of [np.abs(indata).mean()] is a [float32] scalar
    that depends on the order in which numpy adds, and the outcome of
    [level > silence_threshold] on the conversion numpy applies to the
    Python float; neither is fixed here. *)
Class Numpy : Type := {
  scalar : Type;
  abs_mean : list Q -> scalar;             (* [np.abs(indata).mean()] *)
  exceeds : scalar -> spec_float -> bool   (* [level > silence_threshold] *)
}.

(** The instance of exact arithmetic.  On a block whose samples are all 0,
    or all 1 or -1, every sum numpy forms and the quotient are exact, and
    a threshold strictly between 0 and 1 stays there under any rounding:
    on such blocks, those of the examples, this is numpy's answer. *)
Definition exact_arithmetic : Numpy :=
  {| scalar := option Q;
     abs_mean := fun indata => np_mean (np_abs indata);
     exceeds := level_gt |}.

(** [np.concatenate(chunks)]: raises on an empty list of arrays. *)
Definition np_concatenate (chunks : list (list Q)) : outcome (list Q) :=
  match chunks with
  | [] => Raise ValueError
  | _ :: _ => Ok (concat chunks)
  end.

(** [np.int16(x)] of a sample already scaled: truncation toward zero.
    The product is taken exactly, where numpy rounds it to [float32]
    first; on the samples 0, 1 and -1 the two agree. *)
Definition np_int16 (x : Q) : Z := Z.quot (Qnum x) (Z.pos (Qden x)).

(** [np.int16(audio_data * 32767)], the samples written to the WAV file. *)
Definition quantize (audio_data : list Q) : list Z :=
  map (fun x => np_int16 (x * 32767)%Q) audio_data.

(** ** Strings *)

(** ASCII white space, which [str.strip] removes at both ends.  (Python
    removes the white space outside ASCII as well, such as U+00A0; here
    it stays.) *)
Definition is_space (c : ascii) : bool :=
  let n := nat_of_ascii c in
  (n =? 32)%nat || ((9 <=? n)%nat && (n <=? 13)%nat)
  || ((28 <=? n)%nat && (n <=? 31)%nat).

Fixpoint lstrip (l : list ascii) : list ascii :=
  match l with
  | [] => []
  | c :: l' => if is_space c then lstrip l' else l
  end.

Definition strip (s : string) : string :=
  string_of_list_ascii
    (rev (lstrip (rev (lstrip (list_ascii_of_string s))))).

(** [sep.join(parts)]. *)
Definition join (sep : string) (parts : list string) : string :=
  String.concat sep parts.

Definition nonempty (s : string) : bool :=
  match s with
  | EmptyString => false
  | String _ _ => true
  end.

(** A Python string is held as its UTF-8 encoding: a character is a byte
    that is not a continuation byte (10xxxxxx) together with the
    continuation bytes that follow it. *)
Definition continuation (c : ascii) : bool :=
  let n := nat_of_ascii c in (128 <=? n)%nat && (n <? 192)%nat.

(** [len(s)], the number of characters. *)
Fixpoint str_len (s : string) : nat :=
  match s with
  | EmptyString => 0
  | String c s' => if continuation c then str_len s' else S (str_len s')
  end.

(** [s[:n]], the first [n] characters. *)
Fixpoint str_prefix (n : nat) (s : string) : string :=
  match s with
  | EmptyString => EmptyString
  | String c s' =>
      if continuation c then String c (str_prefix n s')
      else match n with
           | O => EmptyString
           | S n' => String c (str_prefix n' s')
           end
  end.

(** ** The world around the two programs *)

(** What a path of the file system holds. *)
Inductive file : Type :=
| Text (content : string)
| Wav (rate : Z) (data : list Z)
| Directory.

(** Calls whose effect is outside the process, and the divisions numpy
    performs, in the order they happen. *)
Inductive call : Type :=
| Divide (divisor : Q)                 (* [audio_data / divisor] *)
| Infer (model : nat) (path : string)  (* [model.transcribe(path, ...)] *)
| Pbcopy (text : string)
| Osascript                            (* the Cmd+V keystroke *)
| Notify (title subtitle message : string).

Record world : Type := {
  fs : gmap string file;
  next_tmp : nat;                    (* names [tempfile] has handed out *)
  _model : option nat;               (* the global [_model] *)
  constructions : nat;               (* [WhisperModel(...)] calls so far *)
  title : string;                    (* [self.title] *)
  status : string;                   (* [self.menu["Durum: Hazir"].title] *)
  config : gmap string string;       (* [self.config] *)
  trace : list call
}.

(** How faster_whisper answers.  An object is identified by the number of
    the construction that made it. *)
Record env : Type := {
  (** [WhisperModel(...)], n-th call: the exception it raises, if any. *)
  whisper_init : nat -> option exn;
  (** [model.transcribe(path, ...)], consumed: the texts of the segments. *)
  whisper_transcribe : nat -> option file -> outcome (list string)
}.

(** The JSON reader and writer of the standard library, for the flat
    objects the configuration file holds. *)
Class JsonCodec : Type := {
  json_dump : gmap string string -> string;
  json_load : string -> outcome (gmap string string);
  json_load_dump : forall c, json_load (json_dump c) = Ok c
}.

(** *** State and exceptions *)

Definition M (A : Type) : Type := world -> outcome A * world.

Definition ret {A} (a : A) : M A := fun w => (Ok a, w).

Definition raise {A} (e : exn) : M A := fun w => (Raise e, w).

Definition bind {A B} (m : M A) (k : A -> M B) : M B :=
  fun w =>
    match m w with
    | (Ok a, w') => k a w'
    | (Raise e, w') => (Raise e, w')
    end.

Notation "x <- m ;; k" := (bind m (fun x => k))
  (at level 100, m at level 99, k at level 200, right associativity).
Notation "m ;;; k" := (bind m (fun _ => k))
  (at level 100, k at level 200, right associativity).

(** [try: body finally: cleanup]. *)
Definition try_finally {A} (body : M A) (cleanup : M unit) : M A :=
  fun w =>
    match body w with
    | (r, w') =>
        match cleanup w' with
        | (Ok _, w'') => (r, w'')
        | (Raise e, w'') => (Raise e, w'')
        end
    end.

(** [try: body except Exception as e: handler(e)]. *)
Definition try_except {A} (body : M A) (handler : exn -> M A) : M A :=
  fun w =>
    match body w with
    | (Ok a, w') => (Ok a, w')
    | (Raise e, w') => handler e w'
    end.

Definition lift {A} (o : outcome A) : M A := fun w => (o, w).

Definition gets {A} (f : world -> A) : M A := fun w => (Ok (f w), w).

Definition modify (f : world -> world) : M unit := fun w => (Ok tt, f w).

(** *** Field updates *)

Definition set_fs (f : gmap string file -> gmap string file) (w : world) :=
  {| fs := f (fs w); next_tmp := next_tmp w; _model := _model w;
     constructions := constructions w; title := title w;
     status := status w; config := config w; trace := trace w |}.

Definition set_next_tmp (n : nat) (w : world) :=
  {| fs := fs w; next_tmp := n; _model := _model w;
     constructions := constructions w; title := title w;
     status := status w; config := config w; trace := trace w |}.

Definition set_model (m : option nat) (w : world) :=
  {| fs := fs w; next_tmp := next_tmp w; _model := m;
     constructions := constructions w; title := title w;
     status := status w; config := config w; trace := trace w |}.

Definition set_constructions (n : nat) (w : world) :=
  {| fs := fs w; next_tmp := next_tmp w; _model := _model w;
     constructions := n; title := title w;
     status := status w; config := config w; trace := trace w |}.

Definition set_title (t : string) (w : world) :=
  {| fs := fs w; next_tmp := next_tmp w; _model := _model w;
     constructions := constructions w; title := t;
     status := status w; config := config w; trace := trace w |}.

Definition set_status (t : string) (w : world) :=
  {| fs := fs w; next_tmp := next_tmp w; _model := _model w;
     constructions := constructions w; title := title w;
     status := t; config := config w; trace := trace w |}.

Definition emit (c : call) (w : world) :=
  {| fs := fs w; next_tmp := next_tmp w; _model := _model w;
     constructions := constructions w; title := title w;
     status := status w; config := config w; trace := trace w ++ [c] |}.

(** *** Files *)

(** [tempfile.NamedTemporaryFile(suffix=..., delete=False)], opened and
    closed: an empty file under a name not handed out before. *)
Definition temp_name (suffix : string) (w : world) : string :=
  "/tmp/tmp" +:+ pretty (next_tmp w) +:+ suffix.

Definition NamedTemporaryFile (suffix : string) : M string :=
  fun w =>
    let name := temp_name suffix w in
    (Ok name, set_fs (insert name (Text EmptyString)) (set_next_tmp (S (next_tmp w)) w)).

(** [scipy.io.wavfile.write(path, rate, data)]. *)
Definition wavfile_write (path : string) (rate : Z) (data : list Z) : M unit :=
  modify (set_fs (insert path (Wav rate data))).

(** [os.unlink(path)]. *)
Definition os_unlink (path : string) : M unit :=
  fun w =>
    match fs w !! path with
    | None => (Raise (FileNotFoundError path), w)
    | Some Directory => (Raise (IsADirectoryError path), w)
    | Some _ => (Ok tt, set_fs (delete path) w)
    end.

(** [os.makedirs(path, exist_ok=True)] on a path that holds a directory
    or nothing. *)
Definition os_makedirs (path : string) : M unit :=
  fun w =>
    match fs w !! path with
    | None => (Ok tt, set_fs (insert path Directory) w)
    | Some _ => (Ok tt, w)
    end.

(** The worlds in which [os.makedirs(path, exist_ok=True)] goes through:
    the path holds a directory or nothing.  On a path that holds a file
    Python raises [FileExistsError]; [os_makedirs] does not, and says
    nothing of the program in such a world. *)
Definition makedirs_goes_through (path : string) (w : world) : Prop :=
  fs w !! path = None \/ fs w !! path = Some Directory.

Definition os_path_exists (path : string) : M bool :=
  gets (fun w => bool_decide (is_Some (fs w !! path))).

(** [open(path)] read as text. *)
Definition read_text (path : string) : M string :=
  fun w =>
    match fs w !! path with
    | Some (Text s) => (Ok s, w)
    | Some (Wav _ _) => (Raise JSONDecodeError, w)
    | Some Directory => (Raise (IsADirectoryError path), w)
    | None => (Raise (FileNotFoundError path), w)
    end.

(** [open(path, "w")] written with [content]. *)
Definition write_text (path content : string) : M unit :=
  modify (set_fs (insert path (Text content))).

(** *** The transcription model *)

(** [get_model] of both files (index.py lines 16-34, speech_app.py lines
    45-61), run by one thread: the lock is free and both tests of
    [_model] give the same answer.  The two files differ in the
    directory only. *)
Definition get_model (E : env) (models_dir : string) : M (option nat) :=
  m <- gets _model ;;
  match m with
  | Some _ => gets _model
  | None =>
      os_makedirs models_dir ;;;
      n <- gets constructions ;;
      modify (set_constructions (S n)) ;;;
      match whisper_init E n with
      | Some e => raise e
      | None => modify (set_model (Some n)) ;;; gets _model
      end
  end.

(** [model.transcribe(temp_path, language="tr", beam_size=1,
    vad_filter=True)] with the segments consumed. *)
Definition model_transcribe (E : env) (model : option nat) (path : string)
    : M (list string) :=
  match model with
  | None => raise AttributeError
  | Some h =>
      modify (emit (Infer h path)) ;;;
      f <- gets (fun w => fs w !! path) ;;
      lift (whisper_transcribe E h f)
  end.

(** The normalisation both transcribers share (index.py lines 87-89,
    speech_app.py lines 75-76).  The quotient of a sample by the peak is
    the exact one, where numpy rounds it to [float32]. *)
Definition np_divide (a : list Q) (d : Q) : M (list Q) :=
  modify (emit (Divide d)) ;;;
  ret (map (fun x => (x / d)%Q) a).

Definition normalize (audio_data : list Q) : M (list Q) :=
  peak <- lift (np_max (np_abs audio_data)) ;;
  if Qltb 0 peak then
    d <- lift (np_max (np_abs audio_data)) ;;
    np_divide audio_data d
  else ret audio_data.

(** What [normalize] returns, and the model [get_model] returns, as
    functions of the buffer and of the world. *)
Definition normalized (audio_data : list Q) : list Q :=
  match np_max (np_abs audio_data) with
  | Ok m => if Qltb 0 m then map (fun x => (x / m)%Q) audio_data else audio_data
  | Raise _ => audio_data
  end.

Definition loaded_model (E : env) (w : world) : outcome nat :=
  match _model w with
  | Some h => Ok h
  | None =>
      match whisper_init E (constructions w) with
      | None => Ok (constructions w)
      | Some e => Raise e
      end
  end.

(** Lines 92-102 of index.py and 79-89 of speech_app.py. *)
Definition run_model (E : env) (models_dir temp_path : string) : M string :=
  try_finally
    (model <- get_model E models_dir ;;
     segments <- model_transcribe E model temp_path ;;
     ret (strip (join " " segments)))
    (os_unlink temp_path).

(** ** index.py *)

Module Index.

(** The variables the callback and the loop share (lines 43-46). *)
Record capture : Type := {
  chunks : list (list Q);
  silent_chunks : Z;
  speaking_started : bool
}.

Definition sample_rate : Z := 16000.

(** Line 39: [chunk_size = int(sample_rate * 0.1)], the number of samples
    of every block the stream delivers. *)
Definition chunk_size : outcome Z :=
  F64.to_int (F64.mul (F64.of_Z sample_rate) F64.c0_1).

Definition start : capture :=
  {| chunks := []; silent_chunks := 0; speaking_started := false |}.

(** Lines 48-57: one block delivered by the input stream. *)
Definition callback {numpy : Numpy} (silence_threshold : spec_float)
    (indata : list Q) (st : capture) : capture :=
  let level := abs_mean indata in
  let chunks' := chunks st ++ [indata] in
  if exceeds level silence_threshold then
    {| chunks := chunks'; silent_chunks := 0; speaking_started := true |}
  else if speaking_started st then
    {| chunks := chunks';
       silent_chunks := silent_chunks st + 1;
       speaking_started := speaking_started st |}
  else
    {| chunks := chunks';
       silent_chunks := silent_chunks st;
       speaking_started := speaking_started st |}.

(** Which of the two [break]s of the loop ended the recording. *)
Inductive ending : Type := ENDED_SILENCE | ENDED_MAXDURATION.

(** Line 65: [len(chunks) * 0.1 >= max_duration]. *)
Definition ceiling_reached (max_duration : spec_float) (n : nat) : bool :=
  F64.ge (F64.mul (F64.of_Z (Z.of_nat n)) F64.c0_1) max_duration.

(** Lines 63-66: the two tests made each time the loop wakes up. *)
Definition loop_test (max_duration : spec_float) (max_silent : Z)
    (st : capture) : option ending :=
  if speaking_started st && (max_silent <=? silent_chunks st)%Z then
    Some ENDED_SILENCE
  else if ceiling_reached max_duration (length (chunks st)) then
    Some ENDED_MAXDURATION
  else None.

(** The audio thread and the main loop run side by side.  A run is the
    order in which their steps happen: a block handed to [callback], or
    the loop coming back from [sd.sleep(100)]. *)
Inductive event : Type :=
| Block (indata : list Q)
| Wake.

(** Lines 59-66, over a finite run.  The result is the state reached and
    the break taken, or [None] while the loop is still going.  A
    callback and a turn of the loop are one step each, and the run is
    followed up to the break; the runs in which the loop reads the
    variables in the middle of a callback, and the blocks the stream
    delivers between the break and the end of the [with] block, are
    those of [Stream.play] below. *)
Fixpoint listen {numpy : Numpy} (max_duration silence_threshold : spec_float)
    (max_silent : Z) (run : list event) (st : capture)
    : capture * option ending :=
  match run with
  | [] => (st, None)
  | Block indata :: run' =>
      listen max_duration silence_threshold max_silent run'
        (callback silence_threshold indata st)
  | Wake :: run' =>
      match loop_test max_duration max_silent st with
      | Some r => (st, Some r)
      | None => listen max_duration silence_threshold max_silent run' st
      end
  end.

(** Line 45: [max_silent = int(silence_duration / 0.1)]. *)
Definition max_silent_of (silence_duration : spec_float) : outcome Z :=
  F64.to_int (F64.div silence_duration F64.c0_1).

(** What a call has produced once the run is used up. *)
Inductive recording : Type :=
| Recording (st : capture)
| Returned (audio : list Q) (rate : Z)
| Raised (e : exn).

Definition record_until_silence {numpy : Numpy}
    (max_duration silence_threshold silence_duration : spec_float)
    (run : list event) : recording :=
  match max_silent_of silence_duration with
  | Raise e => Raised e
  | Ok max_silent =>
      match listen max_duration silence_threshold max_silent run start with
      | (st, None) => Recording st
      | (st, Some _) =>
          match np_concatenate (chunks st) with
          | Raise e => Raised e
          | Ok audio => Returned audio sample_rate
          end
      end
  end.

(** The run in which exactly one block arrives between two wake-ups, so
    that the loop looks at the counters after every block. *)
Definition lockstep (blocks : list (list Q)) : list event :=
  flat_map (fun b => [Block b; Wake]) blocks.

(** The state after a sequence of blocks, wake-ups left aside. *)
Definition play {numpy : Numpy} (silence_threshold : spec_float)
    (blocks : list (list Q)) (st : capture) : capture :=
  fold_left (fun s b => callback silence_threshold b s) blocks st.

(** A block is loud when the test of line 53 holds of it. *)
Definition loud {numpy : Numpy} (silence_threshold : spec_float)
    (indata : list Q) : bool :=
  exceeds (abs_mean indata) silence_threshold.

Definition models_dir : string := "./models".

(** Lines 81-102. *)
Definition transcribe (E : env) (audio_data : list Q) (sample_rate : Z)
    : M string :=
  temp_path <- NamedTemporaryFile ".wav" ;;
  audio_data <- normalize audio_data ;;
  wavfile_write temp_path sample_rate (quantize audio_data) ;;;
  run_model E models_dir temp_path.

(** An event of a run that has no loud block. *)
Definition quiet_event {numpy : Numpy} (silence_threshold : spec_float)
    (ev : event) : bool :=
  match ev with
  | Block indata => negb (loud silence_threshold indata)
  | Wake => true
  end.

End Index.

(** ** index.py: the recorder, one access to a shared variable at a time

    [Index.listen] takes a callback, and a turn of the loop, as one step
    each.  The two run in different threads: the loop can read the
    shared variables while a callback is between two of its statements,
    a callback can run between two reads of the loop, and the stream
    goes on calling back until the [with] block has closed it, after the
    [break].  Here a step is one access to [chunks], [silent_chunks] or
    [speaking_started]. *)

Module Stream.

(** Where the audio thread is in [callback] (lines 48-57). *)
Inductive audio_pc : Type :=
| Idle                       (* between two callbacks *)
| AtLine53 (above : bool)    (* the block is appended; [above] is the
                                outcome of [level > silence_threshold] *)
| AtLine55.                  (* [speaking_started] is set, [silent_chunks]
                                not yet *)

(** Where the main thread is in the loop (lines 61-66). *)
Inductive loop_pc : Type :=
| AtLine63                   (* back from [sd.sleep(100)] *)
| AtLine63_and               (* [speaking_started] was read as true *)
| AtLine65
| Left (r : Index.ending).   (* after a [break] *)

Record state : Type := {
  vars : Index.capture;
  audio : audio_pc;
  loop : loop_pc
}.

Definition start : state :=
  {| vars := Index.start; audio := Idle; loop := AtLine63 |}.

(** What happens next: the stream calls [callback] with a block, which
    is appended (lines 50-51); the audio thread goes on to its next
    statement; the main thread makes its next read. *)
Inductive move : Type :=
| Arrive (indata : list Q)
| Audio_moves
| Loop_moves.

(** Lines 53-57, one assignment at a time. *)
Definition audio_step (s : state) : state :=
  match audio s with
  | Idle => s
  | AtLine53 true =>
      {| vars := {| Index.chunks := Index.chunks (vars s);
                    Index.silent_chunks := Index.silent_chunks (vars s);
                    Index.speaking_started := true |};
         audio := AtLine55; loop := loop s |}
  | AtLine53 false =>
      {| vars := {| Index.chunks := Index.chunks (vars s);
                    Index.silent_chunks :=
                      if Index.speaking_started (vars s)
                      then (Index.silent_chunks (vars s) + 1)%Z
                      else Index.silent_chunks (vars s);
                    Index.speaking_started :=
                      Index.speaking_started (vars s) |};
         audio := Idle; loop := loop s |}
  | AtLine55 =>
      {| vars := {| Index.chunks := Index.chunks (vars s);
                    Index.silent_chunks := 0;
                    Index.speaking_started :=
                      Index.speaking_started (vars s) |};
         audio := Idle; loop := loop s |}
  end.

(** Lines 50-51.  The stream calls back one block at a time: the
    callback of the block before has returned. *)
Definition arrive {numpy : Numpy} (silence_threshold : spec_float)
    (indata : list Q) (s : state) : state :=
  let s' := audio_step (audio_step s) in
  {| vars := {| Index.chunks := Index.chunks (vars s') ++ [indata];
                Index.silent_chunks := Index.silent_chunks (vars s');
                Index.speaking_started := Index.speaking_started (vars s') |};
     audio := AtLine53 (Index.loud silence_threshold indata);
     loop := loop s' |}.

Definition goto (l : loop_pc) (s : state) : state :=
  {| vars := vars s; audio := audio s; loop := l |}.

(** Lines 63-66, one read at a time: [speaking_started], then
    [silent_chunks] when the first was true, then [len(chunks)]. *)
Definition loop_step (max_duration : spec_float) (max_silent : Z)
    (s : state) : state :=
  match loop s with
  | AtLine63 =>
      if Index.speaking_started (vars s) then goto AtLine63_and s
      else goto AtLine65 s
  | AtLine63_and =>
      if (max_silent <=? Index.silent_chunks (vars s))%Z
      then goto (Left Index.ENDED_SILENCE) s
      else goto AtLine65 s
  | AtLine65 =>
      if Index.ceiling_reached max_duration (length (Index.chunks (vars s)))
      then goto (Left Index.ENDED_MAXDURATION) s
      else goto AtLine63 s
  | Left _ => s
  end.

Definition step {numpy : Numpy} (max_duration silence_threshold : spec_float)
    (max_silent : Z) (s : state) (m : move) : state :=
  match m with
  | Arrive indata => arrive silence_threshold indata s
  | Audio_moves => audio_step s
  | Loop_moves => loop_step max_duration max_silent s
  end.

(** The state after the moves of a run. *)
Definition play {numpy : Numpy} (max_duration silence_threshold : spec_float)
    (max_silent : Z) (run : list move) (s : state) : state :=
  fold_left (step max_duration silence_threshold max_silent) run s.

Definition left (s : state) : bool :=
  match loop s with
  | Left _ => true
  | _ => false
  end.

(** Lines 36-69 over a run that ends when the stream is closed: once the
    loop has left, line 69 concatenates what [chunks] then holds. *)
Definition record_until_silence {numpy : Numpy}
    (max_duration silence_threshold silence_duration : spec_float)
    (run : list move) : Index.recording :=
  match Index.max_silent_of silence_duration with
  | Raise e => Index.Raised e
  | Ok max_silent =>
      let s := play max_duration silence_threshold max_silent run start in
      if left s then
        match np_concatenate (Index.chunks (vars s)) with
        | Raise e => Index.Raised e
        | Ok audio => Index.Returned audio Index.sample_rate
        end
      else Index.Recording (vars s)
  end.

(** The blocks the stream has delivered in a run, in order. *)
Definition arrived (run : list move) : list (list Q) :=
  flat_map (fun m => match m with
                     | Arrive indata => [indata]
                     | _ => []
                     end) run.

(** The recording of a stream once speech has started: some blocks, a
    block above the threshold, and the blocks at or below it that
    [silent_chunks] counts. *)
Definition counted {numpy : Numpy} (silence_threshold : spec_float)
    (recorded : list (list Q)) (silent : Z) : Prop :=
  exists pre b post,
    recorded = pre ++ b :: post /\
    Index.loud silence_threshold b = true /\
    Forall (fun q => Index.loud silence_threshold q = false) post /\
    silent = Z.of_nat (length post).

(** What holds of the variables between two callbacks. *)
Definition settled {numpy : Numpy} (silence_threshold : spec_float)
    (recorded : list (list Q)) (started : bool) (silent : Z) : Prop :=
  if started then counted silence_threshold recorded silent
  else silent = 0%Z.

(** What holds of the variables wherever the two threads are. *)
Definition sound {numpy : Numpy} (silence_threshold : spec_float)
    (s : state) : Prop :=
  (loop s = AtLine63_and -> Index.speaking_started (vars s) = true) /\
  match audio s with
  | Idle =>
      settled silence_threshold (Index.chunks (vars s))
        (Index.speaking_started (vars s)) (Index.silent_chunks (vars s))
  | AtLine53 above =>
      exists before indata,
        Index.chunks (vars s) = before ++ [indata] /\
        Index.loud silence_threshold indata = above /\
        settled silence_threshold before
          (Index.speaking_started (vars s)) (Index.silent_chunks (vars s))
  | AtLine55 =>
      Index.speaking_started (vars s) = true /\
      exists before indata,
        Index.chunks (vars s) = before ++ [indata] /\
        Index.loud silence_threshold indata = true /\
        (Index.silent_chunks (vars s) = 0%Z \/
         counted silence_threshold before (Index.silent_chunks (vars s)))
  end.

End Stream.

(** ** speech_app.py *)

Module SpeechApp.

(** Lines 20-28; the home directory and the directory of the script are
    left unexpanded in the two paths. *)
Definition CONFIG_PATH : string := "~/.speech_to_text_config.json".
Definition DEFAULT_HOTKEY : string := "ctrl".
Definition _sample_rate : Z := 16000.
Definition models_dir : string := "models".

(** The trigger names [show_hotkey_menu] accepts (line 147). *)
Definition keys : list string :=
  ["ctrl"; "alt"; "shift"; "cmd"; "f1"; "f2"; "f3"; "f4"; "f5"; "f6"].

(** Lines 31-36. *)
Definition load_config `{JsonCodec} : M (gmap string string) :=
  present <- os_path_exists CONFIG_PATH ;;
  if (present : bool) then
    f <- read_text CONFIG_PATH ;;
    lift (json_load f)
  else ret {[ "hotkey" := DEFAULT_HOTKEY ]}.

(** Lines 39-42. *)
Definition save_config `{JsonCodec} (config : gmap string string) : M unit :=
  write_text CONFIG_PATH (json_dump config).

(** Lines 64-89. *)
Definition transcribe_audio (E : env) (audio_data : list Q)
    (sample_rate : Z) : M string :=
  if (length audio_data =? 0)%nat then ret EmptyString
  else
    temp_path <- NamedTemporaryFile ".wav" ;;
    audio_data <- normalize audio_data ;;
    wavfile_write temp_path sample_rate (quantize audio_data) ;;;
    run_model E models_dir temp_path.

(** Lines 92-105. *)
Definition paste_text (text : string) : M unit :=
  if negb (nonempty text) then ret tt
  else
    modify (emit (Pbcopy text)) ;;;
    modify (emit Osascript).

(** [self.config['hotkey']]. *)
Definition config_hotkey : M string :=
  fun w =>
    match config w !! "hotkey" with
    | Some v => (Ok v, w)
    | None => (Raise (KeyError "hotkey"), w)
    end.

(** Lines 239-240 and 252-253: the indicator back to ready. *)
Definition show_ready : M unit :=
  modify (set_title "🎤") ;;;
  hotkey <- config_hotkey ;;
  modify (set_status ("Durum: Hazır (" +:+ hotkey +:+ " tuşu)")).

(** Line 238: [len(audio_data) < _sample_rate * 0.3]. *)
Definition too_short (n : nat) : bool :=
  F64.lt (F64.of_Z (Z.of_nat n)) (F64.mul (F64.of_Z _sample_rate) F64.c0_3).

(** Line 247: [text[:50] + "..." if len(text) > 50 else text]. *)
Definition preview (text : string) : string :=
  if (50 <? str_len text)%nat then str_prefix 50 text +:+ "..."
  else text.

(** Lines 235-253. *)
Definition _process_audio (E : env) (audio_data : list Q) : M unit :=
  try_finally
    (try_except
       (if too_short (length audio_data) then show_ready
        else
          text <- transcribe_audio E audio_data _sample_rate ;;
          if nonempty text then
            paste_text text ;;;
            modify (emit (Notify "Speech to Text" EmptyString (preview text)))
          else ret tt)
       (fun e => modify (emit (Notify "Hata" EmptyString (exn_str e)))))
    show_ready.

End SpeechApp.

(** ** [get_model] under concurrent callers *)

Module Threads.

(** Where a caller of [get_model] stands (index.py lines 19-34,
    speech_app.py lines 48-61). *)
Inductive pc : Type :=
| AtOuterTest                  (* [if _model is None:] *)
| AtAcquire                    (* [with _model_lock:], waiting *)
| AtInnerTest                  (* [if _model is None:], lock held *)
| AtConstruct                  (* [WhisperModel(...)] *)
| AtAssign (h : nat)           (* [_model = ] the new object *)
| AtRelease                    (* end of the [with] block *)
| AtUnwind (e : exn)           (* the [with] block left by an exception *)
| AtReturn                     (* [return _model] *)
| Finished (r : outcome (option nat)).

Record pool : Type := {
  model : option nat;          (* [_model] *)
  lock : option nat;           (* the thread holding [_model_lock] *)
  built : nat;                 (* [WhisperModel(...)] calls so far *)
  threads : list pc
}.

Definition init (n : nat) : pool :=
  {| model := None; lock := None; built := 0;
     threads := replicate n AtOuterTest |}.

Definition goto (i : nat) (c : pc) (p : pool) : pool :=
  {| model := model p; lock := lock p; built := built p;
     threads := <[i := c]> (threads p) |}.

(** One step of thread [i]; a thread that waits for the lock, has
    finished or does not exist leaves the pool as it is. *)
Definition step (E : env) (i : nat) (p : pool) : pool :=
  match threads p !! i with
  | None => p
  | Some AtOuterTest =>
      match model p with
      | None => goto i AtAcquire p
      | Some _ => goto i AtReturn p
      end
  | Some AtAcquire =>
      match lock p with
      | None =>
          {| model := model p; lock := Some i; built := built p;
             threads := <[i := AtInnerTest]> (threads p) |}
      | Some _ => p
      end
  | Some AtInnerTest =>
      match model p with
      | None => goto i AtConstruct p
      | Some _ => goto i AtRelease p
      end
  | Some AtConstruct =>
      {| model := model p; lock := lock p; built := S (built p);
         threads :=
           <[i := match whisper_init E (built p) with
                  | None => AtAssign (built p)
                  | Some e => AtUnwind e
                  end]> (threads p) |}
  | Some (AtAssign h) =>
      {| model := Some h; lock := lock p; built := built p;
         threads := <[i := AtRelease]> (threads p) |}
  | Some AtRelease =>
      {| model := model p; lock := None; built := built p;
         threads := <[i := AtReturn]> (threads p) |}
  | Some (AtUnwind e) =>
      {| model := model p; lock := None; built := built p;
         threads := <[i := Finished (Raise e)]> (threads p) |}
  | Some AtReturn => goto i (Finished (Ok (model p))) p
  | Some (Finished _) => p
  end.

(** A schedule names the thread that moves next. *)
Definition run (E : env) (schedule : list nat) (p : pool) : pool :=
  fold_left (fun q i => step E i q) schedule p.

Definition finished (c : pc) : bool :=
  match c with
  | Finished _ => true
  | _ => false
  end.

Definition all_finished (p : pool) : bool := forallb finished (threads p).

(** What holds of thread [i] standing at [c], in terms of the three
    shared variables, when the first construction does not raise. *)
Definition thread_ok (l m : option nat) (b : nat) (i : nat) (c : pc) : Prop :=
  match c with
  | AtOuterTest | AtAcquire => True
  | AtInnerTest => l = Some i
  | AtConstruct => l = Some i /\ m = None /\ b = 0%nat
  | AtAssign h => l = Some i /\ m = None /\ b = 1%nat /\ h = 0%nat
  | AtRelease => l = Some i /\ m = Some 0%nat
  | AtUnwind _ => False
  | AtReturn => m = Some 0%nat
  | Finished r => r = Ok (Some 0%nat) /\ m = Some 0%nat
  end.

(** Nothing built yet; or the one object built and about to be stored;
    or the one object built and stored. *)
Definition phase_ok (p : pool) : Prop :=
  (built p = 0%nat /\ model p = None) \/
  (built p = 1%nat /\ model p = None /\
   exists i, threads p !! i = Some (AtAssign 0)) \/
  (built p = 1%nat /\ model p = Some 0%nat).

Definition pool_ok (p : pool) : Prop :=
  phase_ok p /\
  (forall i c, threads p !! i = Some c ->
     thread_ok (lock p) (model p) (built p) i c).

(** All callers enter, then each in turn runs to its [return]. *)
Definition racing (n : nat) : list nat :=
  seq 0 n ++ flat_map (fun i => replicate 6 i) (seq 0 n).

End Threads.

(** ** A JSON reader and writer for flat objects of strings

    A writer of JSON text for a dict of strings, with the separators of
    [json.dump], and a reader of that syntax in which a later key
    replaces an earlier one.  Inside a string the quote and the backslash
    are escaped; the other characters stand for themselves, where
    [json.dump] writes control characters and those outside ASCII as
    [\u] escapes.  The properties of the configuration are proved for
    every [JsonCodec]; this one shows that the class has an instance. *)

Module Json.

Definition dquote : ascii := "034"%char.
Definition backslash : ascii := "\"%char.
Definition space : ascii := " "%char.

Definition special (c : ascii) : bool :=
  Ascii.eqb c dquote || Ascii.eqb c backslash.

Fixpoint escape (s : string) : string :=
  match s with
  | EmptyString => EmptyString
  | String c s' =>
      if special c then String backslash (String c (escape s'))
      else String c (escape s')
  end.

Definition quoted (s : string) : string :=
  String dquote (escape s +:+ String dquote EmptyString).

Definition entry (kv : string * string) : string :=
  quoted (fst kv) +:+ ": " +:+ quoted (snd kv).

Definition dumps (entries : list (string * string)) : string :=
  "{" +:+ join ", " (map entry entries) +:+ "}".

(** The entries after the first, each behind its comma, and the
    closing brace. *)
Definition more (entries : list (string * string)) : string :=
  fold_right (fun e s => String "," (String " " (entry e +:+ s))) "}" entries.

(** The reader: what it expects next. *)
Inductive expect : Type :=
| Open                                 (* the opening brace *)
| KeyOrClose                           (* a key, or the closing brace *)
| Key                                  (* a key, after a comma *)
| InKey (k : string) (escaped : bool)
| Colon (k : string)
| Value (k : string)
| InValue (k v : string) (escaped : bool)
| CommaOrClose
| Closed
| Invalid.

Definition snoc (s : string) (c : ascii) : string :=
  s +:+ String c EmptyString.

(** One character read; the entries read so far come last first. *)
Definition read (st : list (string * string) * expect) (c : ascii)
    : list (string * string) * expect :=
  let (acc, e) := st in
  match e with
  | Open =>
      if Ascii.eqb c space then (acc, Open)
      else if Ascii.eqb c "{" then (acc, KeyOrClose)
      else (acc, Invalid)
  | KeyOrClose =>
      if Ascii.eqb c space then (acc, KeyOrClose)
      else if Ascii.eqb c dquote then (acc, InKey EmptyString false)
      else if Ascii.eqb c "}" then (acc, Closed)
      else (acc, Invalid)
  | Key =>
      if Ascii.eqb c space then (acc, Key)
      else if Ascii.eqb c dquote then (acc, InKey EmptyString false)
      else (acc, Invalid)
  | InKey k true =>
      if special c then (acc, InKey (snoc k c) false) else (acc, Invalid)
  | InKey k false =>
      if Ascii.eqb c backslash then (acc, InKey k true)
      else if Ascii.eqb c dquote then (acc, Colon k)
      else (acc, InKey (snoc k c) false)
  | Colon k =>
      if Ascii.eqb c space then (acc, Colon k)
      else if Ascii.eqb c ":" then (acc, Value k)
      else (acc, Invalid)
  | Value k =>
      if Ascii.eqb c space then (acc, Value k)
      else if Ascii.eqb c dquote then (acc, InValue k EmptyString false)
      else (acc, Invalid)
  | InValue k v true =>
      if special c then (acc, InValue k (snoc v c) false)
      else (acc, Invalid)
  | InValue k v false =>
      if Ascii.eqb c backslash then (acc, InValue k v true)
      else if Ascii.eqb c dquote then ((k, v) :: acc, CommaOrClose)
      else (acc, InValue k (snoc v c) false)
  | CommaOrClose =>
      if Ascii.eqb c space then (acc, CommaOrClose)
      else if Ascii.eqb c "," then (acc, Key)
      else if Ascii.eqb c "}" then (acc, Closed)
      else (acc, Invalid)
  | Closed =>
      if Ascii.eqb c space then (acc, Closed) else (acc, Invalid)
  | Invalid => (acc, Invalid)
  end.

Fixpoint scan (st : list (string * string) * expect) (s : string)
    : list (string * string) * expect :=
  match s with
  | EmptyString => st
  | String c s' => scan (read st c) s'
  end.

Definition loads (s : string) : outcome (gmap string string) :=
  match scan ([], Open) s with
  | (acc, Closed) => Ok (list_to_map acc)
  | _ => Raise JSONDecodeError
  end.

Definition dump (c : gmap string string) : string := dumps (map_to_list c).

End Json.

(** ** Inputs the examples below run on *)

Module Samples.

(** A block of 100 ms at full scale, and one of digital silence. *)
Definition tone : list Q := repeat 1%Q 1600.
Definition hush : list Q := repeat 0%Q 1600.

(** [silence_duration = 0.05]. *)
Definition c0_05 : spec_float := F64.div (F64.of_Z 5) (F64.of_Z 100).

(** A Whisper that loads and answers, and one whose first construction
    raises (the download fails) while the next one goes through. *)
Definition steady : env :=
  {| whisper_init := fun _ => None;
     whisper_transcribe := fun _ _ => Ok [" Merhaba"; " dünya "] |}.

Definition flaky : env :=
  {| whisper_init := fun n =>
       match n with
       | O => Some (ExternalError "download failed")
       | S _ => None
       end;
     whisper_transcribe := fun _ _ => Ok [" Merhaba"; " dünya "] |}.

(** A Whisper that loads and whose invocation raises. *)
Definition broken : env :=
  {| whisper_init := fun _ => None;
     whisper_transcribe := fun _ _ => Raise (ExternalError "decode failed") |}.

(** Three callers of [get_model]; the second one wins the lock while
    the other two are already past the outer test. *)
Definition interleaving : list nat :=
  [0; 1; 2; 1; 0; 1; 2; 1; 1; 0; 1; 1; 0; 0; 0; 0; 2; 2; 2; 2; 2]%nat.

(** The daemon right after start-up, with an empty file system. *)
Definition boot : world :=
  {| fs := ∅; next_tmp := 0; _model := None; constructions := 0;
     title := "⏳"; status := "Durum: Yazıya çevriliyor...";
     config := {[ "hotkey" := "ctrl" ]}; trace := [] |}.

(** A quarter of a second and one second of a square wave. *)
Definition tap : list Q := repeat 1%Q 4000.
Definition word : list Q := repeat (-1 # 2)%Q 8000 ++ repeat (1 # 4)%Q 8000.

End Samples.

(** ** What reaches the user *)

(** The calls whose effect the user sees: the clipboard, the keystroke
    and the notifications. *)
Definition delivers (c : call) : bool :=
  match c with
  | Pbcopy _ | Osascript | Notify _ _ _ => true
  | Divide _ | Infer _ _ => false
  end.

Definition delivered (w : world) : list call := List.filter delivers (trace w).

(** A text without white space at either end. *)
Definition trimmed (s : string) : bool :=
  match list_ascii_of_string s with
  | [] => true
  | c :: l => negb (is_space c) && negb (is_space (List.last l c))
  end.

(** ** [get_model] under concurrent callers, whatever the constructor does *)

Module Provider.

Import Threads.

(** The constructions numbered below [n] have all raised. *)
Definition failed_before (E : env) (n : nat) : Prop :=
  forall k, (k < n)%nat -> whisper_init E k <> None.

(** The part of [get_model] inside [with _model_lock:]. *)
Definition critical (c : pc) : bool :=
  match c with
  | AtInnerTest | AtConstruct | AtAssign _ | AtRelease | AtUnwind _ => true
  | AtOuterTest | AtAcquire | AtReturn | Finished _ => false
  end.

(** What holds of thread [i] standing at [c]. *)
Definition thread_sound (E : env) (l m : option nat) (b : nat)
    (i : nat) (c : pc) : Prop :=
  (critical c = true -> l = Some i) /\
  match c with
  | AtOuterTest | AtAcquire | AtInnerTest => True
  | AtConstruct => m = None /\ failed_before E b
  | AtAssign h => m = None /\ b = S h /\ whisper_init E h = None
  | AtRelease | AtReturn => m <> None
  | AtUnwind e =>
      m = None /\ failed_before E b /\
      exists k, (k < b)%nat /\ whisper_init E k = Some e
  | Finished (Ok r) => r = m /\ m <> None
  | Finished (Raise e) => exists k, (k < b)%nat /\ whisper_init E k = Some e
  end.

(** The object stored, or about to be stored, is the last one built and
    the only one whose construction did not raise. *)
Definition store_sound (E : env) (p : pool) : Prop :=
  match model p with
  | Some h => built p = S h /\ whisper_init E h = None /\ failed_before E h
  | None =>
      failed_before E (built p) \/
      exists i h, threads p !! i = Some (AtAssign h) /\
                  built p = S h /\ whisper_init E h = None /\
                  failed_before E h
  end.

Definition sound (E : env) (p : pool) : Prop :=
  store_sound E p /\
  (forall i c, threads p !! i = Some c ->
     thread_sound E (lock p) (model p) (built p) i c) /\
  (forall i, lock p = Some i ->
     exists c, threads p !! i = Some c /\ critical c = true).

End Provider.

(** ** speech_app.py: the menubar application *)

Module App.

(** [pynput.keyboard.Key]: the members the source names, and any other
    key. *)
Inductive Key : Type :=
| Key_ctrl | Key_alt | Key_shift | Key_cmd
| Key_f1 | Key_f2 | Key_f3 | Key_f4 | Key_f5 | Key_f6
| Key_other (name : string).

#[global] Instance Key_eq_dec : EqDecision Key.
Proof. solve_decision. Defined.

(** Lines 170-181. *)
Definition key_map : gmap string Key :=
  list_to_map
    [("ctrl", Key_ctrl); ("alt", Key_alt); ("shift", Key_shift);
     ("cmd", Key_cmd); ("f1", Key_f1); ("f2", Key_f2); ("f3", Key_f3);
     ("f4", Key_f4); ("f5", Key_f5); ("f6", Key_f6)].

(** What a thread started by the application runs. *)
Inductive job : Type :=
| Preload                          (* [self._preload_model_bg] *)
| Process (audio_data : list Q).   (* [self._process_audio] *)

(** The application object and what it has started.  Title, menu and
    configuration are those of [world]; an input stream and a keyboard
    listener are identified by the number of their construction. *)
Record app : Type := {
  sys : world;
  is_recording : bool;
  audio_chunks : list (list Q);
  stream : option nat;               (* [self.stream] *)
  streams : nat;                     (* [sd.InputStream(...)] calls so far *)
  active : list nat;                 (* streams started and not closed *)
  trigger_key : option Key;          (* unset before the first listener *)
  key_listener : option nat;         (* unset before the first listener *)
  listeners : nat;                   (* [keyboard.Listener(...)] calls so far *)
  listening : list nat;              (* listeners started and not stopped *)
  pending : list job;                (* threads started that have yet to run *)
  quit : bool                        (* [rumps.quit_application()] called *)
}.

(** The object [__init__] starts from. *)
Definition blank (w : world) : app :=
  {| sys := w; is_recording := false; audio_chunks := []; stream := None;
     streams := 0; active := []; trigger_key := None; key_listener := None;
     listeners := 0; listening := []; pending := []; quit := false |}.

Definition with_sys (w : world) (a : app) : app :=
  {| sys := w; is_recording := is_recording a;
     audio_chunks := audio_chunks a; stream := stream a;
     streams := streams a; active := active a;
     trigger_key := trigger_key a; key_listener := key_listener a;
     listeners := listeners a; listening := listening a;
     pending := pending a; quit := quit a |}.

Definition set_is_recording (b : bool) (a : app) : app :=
  {| sys := sys a; is_recording := b;
     audio_chunks := audio_chunks a; stream := stream a;
     streams := streams a; active := active a;
     trigger_key := trigger_key a; key_listener := key_listener a;
     listeners := listeners a; listening := listening a;
     pending := pending a; quit := quit a |}.

Definition set_audio_chunks (c : list (list Q)) (a : app) : app :=
  {| sys := sys a; is_recording := is_recording a;
     audio_chunks := c; stream := stream a;
     streams := streams a; active := active a;
     trigger_key := trigger_key a; key_listener := key_listener a;
     listeners := listeners a; listening := listening a;
     pending := pending a; quit := quit a |}.

Definition set_stream (s : option nat) (a : app) : app :=
  {| sys := sys a; is_recording := is_recording a;
     audio_chunks := audio_chunks a; stream := s;
     streams := streams a; active := active a;
     trigger_key := trigger_key a; key_listener := key_listener a;
     listeners := listeners a; listening := listening a;
     pending := pending a; quit := quit a |}.

Definition set_trigger_key (k : Key) (a : app) : app :=
  {| sys := sys a; is_recording := is_recording a;
     audio_chunks := audio_chunks a; stream := stream a;
     streams := streams a; active := active a;
     trigger_key := Some k; key_listener := key_listener a;
     listeners := listeners a; listening := listening a;
     pending := pending a; quit := quit a |}.

Definition set_pending (p : list job) (a : app) : app :=
  {| sys := sys a; is_recording := is_recording a;
     audio_chunks := audio_chunks a; stream := stream a;
     streams := streams a; active := active a;
     trigger_key := trigger_key a; key_listener := key_listener a;
     listeners := listeners a; listening := listening a;
     pending := p; quit := quit a |}.

Definition set_quit (a : app) : app :=
  {| sys := sys a; is_recording := is_recording a;
     audio_chunks := audio_chunks a; stream := stream a;
     streams := streams a; active := active a;
     trigger_key := trigger_key a; key_listener := key_listener a;
     listeners := listeners a; listening := listening a;
     pending := pending a; quit := true |}.

(** [sd.InputStream(...)] followed by [.start()] (lines 211-218): a new
    stream, stored in [self.stream] and delivering blocks from now on.
    The input device is taken to be there: the exception sounddevice
    raises without one is not modelled. *)
Definition open_stream (a : app) : app :=
  {| sys := sys a; is_recording := is_recording a;
     audio_chunks := audio_chunks a; stream := Some (streams a);
     streams := S (streams a); active := active a ++ [streams a];
     trigger_key := trigger_key a; key_listener := key_listener a;
     listeners := listeners a; listening := listening a;
     pending := pending a; quit := quit a |}.

(** [stream.stop()] and [stream.close()]. *)
Definition close_stream (s : nat) (a : app) : app :=
  {| sys := sys a; is_recording := is_recording a;
     audio_chunks := audio_chunks a; stream := stream a;
     streams := streams a;
     active := List.filter (fun x => negb (x =? s)%nat) (active a);
     trigger_key := trigger_key a; key_listener := key_listener a;
     listeners := listeners a; listening := listening a;
     pending := pending a; quit := quit a |}.

(** [listener.stop()]. *)
Definition stop_listener (k : nat) (a : app) : app :=
  {| sys := sys a; is_recording := is_recording a;
     audio_chunks := audio_chunks a; stream := stream a;
     streams := streams a; active := active a;
     trigger_key := trigger_key a; key_listener := key_listener a;
     listeners := listeners a;
     listening := List.filter (fun x => negb (x =? k)%nat) (listening a);
     pending := pending a; quit := quit a |}.

(** [keyboard.Listener(...)] stored in [self.key_listener] and started
    (lines 197-198). *)
Definition new_listener (a : app) : app :=
  {| sys := sys a; is_recording := is_recording a;
     audio_chunks := audio_chunks a; stream := stream a;
     streams := streams a; active := active a;
     trigger_key := trigger_key a; key_listener := Some (listeners a);
     listeners := S (listeners a); listening := listening a ++ [listeners a];
     pending := pending a; quit := quit a |}.

Definition set_config (c : gmap string string) (w : world) : world :=
  {| fs := fs w; next_tmp := next_tmp w; _model := _model w;
     constructions := constructions w; title := title w;
     status := status w; config := c; trace := trace w |}.

(** *** Methods: state and exceptions over [app] *)

Definition P (A : Type) : Type := app -> outcome A * app.

Definition and_then {A B} (m : P A) (k : A -> P B) : P B :=
  fun a =>
    match m a with
    | (Ok x, a') => k x a'
    | (Raise e, a') => (Raise e, a')
    end.

Notation "x <~ m ;; k" := (and_then m (fun x => k))
  (at level 100, m at level 99, k at level 200, right associativity).
Notation "m ~;; k" := (and_then m (fun _ => k))
  (at level 100, k at level 200, right associativity).

Definition skip : P unit := fun a => (Ok tt, a).

(** A change of the attributes of [self]. *)
Definition change (f : app -> app) : P unit := fun a => (Ok tt, f a).

(** A step on the part the application shares with the module. *)
Definition on_sys {A} (m : M A) : P A :=
  fun a => let (r, w) := m (sys a) in (r, with_sys w a).

(** [threading.Thread(target=..., daemon=True).start()]. *)
Definition spawn (j : job) : P unit :=
  change (fun a => set_pending (pending a ++ [j]) a).

(** The status line of lines 138, 160, 240 and 253. *)
Definition ready_line (hotkey : string) : string :=
  "Durum: Hazır (" +:+ hotkey +:+ " tuşu)".

(** Lines 133-139. *)
Definition _preload_model_bg (E : env) : M unit :=
  modify (set_status "Durum: Model yükleniyor...") ;;;
  modify (set_title "⏳") ;;;
  get_model E SpeechApp.models_dir ;;;
  hotkey <- SpeechApp.config_hotkey ;;
  modify (set_status (ready_line hotkey)) ;;;
  modify (set_title "🎤").

(** Lines 141-143. *)
Definition preload_model : P unit := spawn Preload.

(** Lines 200-218. *)
Definition start_recording : P unit :=
  change (set_is_recording true) ~;;
  change (set_audio_chunks []) ~;;
  on_sys (modify (set_title "🔴")) ~;;
  on_sys (modify (set_status "Durum: Kaydediliyor...")) ~;;
  change open_stream.

(** Lines 207-209, the callback of the stream. *)
Definition audio_callback (indata : list Q) : P unit :=
  fun a =>
    if is_recording a then
      change (set_audio_chunks (audio_chunks a ++ [indata])) a
    else skip a.

(** Lines 220-233; [np.concatenate] of the blocks, or the empty array. *)
Definition stop_recording : P unit :=
  change (set_is_recording false) ~;;
  on_sys (modify (set_title "⏳")) ~;;
  on_sys (modify (set_status "Durum: Yazıya çevriliyor...")) ~;;
  (fun a =>
     match stream a with
     | Some s => change (fun a => set_stream None (close_stream s a)) a
     | None => skip a
     end) ~;;
  (fun a =>
     let audio_data :=
       match audio_chunks a with
       | [] => []
       | _ :: _ => concat (audio_chunks a)
       end in
     spawn (Process audio_data) a).

(** Lines 185-187 and 189-191: the two closures handed to the listener. *)
Definition on_press (key : Key) : P unit :=
  fun a =>
    if bool_decide (Some key = trigger_key a) && negb (is_recording a)
    then start_recording a else skip a.

Definition on_release (key : Key) : P unit :=
  fun a =>
    if bool_decide (Some key = trigger_key a) && is_recording a
    then stop_recording a else skip a.

(** Lines 165-198. *)
Definition start_hotkey_listener : P unit :=
  hotkey <~ on_sys SpeechApp.config_hotkey ;;
  change (set_trigger_key (default Key_ctrl (key_map !! hotkey))) ~;;
  (fun a =>
     match key_listener a with
     | Some k => change (stop_listener k) a
     | None => skip a
     end) ~;;
  change new_listener.

(** [str.lower] on the letters A to Z; the names of [keys] hold no other
    letters, so that a text is lowered to one of them by this function
    exactly when Python's lowers it to one. *)
Definition lower_ascii (c : ascii) : ascii :=
  let n := nat_of_ascii c in
  if (65 <=? n)%nat && (n <=? 90)%nat then ascii_of_nat (n + 32) else c.

Fixpoint lower (s : string) : string :=
  match s with
  | EmptyString => EmptyString
  | String c s' => String (lower_ascii c) (lower s')
  end.

(** Lines 145-163; [clicked] and [text] are the answer to the dialog. *)
Definition show_hotkey_menu `{JsonCodec} (clicked : bool) (text : string)
    : P unit :=
  on_sys SpeechApp.config_hotkey ~;;       (* the message of the dialog *)
  on_sys SpeechApp.config_hotkey ~;;       (* its default text *)
  if clicked && bool_decide (lower text ∈ SpeechApp.keys) then
    on_sys (modify (fun w =>
              set_config (<["hotkey" := lower text]> (config w)) w)) ~;;
    on_sys (c <- gets config ;; SpeechApp.save_config c) ~;;
    on_sys (hotkey <- SpeechApp.config_hotkey ;;
            modify (set_status (ready_line hotkey))) ~;;
    start_hotkey_listener ~;;
    on_sys (hotkey <- SpeechApp.config_hotkey ;;
            modify (emit (Notify "Speech to Text" EmptyString
                            ("Tuş değiştirildi: " +:+ hotkey))))
  else skip.

(** Lines 255-259. *)
Definition quit_app : P unit :=
  (fun a =>
     match key_listener a with
     | Some k => change (stop_listener k) a
     | None => skip a
     end) ~;;
  change set_quit.

(** Lines 109-131. *)
Definition __init__ `{JsonCodec} : P unit :=
  on_sys (modify (set_title "🎤")) ~;;
  c <~ on_sys SpeechApp.load_config ;;
  on_sys (modify (set_config c)) ~;;
  change (set_is_recording false) ~;;
  change (set_audio_chunks []) ~;;
  change (set_stream None) ~;;
  on_sys (modify (set_status "Durum: Hazır")) ~;;
  start_hotkey_listener ~;;
  spawn Preload.

(** *** The application at run time *)

Definition run_job (E : env) (j : job) : M unit :=
  match j with
  | Preload => _preload_model_bg E
  | Process audio_data => SpeechApp._process_audio E audio_data
  end.

(** What happens to the application: a key seen by a listener, a block
    delivered by a stream, a click on the menu, or a thread that gets to
    run.  A thread is run to its end in one go, and an exception that
    ends it stays in the thread. *)
Inductive event : Type :=
| Press (listener : nat) (key : Key)
| Release (listener : nat) (key : Key)
| Audio (stream : nat) (indata : list Q)
| Click_hotkey (clicked : bool) (text : string)   (* "Tuş Ayarla" *)
| Click_preload                                   (* "Model Yükle" *)
| Click_quit                                      (* "Çıkış" *)
| Thread_runs (k : nat).

Definition handle `{JsonCodec} (E : env) (ev : event) : P unit :=
  fun a =>
    if quit a then skip a
    else
      match ev with
      | Press l key =>
          if bool_decide (l ∈ listening a) then on_press key a else skip a
      | Release l key =>
          if bool_decide (l ∈ listening a) then on_release key a else skip a
      | Audio s indata =>
          if bool_decide (s ∈ active a) then audio_callback indata a
          else skip a
      | Click_hotkey clicked text => show_hotkey_menu clicked text a
      | Click_preload => preload_model a
      | Click_quit => quit_app a
      | Thread_runs k =>
          match pending a !! k with
          | Some j =>
              (Ok tt,
               with_sys (snd (run_job E j (sys a)))
                 (set_pending (delete k (pending a)) a))
          | None => skip a
          end
      end.

(** The events in their order, up to the first exception that leaves a
    handler. *)
Fixpoint run `{JsonCodec} (E : env) (events : list event) : P unit :=
  match events with
  | [] => skip
  | ev :: events' => handle E ev ~;; run E events'
  end.

(** What holds of the application from the end of [__init__] on. *)
Definition consistent `{JsonCodec} (a : app) : Prop :=
  (exists hotkey,
     config (sys a) !! "hotkey" = Some hotkey /\
     trigger_key a = Some (default Key_ctrl (key_map !! hotkey))) /\
  match stream a with
  | Some s => is_recording a = true /\ active a = [s]
  | None => is_recording a = false /\ active a = []
  end /\
  (exists k, key_listener a = Some k /\
             listening a = if quit a then [] else [k]) /\
  fst (SpeechApp.load_config (sys a)) = Ok (config (sys a)).

(** The blocks stream [s] delivers in a run of events. *)
Definition heard (s : nat) (events : list event) : list (list Q) :=
  flat_map (fun ev => match ev with
                      | Audio s' indata =>
                          if (s' =? s)%nat then [indata] else []
                      | _ => []
                      end) events.

(** What can happen while key [t] is held down: blocks arrive, the key
    repeats, other keys go down and up. *)
Definition held (t : Key) (ev : event) : bool :=
  match ev with
  | Audio _ _ | Press _ _ => true
  | Release _ key => negb (bool_decide (key = t))
  | Click_hotkey _ _ | Click_preload | Click_quit | Thread_runs _ => false
  end.

End App.

(** The key held down while a block of tone arrives, then released, and
    the two threads started so far getting to run. *)
Definition one_utterance : list App.event :=
  [App.Press 0 App.Key_ctrl; App.Audio 0 Samples.tone;
   App.Press 0 App.Key_ctrl; App.Audio 0 Samples.tone;
   App.Audio 0 Samples.tone; App.Release 0 App.Key_ctrl;
   App.Thread_runs 0; App.Thread_runs 0].

(** ** index.py: the command line *)

Module Cli.

(** What [parser.parse_args()] returns (lines 106-109). *)
Record args : Type := {
  sure : option Z;                   (* [-s], [None] when not given *)
  dongu : bool                       (* [-d] *)
}.

(** What the microphone delivers during one pass of the loop: the samples
    [record_fixed] reads, and the callbacks and wake-ups
    [record_until_silence] goes through. *)
Record utterance : Type := {
  samples : nat -> Q;
  events : list Index.event
}.

(** Lines 71-79: [sd.rec] fills an array of [int(duration * sample_rate)]
    frames; numpy refuses a negative size. *)
Definition record_fixed (duration : Z) (u : utterance) : Index.recording :=
  let frames := (duration * Index.sample_rate)%Z in
  if (frames <? 0)%Z then Index.Raised ValueError
  else Index.Returned (map (samples u) (seq 0 (Z.to_nat frames)))
         Index.sample_rate.

(** Lines 117-120; [if args.sure:] is false for [None] and for 0. *)
Definition record {numpy : Numpy} (a : args) (u : utterance)
    : Index.recording :=
  match sure a with
  | Some 0%Z | None =>
      Index.record_until_silence F64.c30 F64.c0_01 F64.c1_5 (events u)
  | Some duration => record_fixed duration u
  end.

(** Lines 114-135.  The loop takes one utterance per pass.  A recording
    still going when the events of its utterance are used up, and a pass
    for which no utterance is left, are where the user presses Ctrl-C:
    [KeyboardInterrupt] is caught and the function returns.  A Ctrl-C
    that strikes elsewhere, inside [transcribe] or between two
    statements of the loop, has no place in a run of this function. *)
Fixpoint loop {numpy : Numpy} (E : env) (a : args) (mic : list utterance)
    : M unit :=
  match mic with
  | [] => ret tt
  | u :: mic' =>
      match record a u with
      | Index.Recording _ => ret tt
      | Index.Raised e => raise e
      | Index.Returned audio sr =>
          Index.transcribe E audio sr ;;;
          if dongu a then loop E a mic' else ret tt
      end
  end.

(** Lines 104-135. *)
Definition main {numpy : Numpy} (E : env) (a : args) (mic : list utterance)
    : M unit :=
  get_model E Index.models_dir ;;;
  loop E a mic.

(** No name [tempfile] has yet to hand out is taken. *)
Definition names_free (w : world) : Prop :=
  forall n, (next_tmp w <= n)%nat ->
    fs w !! temp_name ".wav" (set_next_tmp n w) = None.

(** The recordings of a run of [main] hold samples. *)
Definition audible {numpy : Numpy} (a : args) (u : utterance) : Prop :=
  match record a u with
  | Index.Returned audio _ => audio <> []
  | _ => True
  end.

(** A pass of the loop with the default recorder: three loud blocks and
    twenty quiet ones (of two samples each, to keep them short), the loop
    looking after every block. *)
Definition spoken : utterance :=
  {| samples := fun _ => 0%Q;
     events := Index.lockstep
                 (repeat [1%Q; (-1)%Q] 3 ++ repeat [0%Q; 0%Q] 20) |}.

End Cli.

(** * Properties *)

(** ** binary64 facts used below *)

Lemma literals_correctly_rounded :
  F64.c0_1 = F64.div (F64.of_Z 1) (F64.of_Z 10) /\
  F64.c0_3 = F64.div (F64.of_Z 3) (F64.of_Z 10) /\
  F64.c0_01 = F64.div (F64.of_Z 1) (F64.of_Z 100) /\
  F64.c1_5 = F64.div (F64.of_Z 3) (F64.of_Z 2).
Proof. vm_compute. repeat split. Qed.

Lemma default_max_silent : Index.max_silent_of F64.c1_5 = Ok 15%Z.
Proof. reflexivity. Qed.

Lemma blocks_of_1600_samples : Index.chunk_size = Ok 1600%Z.
Proof. reflexivity. Qed.

(** With no block recorded the ceiling test is [0.0 >= max_duration]. *)
Lemma ceiling_at_zero max_duration :
  Index.ceiling_reached max_duration 0 = F64.le max_duration (F64.of_Z 0).
Proof. reflexivity. Qed.

(** ** The silence-triggered recorder *)

Section Recorder.

Import Index.

Context {numpy : Numpy}.

Variables max_duration silence_threshold : spec_float.
Variable max_silent : Z.

Local Abbreviation listen' :=
  (listen max_duration silence_threshold max_silent).
Local Abbreviation test := (loop_test max_duration max_silent).
Local Abbreviation play := (Index.play silence_threshold).

Lemma callback_chunks b st :
  chunks (callback silence_threshold b st) = chunks st ++ [b].
Proof.
  unfold callback.
  destruct (exceeds _ _); [reflexivity|].
  destruct (speaking_started st); reflexivity.
Qed.

Lemma play_chunks blocks : forall st,
  chunks (play blocks st) = chunks st ++ blocks.
Proof.
  induction blocks as [|b bs IH]; intros st; simpl.
  - now rewrite app_nil_r.
  - rewrite IH, callback_chunks, <- app_assoc. reflexivity.
Qed.

Lemma play_app xs ys st : play (xs ++ ys) st = play ys (play xs st).
Proof. unfold Index.play. apply fold_left_app. Qed.

Lemma callback_loud b st :
  loud silence_threshold b = true ->
  speaking_started (callback silence_threshold b st) = true /\
  silent_chunks (callback silence_threshold b st) = 0%Z.
Proof.
  unfold loud, callback. intros ->. split; reflexivity.
Qed.

Lemma callback_quiet b st :
  loud silence_threshold b = false ->
  speaking_started (callback silence_threshold b st) = speaking_started st /\
  silent_chunks (callback silence_threshold b st) =
    (if speaking_started st then silent_chunks st + 1 else silent_chunks st)%Z.
Proof.
  unfold loud, callback. intros ->.
  destruct (speaking_started st) eqn:E; simpl; rewrite ?E; split; reflexivity.
Qed.

(** After a non-empty stretch of loud blocks speech has started and no
    silent block has been counted. *)
Lemma play_loud blocks : forall st,
  Forall (fun b => loud silence_threshold b = true) blocks ->
  blocks <> [] ->
  speaking_started (play blocks st) = true /\
  silent_chunks (play blocks st) = 0%Z.
Proof.
  induction blocks as [|b bs IH]; intros st Hl Hne; [congruence|].
  inversion Hl as [|? ? Hb Hbs]; subst. simpl.
  destruct bs as [|b' bs'].
  - simpl. now apply callback_loud.
  - apply IH; [assumption | discriminate].
Qed.

(** Once speech has started every quiet block counts. *)
Lemma play_quiet_started blocks : forall st,
  Forall (fun b => loud silence_threshold b = false) blocks ->
  speaking_started st = true ->
  speaking_started (play blocks st) = true /\
  silent_chunks (play blocks st) =
    (silent_chunks st + Z.of_nat (length blocks))%Z.
Proof.
  induction blocks as [|b bs IH]; intros st Hq Hs; simpl.
  - split; [assumption | lia].
  - inversion Hq as [|? ? Hb Hbs]; subst.
    destruct (callback_quiet b st Hb) as [Hs' Hc'].
    rewrite Hs in Hs', Hc'.
    destruct (IH _ Hbs Hs') as [IH1 IH2].
    split; [assumption|]. rewrite IH2, Hc'. lia.
Qed.

(** Before any speech quiet blocks leave the two counters alone. *)
Lemma play_quiet_unstarted blocks : forall st,
  Forall (fun b => loud silence_threshold b = false) blocks ->
  speaking_started st = false ->
  speaking_started (play blocks st) = false /\
  silent_chunks (play blocks st) = silent_chunks st.
Proof.
  induction blocks as [|b bs IH]; intros st Hq Hs; simpl.
  - split; [assumption | reflexivity].
  - inversion Hq as [|? ? Hb Hbs]; subst.
    destruct (callback_quiet b st Hb) as [Hs' Hc'].
    rewrite Hs in Hs', Hc'.
    destruct (IH _ Hbs Hs') as [IH1 IH2].
    split; [assumption|]. now rewrite IH2.
Qed.

(** In lockstep the loop stops after the first block count at which one
    of its tests fires. *)
Lemma listen_lockstep_first blocks : forall st n r,
  (1 <= n <= length blocks)%nat ->
  (forall j, (1 <= j < n)%nat -> test (play (firstn j blocks) st) = None) ->
  test (play (firstn n blocks) st) = Some r ->
  listen' (lockstep blocks) st = (play (firstn n blocks) st, Some r).
Proof.
  induction blocks as [|b bs IH]; intros st n r Hn Hbefore Hat.
  - simpl in Hn. lia.
  - destruct n as [|n]; [lia|]. simpl.
    destruct n as [|n].
    + simpl in Hat. simpl. now rewrite Hat.
    + pose proof (Hbefore 1%nat ltac:(lia)) as H1. simpl in H1.
      rewrite H1. apply IH.
      * simpl in Hn. lia.
      * intros j Hj. apply (Hbefore (S j)). lia.
      * exact Hat.
Qed.

(** In lockstep the loop is still going while no test has fired. *)
Lemma listen_lockstep_going blocks : forall st,
  (forall j, (1 <= j <= length blocks)%nat ->
     test (play (firstn j blocks) st) = None) ->
  listen' (lockstep blocks) st = (play blocks st, None).
Proof.
  induction blocks as [|b bs IH]; intros st Hnone; simpl; [reflexivity|].
  pose proof (Hnone 1%nat ltac:(simpl; lia)) as H1. simpl in H1.
  rewrite H1. apply IH. intros j Hj. apply (Hnone (S j)). simpl. lia.
Qed.

End Recorder.

(** The counters after [j] blocks of a stream that opens with loud blocks
    and goes on with quiet ones. *)
Lemma speech_then_silence_state {numpy : Numpy}
    silence_threshold louds silents rest j :
  Forall (fun b => Index.loud silence_threshold b = true) louds ->
  Forall (fun b => Index.loud silence_threshold b = false) silents ->
  louds <> [] ->
  (1 <= j <= length louds + length silents)%nat ->
  let st := Index.play silence_threshold
              (firstn j (louds ++ silents ++ rest)) Index.start in
  length (Index.chunks st) = j /\
  Index.speaking_started st = true /\
  Index.silent_chunks st = Z.of_nat (j - length louds).
Proof.
  intros Hl Hq Hne Hj st. subst st.
  split.
  - rewrite play_chunks. simpl. rewrite length_take, !length_app. lia.
  - destruct (le_lt_dec j (length louds)) as [Hle|Hgt].
    + rewrite take_app_le by lia.
      replace (j - length louds)%nat with 0%nat by lia.
      apply play_loud.
      * now apply Forall_take.
      * destruct louds; simpl in *; [lia|].
        destruct j; [lia | discriminate].
    + rewrite take_app_ge by lia.
      rewrite take_app_le by lia.
      rewrite play_app.
      destruct (play_loud silence_threshold louds Index.start Hl Hne) as [Hs Hc].
      destruct (play_quiet_started silence_threshold
                  (take (j - length louds) silents) _
                  (Forall_take _ _ _ Hq) Hs) as [Hs' Hc'].
      split; [assumption|].
      rewrite Hc', Hc, length_take. lia.
Qed.

(** C1, amended.  Whatever numpy computes for the level of a block, loud
    and quiet being the two outcomes of the test of line 53: in lockstep,
    a stream of [k+1] loud blocks followed by at least [max_silent] quiet
    ones ends the recording by silence right after block [k+1+max_silent]
    (counted from 1) and is still being recorded after every smaller
    number of blocks, provided the ceiling test of line 65 is false for
    every smaller number of blocks and [max_silent] is at least 1 (or the
    stream opens with a single loud block and [max_silent] is 0).  On the
    run that ends with that block the call returns the blocks up to
    it. *)
Theorem silence_ends_recording {numpy : Numpy}
    (max_duration silence_threshold silence_duration : spec_float)
    (max_silent : Z) (k : nat) (louds silents rest : list (list Q)) :
  Index.max_silent_of silence_duration = Ok max_silent ->
  (1 <= max_silent \/ (max_silent = 0 /\ k = 0%nat))%Z ->
  length louds = S k ->
  Forall (fun b => Index.loud silence_threshold b = true) louds ->
  Forall (fun b => Index.loud silence_threshold b = false) silents ->
  (max_silent <= Z.of_nat (length silents))%Z ->
  (forall n : nat, (1 <= n)%nat ->
     (Z.of_nat n < Z.of_nat k + 1 + max_silent)%Z ->
     Index.ceiling_reached max_duration n = false) ->
  let blocks := louds ++ silents ++ rest in
  let last := Z.to_nat (Z.of_nat k + 1 + max_silent) in
  (exists st,
     Index.listen max_duration silence_threshold max_silent
       (Index.lockstep blocks) Index.start = (st, Some Index.ENDED_SILENCE) /\
     Index.chunks st = firstn last blocks /\
     Z.of_nat (length (Index.chunks st)) = (Z.of_nat k + 1 + max_silent)%Z) /\
  (forall n : nat, (n < last)%nat ->
     snd (Index.listen max_duration silence_threshold max_silent
            (Index.lockstep (firstn n blocks)) Index.start) = None) /\
  Index.record_until_silence max_duration silence_threshold silence_duration
    (Index.lockstep (firstn last blocks))
  = Index.Returned (concat (firstn last blocks)) 16000.
Proof.
  intros Hms Hfloor Hlen Hl Hq Hm Hceil blocks last.
  assert (Hlast : (1 <= last <= length louds + length silents)%nat)
    by (subst last; lia).
  assert (Hne : louds <> []) by (destruct louds; [discriminate | discriminate]).
  assert (Hgoing : forall j, (1 <= j < last)%nat ->
            Index.loop_test max_duration max_silent
              (Index.play silence_threshold (firstn j blocks) Index.start) = None).
  { intros j Hj.
    destruct (speech_then_silence_state silence_threshold louds silents rest j
                Hl Hq Hne ltac:(lia)) as (Hc & Hs & Hn).
    unfold Index.loop_test. fold blocks in Hc, Hs, Hn.
    rewrite Hs, Hn, Hc. simpl.
    replace (max_silent <=? Z.of_nat (j - length louds))%Z with false
      by (symmetry; apply Z.leb_gt; subst last; lia).
    rewrite Hceil by (subst last; lia). reflexivity. }
  assert (Hstop : Index.loop_test max_duration max_silent
            (Index.play silence_threshold (firstn last blocks) Index.start)
          = Some Index.ENDED_SILENCE).
  { destruct (speech_then_silence_state silence_threshold louds silents rest last
                Hl Hq Hne Hlast) as (Hc & Hs & Hn).
    unfold Index.loop_test. fold blocks in Hc, Hs, Hn.
    rewrite Hs, Hn. simpl.
    replace (max_silent <=? Z.of_nat (last - length louds))%Z with true
      by (symmetry; apply Z.leb_le; subst last; lia).
    reflexivity. }
  assert (Hrun : Index.listen max_duration silence_threshold max_silent
            (Index.lockstep blocks) Index.start
          = (Index.play silence_threshold (firstn last blocks) Index.start,
             Some Index.ENDED_SILENCE)).
  { apply listen_lockstep_first; [|assumption|assumption].
    subst blocks. rewrite !length_app. lia. }
  assert (Hchunks : Index.chunks
            (Index.play silence_threshold (firstn last blocks) Index.start)
          = firstn last blocks) by (rewrite play_chunks; reflexivity).
  split; [|split].
  - eexists. split; [exact Hrun|]. split; [exact Hchunks|].
    rewrite Hchunks, length_take. subst blocks. rewrite !length_app. lia.
  - intros n Hn.
    rewrite listen_lockstep_going; [reflexivity|].
    intros j Hj. rewrite length_take in Hj.
    rewrite take_take. replace (j `min` n)%nat with j by lia.
    apply Hgoing. lia.
  - assert (Hlenb : (last <= length blocks)%nat)
      by (subst blocks; rewrite !length_app; lia).
    assert (Hshort : Index.listen max_duration silence_threshold max_silent
              (Index.lockstep (firstn last blocks)) Index.start
            = (Index.play silence_threshold (firstn last blocks) Index.start,
               Some Index.ENDED_SILENCE)).
    { rewrite <- (take_idemp blocks last) at 2.
      apply listen_lockstep_first.
      - rewrite length_take. lia.
      - intros j Hj. rewrite take_take.
        replace (j `min` last)%nat with j by lia. now apply Hgoing.
      - now rewrite take_idemp. }
    unfold Index.record_until_silence. rewrite Hms, Hshort, Hchunks.
    unfold np_concatenate.
    destruct (firstn last blocks) eqn:E; [|reflexivity].
    apply (f_equal (@length _)) in E. rewrite length_take in E.
    simpl in E. lia.
Qed.

(** With the defaults: three loud blocks, then twenty quiet ones; the
    recording ends by silence after block 18. *)
Lemma silence_ends_recording_default :
  exists st,
    Index.listen (numpy := exact_arithmetic) F64.c30 F64.c0_01 15
      (Index.lockstep (repeat Samples.tone 3 ++ repeat Samples.hush 20 ++ []))
      Index.start
    = (st, Some Index.ENDED_SILENCE) /\
    Z.of_nat (length (Index.chunks st)) = 18%Z.
Proof.
  destruct (silence_ends_recording (numpy := exact_arithmetic)
              F64.c30 F64.c0_01 F64.c1_5 15 2
              (repeat Samples.tone 3) (repeat Samples.hush 20) [])
    as [(st & Hrun & _ & Hlen) _].
  - reflexivity.
  - left. lia.
  - reflexivity.
  - repeat constructor.
  - repeat constructor.
  - simpl. lia.
  - intros n Hlo Hhi.
    do 18 (destruct n as [|n]; [first [lia | vm_compute; reflexivity]|]). lia.
  - exists st. split; [exact Hrun | exact Hlen].
Defined.

(** C1 as stated fails when the ceiling comes first.  With the defaults
    ([max_duration = 30], [silence_duration = 1.5], so [max_silent = 15]),
    frames 0..299 loud and the next 15 quiet, the loop leaves through the
    test of line 65 after block 300, with [speaking_started] true and no
    quiet block seen, and not through the silence test after block
    299 + 1 + 15 = 315. *)
Lemma silence_claim_fails_at_ceiling :
  Index.max_silent_of F64.c1_5 = Ok 15%Z /\
  forallb (Index.loud (numpy := exact_arithmetic) F64.c0_01) (repeat Samples.tone 300) = true /\
  forallb (fun b => negb (Index.loud (numpy := exact_arithmetic) F64.c0_01 b)) (repeat Samples.hush 15)
    = true /\
  snd (Index.listen (numpy := exact_arithmetic) F64.c30 F64.c0_01 15
         (Index.lockstep (repeat Samples.tone 300 ++ repeat Samples.hush 15))
         Index.start)
    = Some Index.ENDED_MAXDURATION /\
  length (Index.chunks (fst (Index.listen (numpy := exact_arithmetic) F64.c30 F64.c0_01 15
         (Index.lockstep (repeat Samples.tone 300 ++ repeat Samples.hush 15))
         Index.start)))
    = 300%nat /\
  (300 < 299 + 1 + 15)%nat.
Proof. vm_compute. repeat split; lia. Qed.

(** With [silence_duration = 0.05], [max_silent] is 0 and the first loud
    block ends the recording, whatever follows. *)
Lemma zero_silence_stops_at_first_loud_block :
  Index.max_silent_of Samples.c0_05 = Ok 0%Z /\
  snd (Index.listen (numpy := exact_arithmetic) F64.c30 F64.c0_01 0
         (Index.lockstep (repeat Samples.tone 2 ++ repeat Samples.hush 3))
         Index.start) = Some Index.ENDED_SILENCE /\
  length (Index.chunks (fst (Index.listen (numpy := exact_arithmetic) F64.c30 F64.c0_01 0
         (Index.lockstep (repeat Samples.tone 2 ++ repeat Samples.hush 3))
         Index.start))) = 1%nat.
Proof. vm_compute. repeat split. Qed.

(** The scenario of the specification: two seconds of tone, two of
    silence, defaults otherwise; the recording ends after 3.5 seconds. *)
Lemma tone_then_silence_ends_at_three_and_a_half_seconds :
  snd (Index.listen (numpy := exact_arithmetic) F64.c30 F64.c0_01 15
         (Index.lockstep (repeat Samples.tone 20 ++ repeat Samples.hush 20))
         Index.start) = Some Index.ENDED_SILENCE /\
  length (Index.chunks (fst (Index.listen (numpy := exact_arithmetic) F64.c30 F64.c0_01 15
         (Index.lockstep (repeat Samples.tone 20 ++ repeat Samples.hush 20))
         Index.start))) = 35%nat.
Proof. vm_compute. repeat split. Qed.

Section RecorderRuns.

Import Index.

Context {numpy : Numpy}.

Variables max_duration silence_threshold : spec_float.
Variable max_silent : Z.

Local Abbreviation listen' :=
  (listen max_duration silence_threshold max_silent).

(** What every callback of a run preserves holds in the state reached. *)
Lemma listen_invariant (P : capture -> Prop) run : forall st,
  P st ->
  (forall b s, In (Block b) run -> P s -> P (callback silence_threshold b s)) ->
  P (fst (listen' run st)).
Proof.
  induction run as [|ev run IH]; intros st Hst Hstep; simpl; [assumption|].
  destruct ev as [b|].
  - apply IH.
    + apply Hstep; [now left | assumption].
    + intros b' s Hin. apply Hstep. now right.
  - destruct (loop_test max_duration max_silent st); [assumption|].
    apply IH; [assumption|]. intros b' s Hin. apply Hstep. now right.
Qed.

(** The loop leaves only through one of its two tests. *)
Lemma listen_stops_on_test run : forall st st' r,
  listen' run st = (st', Some r) ->
  loop_test max_duration max_silent st' = Some r.
Proof.
  induction run as [|ev run IH]; intros st st' r H; simpl in H.
  - discriminate.
  - destruct ev as [b|].
    + eapply IH; eassumption.
    + destruct (loop_test max_duration max_silent st) eqn:E.
      * inversion H; subst. assumption.
      * eapply IH; eassumption.
Qed.

End RecorderRuns.

(** C2.  Whatever numpy computes for the level of a block: when the test
    of line 53 holds of no block of a run, [speaking_started] is false in
    every state the recorder reaches, the loop never leaves through the
    silence test, and when it leaves, the ceiling test of line 65 holds for
    the blocks recorded; in lockstep it leaves after the first number of
    blocks for which that test holds. *)
Theorem silent_stream_ends_at_ceiling {numpy : Numpy}
    (max_duration silence_threshold : spec_float) (max_silent : Z) :
  (forall run st r,
     Forall (fun ev => Index.quiet_event silence_threshold ev = true) run ->
     Index.listen max_duration silence_threshold max_silent run Index.start
       = (st, r) ->
     Index.speaking_started st = false /\
     r <> Some Index.ENDED_SILENCE /\
     (r = Some Index.ENDED_MAXDURATION ->
      Index.ceiling_reached max_duration (length (Index.chunks st)) = true)) /\
  (forall blocks n,
     Forall (fun b => Index.loud silence_threshold b = false) blocks ->
     (1 <= n <= length blocks)%nat ->
     Index.ceiling_reached max_duration n = true ->
     (forall j, (1 <= j < n)%nat ->
        Index.ceiling_reached max_duration j = false) ->
     Index.listen max_duration silence_threshold max_silent
       (Index.lockstep blocks) Index.start
     = (Index.play silence_threshold (firstn n blocks) Index.start,
        Some Index.ENDED_MAXDURATION)).
Proof.
  split.
  - intros run st r Hquiet Hrun.
    assert (Hs : Index.speaking_started st = false).
    { change st with (fst (st, r)). rewrite <- Hrun.
      apply listen_invariant; [reflexivity|].
      intros b s Hin Hs.
      rewrite List.Forall_forall in Hquiet. specialize (Hquiet _ Hin).
      simpl in Hquiet. apply negb_true_iff in Hquiet.
      destruct (callback_quiet silence_threshold b s Hquiet) as [-> _].
      exact Hs. }
    split; [exact Hs|].
    destruct r as [r|]; [|split; [discriminate | discriminate]].
    apply listen_stops_on_test in Hrun.
    unfold Index.loop_test in Hrun. rewrite Hs in Hrun. simpl in Hrun.
    destruct (Index.ceiling_reached max_duration (length (Index.chunks st)));
      [|discriminate].
    inversion Hrun; subst. split; [discriminate | reflexivity].
  - intros blocks n Hquiet Hn Hat Hbefore.
    assert (Hstate : forall j, (j <= length blocks)%nat ->
              Index.speaking_started
                (Index.play silence_threshold (firstn j blocks) Index.start)
                = false /\
              length (Index.chunks
                (Index.play silence_threshold (firstn j blocks) Index.start))
                = j).
    { intros j Hj. split.
      - apply play_quiet_unstarted; [now apply Forall_take | reflexivity].
      - rewrite play_chunks. simpl. rewrite length_take. lia. }
    apply listen_lockstep_first; [assumption| |].
    + intros j Hj. destruct (Hstate j ltac:(lia)) as [Hs Hc].
      unfold Index.loop_test. rewrite Hs, Hc. simpl.
      now rewrite Hbefore.
    + destruct (Hstate n ltac:(lia)) as [Hs Hc].
      unfold Index.loop_test. rewrite Hs, Hc. simpl.
      now rewrite Hat.
Qed.

(** One second of ceiling and twelve blocks of digital silence: the loop
    leaves through the ceiling test after block 10, speech never having
    started. *)
Lemma silent_stream_one_second :
  Index.listen (numpy := exact_arithmetic) (F64.of_Z 1) F64.c0_01 15
    (Index.lockstep (repeat Samples.hush 12)) Index.start
  = (Index.play (numpy := exact_arithmetic) F64.c0_01 (firstn 10 (repeat Samples.hush 12)) Index.start,
     Some Index.ENDED_MAXDURATION) /\
  Index.speaking_started
    (fst (Index.listen (numpy := exact_arithmetic) (F64.of_Z 1) F64.c0_01 15
            (Index.lockstep (repeat Samples.hush 12)) Index.start)) = false.
Proof.
  split.
  - apply (proj2 (silent_stream_ends_at_ceiling (numpy := exact_arithmetic)
                    (F64.of_Z 1) F64.c0_01 15)).
    + repeat constructor.
    + simpl. lia.
    + vm_compute. reflexivity.
    + intros j Hj.
      do 10 (destruct j as [|j]; [first [lia | vm_compute; reflexivity]|]). lia.
  - refine (proj1 (proj1 (silent_stream_ends_at_ceiling
                            (numpy := exact_arithmetic) (F64.of_Z 1)
                            F64.c0_01 15)
                     (Index.lockstep (repeat Samples.hush 12)) _ _ _
                     (surjective_pairing _))).
    repeat constructor.
Defined.

(** C10, amended.  Unless [max_duration <= 0], whenever the loop of
    [record_until_silence] leaves, at least one block has been appended:
    the concatenation of line 69 does not raise, the call returns the
    blocks recorded, and the audio returned is not empty when no block
    delivered by the stream is. *)
Theorem recorder_returns_recorded_blocks {numpy : Numpy}
    (max_duration silence_threshold silence_duration : spec_float)
    (max_silent : Z) (run : list Index.event) (st : Index.capture)
    (r : Index.ending) :
  F64.le max_duration (F64.of_Z 0) = false ->
  Index.max_silent_of silence_duration = Ok max_silent ->
  Index.listen max_duration silence_threshold max_silent run Index.start
    = (st, Some r) ->
  Index.chunks st <> [] /\
  Index.record_until_silence max_duration silence_threshold silence_duration run
    = Index.Returned (concat (Index.chunks st)) 16000 /\
  (Forall (fun ev => ev <> Index.Block []) run -> concat (Index.chunks st) <> []).
Proof.
  intros Hpos Hms Hrun.
  assert (Hne : Index.chunks st <> []).
  { assert (Hinv : Index.chunks st = [] -> Index.speaking_started st = false).
    { change st with (fst (st, Some r)). rewrite <- Hrun.
      apply listen_invariant; [reflexivity|].
      intros b s _ _ Hnil. rewrite callback_chunks in Hnil.
      destruct (Index.chunks s); discriminate. }
    intros Hnil. specialize (Hinv Hnil).
    apply listen_stops_on_test in Hrun.
    unfold Index.loop_test in Hrun. rewrite Hinv, Hnil in Hrun. simpl in Hrun.
    rewrite ceiling_at_zero, Hpos in Hrun. discriminate. }
  split; [exact Hne|]. split.
  - unfold Index.record_until_silence. rewrite Hms, Hrun.
    unfold np_concatenate. destruct (Index.chunks st); [congruence | reflexivity].
  - intros Hblocks.
    assert (Hall : Forall (fun b => b <> []) (Index.chunks st)).
    { change st with (fst (st, Some r)). rewrite <- Hrun.
      apply (listen_invariant max_duration silence_threshold max_silent
               (fun s => Forall (fun b => b <> []) (Index.chunks s))).
      - constructor.
      - intros b s Hin Hs. rewrite callback_chunks.
        apply Forall_app. split; [assumption|].
        constructor; [|constructor].
        rewrite List.Forall_forall in Hblocks. specialize (Hblocks _ Hin).
        congruence. }
    destruct (Index.chunks st) as [|b bs]; [congruence|].
    inversion Hall as [|? ? Hb _]; subst. simpl.
    destruct b; [congruence | discriminate].
Qed.

(** Three loud blocks, then twenty quiet ones, with the defaults. *)
Lemma short_speech_stops :
  snd (Index.listen (numpy := exact_arithmetic) F64.c30 F64.c0_01 15
         (Index.lockstep (repeat Samples.tone 3 ++ repeat Samples.hush 20))
         Index.start) = Some Index.ENDED_SILENCE.
Proof. vm_compute. reflexivity. Qed.

(** On that run the recorder returns what the eighteen blocks hold. *)
Lemma recorder_returns_default_recording :
  Index.record_until_silence (numpy := exact_arithmetic) F64.c30 F64.c0_01 F64.c1_5
    (Index.lockstep (repeat Samples.tone 3 ++ repeat Samples.hush 20))
  = Index.Returned
      (concat (Index.chunks
         (fst (Index.listen (numpy := exact_arithmetic) F64.c30 F64.c0_01 15
                 (Index.lockstep
                    (repeat Samples.tone 3 ++ repeat Samples.hush 20))
                 Index.start))))
      16000.
Proof.
  eapply (recorder_returns_recorded_blocks (numpy := exact_arithmetic)
            F64.c30 F64.c0_01 F64.c1_5 15).
  - vm_compute. reflexivity.
  - reflexivity.
  - rewrite <- short_speech_stops. apply surjective_pairing.
Defined.

(** C10 as stated fails for [max_duration = 0] when the loop wakes up
    before the first block has arrived: the ceiling test holds with no
    block recorded and the concatenation raises. *)
Lemma zero_ceiling_leaves_nothing_to_concatenate :
  Index.record_until_silence (numpy := exact_arithmetic) (F64.of_Z 0) F64.c0_01 F64.c1_5 [Index.Wake]
  = Index.Raised ValueError.
Proof. vm_compute. reflexivity. Qed.

(** ** The transcribers *)

Lemma Qltb_true x y : Qltb x y = true <-> (x < y)%Q.
Proof.
  unfold Qltb. rewrite negb_true_iff.
  split.
  - intros H. apply Qnot_le_lt. intros Hle.
    apply Qle_bool_iff in Hle. congruence.
  - intros H. destruct (Qle_bool y x) eqn:E; [|reflexivity].
    apply Qle_bool_iff in E. exfalso. exact (Qlt_not_le _ _ H E).
Qed.

Lemma Qltb_false x y : Qltb x y = false <-> (y <= x)%Q.
Proof.
  unfold Qltb. rewrite negb_false_iff. apply Qle_bool_iff.
Qed.

Lemma Qmax_ub_l x y : (x <= Qmax x y)%Q.
Proof.
  unfold Qmax. destruct (Qle_bool x y) eqn:E.
  - now apply Qle_bool_iff.
  - apply Qle_refl.
Qed.

Lemma Qmax_ub_r x y : (y <= Qmax x y)%Q.
Proof.
  unfold Qmax. destruct (Qle_bool x y) eqn:E.
  - apply Qle_refl.
  - apply Qlt_le_weak. apply Qltb_true. unfold Qltb. now rewrite E.
Qed.

Lemma fold_Qmax_ub xs : forall a,
  (a <= fold_left Qmax xs a)%Q /\
  Forall (fun x => (x <= fold_left Qmax xs a)%Q) xs.
Proof.
  induction xs as [|x xs IH]; intros a; simpl.
  - split; [apply Qle_refl | constructor].
  - destruct (IH (Qmax a x)) as [IH1 IH2]. split; [|constructor].
    + eapply Qle_trans; [apply Qmax_ub_l | exact IH1].
    + eapply Qle_trans; [apply Qmax_ub_r | exact IH1].
    + exact IH2.
Qed.

(** [np.max] bounds every element. *)
Lemma np_max_ub a m :
  np_max a = Ok m -> Forall (fun x => (x <= m)%Q) a.
Proof.
  destruct a as [|x xs]; simpl; [discriminate|].
  intros H. inversion H; subst.
  destruct (fold_Qmax_ub xs x) as [H1 H2]. now constructor.
Qed.

Lemma Qeq_zero_num x : (x == 0)%Q <-> Qnum x = 0%Z.
Proof. unfold Qeq. simpl. lia. Qed.

Lemma np_int16_zero x : (x == 0)%Q -> np_int16 (x * 32767) = 0%Z.
Proof.
  intros H. apply Qeq_zero_num in H.
  unfold np_int16. simpl. rewrite H. reflexivity.
Qed.

(** A buffer whose peak is zero holds zeros only. *)
Lemma peak_zero_all_zero audio m :
  np_max (np_abs audio) = Ok m -> (m == 0)%Q ->
  Forall (fun x => (x == 0)%Q) audio.
Proof.
  intros Hmax Hm. apply np_max_ub in Hmax.
  unfold np_abs in Hmax. rewrite Forall_map in Hmax.
  eapply Forall_impl; [exact Hmax|].
  intros x Hx. simpl in Hx. rewrite Hm in Hx.
  apply Qabs_Qle_condition in Hx. destruct Hx as [Hlo Hhi].
  apply Qle_antisym; assumption.
Qed.

(** The divisor of every division [normalize] performs is positive. *)
Lemma normalize_divides_by_positive audio w r w' :
  normalize audio w = (r, w') ->
  trace w' = trace w \/
  exists d, trace w' = trace w ++ [Divide d] /\ (0 < d)%Q.
Proof.
  unfold normalize, bind, lift, np_divide, modify, ret.
  destruct (np_max (np_abs audio)) as [m|e]; simpl.
  - destruct (Qltb 0 m) eqn:E; simpl; intros H; inversion H; subst.
    + right. exists m. split; [reflexivity | now apply Qltb_true].
    + now left.
  - intros H; inversion H; subst. now left.
Qed.

(** C4.  For a buffer whose largest absolute sample is 0, the
    normalisation step returns the buffer as it is and leaves the world
    as it is (no division is performed), every sample of the buffer handed
    to the quantisation is 0, and so is every sample written. *)
Theorem silence_is_not_divided (audio : list Q) (m : Q) (w : world) :
  np_max (np_abs audio) = Ok m ->
  (m == 0)%Q ->
  normalize audio w = (Ok audio, w) /\
  Forall (fun x => (x == 0)%Q) audio /\
  quantize audio = repeat 0%Z (length audio).
Proof.
  intros Hmax Hm.
  assert (Hzero := peak_zero_all_zero audio m Hmax Hm).
  split; [|split].
  - unfold normalize, bind, lift. rewrite Hmax.
    replace (Qltb 0 m) with false; [reflexivity|].
    symmetry. apply Qltb_false. rewrite Hm. apply Qle_refl.
  - exact Hzero.
  - clear Hmax. induction Hzero as [|x xs Hx _ IH]; simpl; [reflexivity|].
    f_equal; [now apply np_int16_zero | exact IH].
Qed.

(** A block of digital silence goes through untouched. *)
Lemma digital_silence_is_not_divided :
  normalize Samples.hush Samples.boot = (Ok Samples.hush, Samples.boot) /\
  quantize Samples.hush = repeat 0%Z 1600.
Proof.
  destruct (silence_is_not_divided Samples.hush 0 Samples.boot)
    as (Hn & _ & Hq).
  - vm_compute. reflexivity.
  - reflexivity.
  - split; [exact Hn | exact Hq].
Defined.

(** C5.  For a buffer whose largest absolute sample is 1.0, the
    normalisation step divides by that maximum and every sample it returns
    has the value it had. *)
Theorem normalized_buffer_is_unchanged (audio : list Q) (m : Q) (w : world) :
  np_max (np_abs audio) = Ok m ->
  (m == 1)%Q ->
  exists audio',
    normalize audio w = (Ok audio', emit (Divide m) w) /\
    Forall2 Qeq audio' audio.
Proof.
  intros Hmax Hm.
  exists (map (fun x => (x / m)%Q) audio). split.
  - unfold normalize, bind, lift. rewrite Hmax.
    replace (Qltb 0 m) with true; [reflexivity|].
    symmetry. apply Qltb_true. rewrite Hm. reflexivity.
  - clear Hmax. induction audio as [|x xs IH]; simpl; constructor; [|exact IH].
    rewrite Hm. unfold Qdiv. change (/ 1)%Q with 1%Q. apply Qmult_1_r.
Qed.

(** A buffer that reaches full scale at its second sample. *)
Lemma full_scale_buffer_is_unchanged :
  exists audio',
    normalize [(1 # 2)%Q; (-1)%Q; (1 # 4)%Q] Samples.boot
      = (Ok audio', emit (Divide 1) Samples.boot) /\
    Forall2 Qeq audio' [(1 # 2)%Q; (-1)%Q; (1 # 4)%Q].
Proof.
  apply (normalized_buffer_is_unchanged [(1 # 2)%Q; (-1)%Q; (1 # 4)%Q] 1
           Samples.boot).
  - reflexivity.
  - reflexivity.
Defined.

Lemma normalize_result audio m w :
  np_max (np_abs audio) = Ok m ->
  exists w',
    normalize audio w = (Ok (normalized audio), w') /\
    fs w' = fs w /\ next_tmp w' = next_tmp w /\ _model w' = _model w /\
    constructions w' = constructions w.
Proof.
  intros Hmax. unfold normalize, normalized, bind, lift. rewrite Hmax.
  destruct (Qltb 0 m); eexists; (split; [reflexivity|]); repeat split.
Qed.

Lemma nonempty_has_peak audio :
  audio <> [] -> exists m, np_max (np_abs audio) = Ok m.
Proof.
  destruct audio as [|x xs]; [congruence|]. intros _. simpl. eauto.
Qed.

(** [os.makedirs] keeps what is there. *)
Lemma os_makedirs_keeps dir path f w :
  fs w !! path = Some f ->
  fs (snd (os_makedirs dir w)) !! path = Some f.
Proof.
  intros H. unfold os_makedirs.
  destruct (fs w !! dir) eqn:E; simpl; [assumption|].
  rewrite lookup_insert_ne; [assumption|]. congruence.
Qed.

(** The guarded part of both transcribers when the model is there or can
    be built: the model is invoked on the file, its answer or its
    exception is what the caller gets, and the file is gone. *)
Lemma run_model_invokes E dir tmp w h rate data :
  loaded_model E w = Ok h ->
  fs w !! tmp = Some (Wav rate data) ->
  exists w',
    run_model E dir tmp w =
      (match whisper_transcribe E h (Some (Wav rate data)) with
       | Ok segments => Ok (strip (join " " segments))
       | Raise e => Raise e
       end, w') /\
    fs w' !! tmp = None /\
    trace w' = trace w ++ [Infer h tmp].
Proof.
  intros Hload Hfile.
  unfold loaded_model in Hload.
  unfold run_model, try_finally, get_model, bind, gets, modify.
  destruct (_model w) as [h'|] eqn:Hm.
  - inversion Hload; subst h'. simpl.
    unfold model_transcribe, bind, modify, gets, lift, os_unlink. simpl.
    rewrite Hm, Hfile.
    destruct (whisper_transcribe E h (Some (Wav rate data))) as [segs|e]; simpl;
      rewrite Hfile; eexists; (split; [reflexivity|]); simpl;
      (split; [apply lookup_delete_eq | reflexivity]).
  - pose proof (os_makedirs_keeps dir tmp _ w Hfile) as Hkeep.
    destruct (os_makedirs dir w) as [[[]|e] w1] eqn:Hmk;
      [|unfold os_makedirs in Hmk; destruct (fs w !! dir); discriminate].
    assert (Hc : constructions w1 = constructions w /\ trace w1 = trace w).
    { unfold os_makedirs in Hmk.
      destruct (fs w !! dir); inversion Hmk; subst; split; reflexivity. }
    destruct Hc as [Hc Ht]. simpl in Hkeep. simpl.
    rewrite Hc.
    destruct (whisper_init E (constructions w)) as [e|] eqn:Hinit;
      [discriminate|].
    inversion Hload; subst h. simpl.
    unfold model_transcribe, bind, modify, gets, lift, os_unlink. simpl.
    rewrite Hkeep.
    destruct (whisper_transcribe E (constructions w) (Some (Wav rate data))) as [segs|e];
      simpl; rewrite Hkeep; eexists; (split; [reflexivity|]); simpl;
      (split; [apply lookup_delete_eq | now rewrite Ht]).
Qed.

(** When the model cannot be built the exception of the constructor
    reaches the caller, the model is not invoked and the file is gone. *)
Lemma run_model_load_failure E dir tmp w e rate data :
  loaded_model E w = Raise e ->
  fs w !! tmp = Some (Wav rate data) ->
  exists w',
    run_model E dir tmp w = (Raise e, w') /\
    fs w' !! tmp = None /\
    trace w' = trace w.
Proof.
  intros Hload Hfile.
  unfold loaded_model in Hload.
  unfold run_model, try_finally, get_model, bind, gets, modify.
  destruct (_model w) as [h'|] eqn:Hm; [discriminate|].
  pose proof (os_makedirs_keeps dir tmp _ w Hfile) as Hkeep.
  destruct (os_makedirs dir w) as [[[]|e'] w1] eqn:Hmk;
    [|unfold os_makedirs in Hmk; destruct (fs w !! dir); discriminate].
  assert (Hc : constructions w1 = constructions w /\ trace w1 = trace w).
  { unfold os_makedirs in Hmk.
    destruct (fs w !! dir); inversion Hmk; subst; split; reflexivity. }
  destruct Hc as [Hc Ht]. simpl in Hkeep. simpl.
  rewrite Hc.
  destruct (whisper_init E (constructions w)) as [e'|] eqn:Hinit;
    [|discriminate].
  inversion Hload; subst e'. unfold raise, os_unlink. simpl.
  rewrite Hkeep. eexists. split; [reflexivity|]. simpl.
  split; [apply lookup_delete_eq | exact Ht].
Qed.

(** Both transcribers reach their [try] with the quantised, normalised
    buffer in the temporary file and the model globals untouched. *)
Lemma transcriber_enters_try E dir audio rate w m :
  np_max (np_abs audio) = Ok m ->
  exists w3,
    (temp_path <- NamedTemporaryFile ".wav" ;;
     audio_data <- normalize audio ;;
     wavfile_write temp_path rate (quantize audio_data) ;;;
     run_model E dir temp_path) w
      = run_model E dir (temp_name ".wav" w) w3 /\
    fs w3 !! temp_name ".wav" w = Some (Wav rate (quantize (normalized audio))) /\
    _model w3 = _model w /\ constructions w3 = constructions w.
Proof.
  intros Hmax.
  unfold bind at 1, NamedTemporaryFile.
  set (tmp := temp_name ".wav" w).
  set (w1 := set_fs _ _).
  destruct (normalize_result audio m w1 Hmax)
    as (w2 & Hn & Hfs & _ & Hmod & Hcons).
  unfold bind at 1. rewrite Hn.
  unfold bind at 1. unfold wavfile_write, modify.
  eexists. split; [reflexivity|]. simpl.
  split; [apply lookup_insert_eq|].
  rewrite Hmod, Hcons. split; reflexivity.
Qed.

Lemma transcribe_audio_nonempty E audio rate w :
  audio <> [] ->
  SpeechApp.transcribe_audio E audio rate w =
    (temp_path <- NamedTemporaryFile ".wav" ;;
     audio_data <- normalize audio ;;
     wavfile_write temp_path rate (quantize audio_data) ;;;
     run_model E SpeechApp.models_dir temp_path) w.
Proof.
  intros Hne. unfold SpeechApp.transcribe_audio.
  destruct audio; [congruence | reflexivity].
Qed.

Lemma transcriber_outcome E dir audio rate w h :
  audio <> [] ->
  loaded_model E w = Ok h ->
  exists w',
    (temp_path <- NamedTemporaryFile ".wav" ;;
     audio_data <- normalize audio ;;
     wavfile_write temp_path rate (quantize audio_data) ;;;
     run_model E dir temp_path) w
    = (match whisper_transcribe E h
               (Some (Wav rate (quantize (normalized audio)))) with
       | Ok segments => Ok (strip (join " " segments))
       | Raise e => Raise e
       end, w') /\
    fs w' !! temp_name ".wav" w = None /\
    In (Infer h (temp_name ".wav" w)) (trace w').
Proof.
  intros Hne Hload.
  destruct (nonempty_has_peak audio Hne) as [m Hmax].
  destruct (transcriber_enters_try E dir audio rate w m Hmax)
    as (w3 & Heq & Hfile & Hmod & Hcons).
  assert (Hload3 : loaded_model E w3 = Ok h)
    by (unfold loaded_model in *; now rewrite Hmod, Hcons).
  destruct (run_model_invokes E dir _ w3 h _ _ Hload3 Hfile)
    as (w' & Hrun & Hgone & Htrace).
  exists w'. rewrite Heq, Hrun. split; [reflexivity|]. split; [exact Hgone|].
  rewrite Htrace. apply in_or_app. right. now left.
Qed.

(** C8.  For every buffer that reaches the model, whatever the model
    invocation does, answer or raise, both transcribers hand that answer
    or that exception to their caller with the temporary WAV file already
    deleted. *)
Theorem temp_file_removed_on_both_paths
    (E : env) (audio : list Q) (rate : Z) (w : world) (h : nat) :
  audio <> [] ->
  loaded_model E w = Ok h ->
  let tmp := temp_name ".wav" w in
  let expected :=
    match whisper_transcribe E h
            (Some (Wav rate (quantize (normalized audio)))) with
    | Ok segments => Ok (strip (join " " segments))
    | Raise e => Raise e
    end in
  (exists w',
     Index.transcribe E audio rate w = (expected, w') /\
     fs w' !! tmp = None /\ In (Infer h tmp) (trace w')) /\
  (exists w',
     SpeechApp.transcribe_audio E audio rate w = (expected, w') /\
     fs w' !! tmp = None /\ In (Infer h tmp) (trace w')).
Proof.
  intros Hne Hload tmp expected. split.
  - apply (transcriber_outcome E Index.models_dir audio rate w h Hne Hload).
  - rewrite transcribe_audio_nonempty by assumption.
    apply (transcriber_outcome E SpeechApp.models_dir audio rate w h Hne Hload).
Qed.

(** A model whose invocation raises: the caller of index.py's
    [transcribe] gets the exception and the file is gone. *)
Lemma model_error_leaves_no_file :
  exists w',
    Index.transcribe Samples.broken Samples.word 16000 Samples.boot
      = (Raise (ExternalError "decode failed"), w') /\
    fs w' !! "/tmp/tmp0.wav" = None.
Proof.
  destruct (temp_file_removed_on_both_paths Samples.broken Samples.word 16000
              Samples.boot 0) as [(w' & Hrun & Hgone & _) _].
  - intros H. apply (f_equal (@length Q)) in H. vm_compute in H. discriminate.
  - reflexivity.
  - exists w'. split; [exact Hrun | exact Hgone].
Defined.

(** A model that answers: the text is the segments joined and stripped,
    one division and one invocation have happened, and no file is left. *)
Lemma word_is_transcribed :
  fst (Index.transcribe Samples.steady Samples.word 16000 Samples.boot)
    = Ok "Merhaba  dünya" /\
  trace (snd (Index.transcribe Samples.steady Samples.word 16000 Samples.boot))
    = [Divide (1 # 2); Infer 0 "/tmp/tmp0.wav"] /\
  fs (snd (Index.transcribe Samples.steady Samples.word 16000 Samples.boot))
     !! "/tmp/tmp0.wav" = None.
Proof. vm_compute. repeat split. Qed.

(** An exception of the constructor is handled the same way. *)
Lemma temp_file_removed_on_load_failure E audio rate w e :
  audio <> [] ->
  loaded_model E w = Raise e ->
  (exists w',
     Index.transcribe E audio rate w = (Raise e, w') /\
     fs w' !! temp_name ".wav" w = None) /\
  (exists w',
     SpeechApp.transcribe_audio E audio rate w = (Raise e, w') /\
     fs w' !! temp_name ".wav" w = None).
Proof.
  intros Hne Hload.
  destruct (nonempty_has_peak audio Hne) as [m Hmax].
  split.
  - destruct (transcriber_enters_try E Index.models_dir audio rate w m Hmax)
      as (w3 & Heq & Hfile & Hmod & Hcons).
    assert (Hload3 : loaded_model E w3 = Raise e)
      by (unfold loaded_model in *; now rewrite Hmod, Hcons).
    destruct (run_model_load_failure E Index.models_dir _ w3 e _ _ Hload3 Hfile)
      as (w' & Hrun & Hgone & _).
    exists w'. unfold Index.transcribe. rewrite Heq, Hrun. now split.
  - rewrite transcribe_audio_nonempty by assumption.
    destruct (transcriber_enters_try E SpeechApp.models_dir audio rate w m Hmax)
      as (w3 & Heq & Hfile & Hmod & Hcons).
    assert (Hload3 : loaded_model E w3 = Raise e)
      by (unfold loaded_model in *; now rewrite Hmod, Hcons).
    destruct (run_model_load_failure E SpeechApp.models_dir _ w3 e _ _ Hload3 Hfile)
      as (w' & Hrun & Hgone & _).
    exists w'. rewrite Heq, Hrun. now split.
Qed.

(** The daemon's transcriber answers the empty buffer at once. *)
Lemma transcribe_audio_empty_buffer E rate w :
  SpeechApp.transcribe_audio E [] rate w = (Ok EmptyString, w).
Proof. reflexivity. Qed.

(** C3, on index.py.  On the empty buffer [transcribe] does not return the
    empty string: [np.max] raises [ValueError] before the [try], so the
    model is not invoked and the temporary file just created stays. *)
Theorem transcribe_empty_buffer_raises (E : env) (rate : Z) (w : world) :
  exists w',
    Index.transcribe E [] rate w = (Raise ValueError, w') /\
    trace w' = trace w /\
    constructions w' = constructions w /\
    fs w' !! temp_name ".wav" w = Some (Text EmptyString).
Proof.
  eexists. split; [reflexivity|]. simpl.
  repeat split. apply lookup_insert_eq.
Qed.

(** ** The daemon's per-utterance step *)

(** [_sample_rate * 0.3] is 4800.0, and the test of line 238 holds for
    every length below it. *)
Lemma floor_is_4800 :
  F64.mul (F64.of_Z SpeechApp._sample_rate) F64.c0_3 = F64.of_Z 4800.
Proof. vm_compute. reflexivity. Qed.

Lemma too_short_below_floor n :
  (n < 4800)%nat -> SpeechApp.too_short n = true.
Proof.
  intros Hn.
  assert (Hall : forallb SpeechApp.too_short (seq 0 4800) = true)
    by (vm_compute; reflexivity).
  rewrite forallb_forall in Hall. apply Hall.
  apply in_seq. lia.
Qed.

Lemma too_short_at_floor : SpeechApp.too_short 4800 = false.
Proof. vm_compute. reflexivity. Qed.

(** C6.  A buffer of fewer than 0.3 * 16000 samples is dropped: the step
    returns without an exception; in the world it leaves the title is the
    microphone and the status line the ready line with the hotkey,
    whatever they were before; and nothing else has changed: no
    temporary file has been made or name handed out, no model built or
    invoked, nothing pasted or notified, and the configuration is the
    same. *)
Theorem short_recording_is_discarded
    (E : env) (audio : list Q) (w : world) (hotkey : string) :
  (length audio < 4800)%nat ->
  config w !! "hotkey" = Some hotkey ->
  let w' := snd (SpeechApp._process_audio E audio w) in
  fst (SpeechApp._process_audio E audio w) = Ok tt /\
  title w' = "🎤" /\
  status w' = "Durum: Hazır (" +:+ hotkey +:+ " tuşu)" /\
  trace w' = trace w /\
  constructions w' = constructions w /\
  _model w' = _model w /\
  fs w' = fs w /\
  next_tmp w' = next_tmp w /\
  config w' = config w.
Proof.
  intros Hshort Hkey.
  assert (Heq : SpeechApp._process_audio E audio w =
    (Ok tt,
     set_status ("Durum: Hazır (" +:+ hotkey +:+ " tuşu)") (set_title "🎤" w))).
  { unfold SpeechApp._process_audio.
    rewrite (too_short_below_floor _ Hshort).
    unfold try_finally, try_except, SpeechApp.show_ready, bind, modify,
      SpeechApp.config_hotkey.
    simpl. rewrite Hkey. simpl. rewrite Hkey. reflexivity. }
  cbv zeta. rewrite Heq. repeat split.
Qed.

(** A quarter of a second of audio is dropped: the hourglass and the
    line "Durum: Yazıya çevriliyor..." of the world it starts in give way
    to the microphone and the ready line. *)
Lemma tap_is_discarded :
  title Samples.boot = "⏳" /\
  status Samples.boot = "Durum: Yazıya çevriliyor..." /\
  fst (SpeechApp._process_audio Samples.steady Samples.tap Samples.boot)
    = Ok tt /\
  title (snd (SpeechApp._process_audio Samples.steady Samples.tap
                Samples.boot)) = "🎤" /\
  status (snd (SpeechApp._process_audio Samples.steady Samples.tap
                 Samples.boot)) = "Durum: Hazır (ctrl tuşu)" /\
  trace (snd (SpeechApp._process_audio Samples.steady Samples.tap
                Samples.boot)) = [].
Proof.
  destruct (short_recording_is_discarded Samples.steady Samples.tap
              Samples.boot "ctrl") as (Hres & Ht & Hs & Htr & _).
  - vm_compute. lia.
  - reflexivity.
  - split; [reflexivity|]. split; [reflexivity|].
    split; [exact Hres|]. split; [exact Ht|]. split; [exact Hs | exact Htr].
Defined.

(** One second of audio goes through the transcriber and is pasted; when
    the model raises, the exception ends as a notification.  The
    indicator is back to ready both times. *)
Lemma word_is_pasted :
  trace (snd (SpeechApp._process_audio Samples.steady Samples.word
                Samples.boot))
    = [Divide (1 # 2); Infer 0 "/tmp/tmp0.wav"; Pbcopy "Merhaba  dünya";
       Osascript; Notify "Speech to Text" EmptyString "Merhaba  dünya"] /\
  title (snd (SpeechApp._process_audio Samples.steady Samples.word
                Samples.boot)) = "🎤".
Proof. vm_compute. repeat split. Qed.

Lemma model_error_is_notified :
  SpeechApp._process_audio Samples.broken Samples.word Samples.boot
  = (Ok tt,
     snd (SpeechApp._process_audio Samples.broken Samples.word Samples.boot))
  /\
  trace (snd (SpeechApp._process_audio Samples.broken Samples.word
                Samples.boot))
    = [Divide (1 # 2); Infer 0 "/tmp/tmp0.wav";
       Notify "Hata" EmptyString "decode failed"] /\
  title (snd (SpeechApp._process_audio Samples.broken Samples.word
                Samples.boot)) = "🎤".
Proof. vm_compute. repeat split. Qed.

(** ** The configuration file *)

Section JsonRoundTrip.

Import Json.

Lemma append_nil_l (t : string) : EmptyString +:+ t = t.
Proof. reflexivity. Qed.

Lemma append_cons c (s t : string) : String c s +:+ t = String c (s +:+ t).
Proof. reflexivity. Qed.

Lemma append_empty_r (s : string) : s +:+ EmptyString = s.
Proof.
  induction s as [|c s IH]; [reflexivity|].
  rewrite append_cons. f_equal. exact IH.
Qed.

Lemma append_assoc' (a b c : string) : (a +:+ b) +:+ c = a +:+ (b +:+ c).
Proof.
  induction a as [|x a IH]; [reflexivity|].
  rewrite !append_cons. f_equal. exact IH.
Qed.

Lemma snoc_append k c s : snoc k c +:+ s = k +:+ String c s.
Proof. unfold snoc. rewrite append_assoc'. reflexivity. Qed.

Lemma special_cases c :
  special c = true \/
  special c = false /\ Ascii.eqb c dquote = false /\
    Ascii.eqb c backslash = false.
Proof.
  unfold special.
  destruct (Ascii.eqb c dquote); [now left|].
  destruct (Ascii.eqb c backslash); [now left|].
  right. repeat split.
Qed.

Lemma scan_cons st c s : scan st (String c s) = scan (read st c) s.
Proof. reflexivity. Qed.

(** A key is read back up to its closing quote. *)
Lemma scan_key s : forall acc k rest,
  scan (acc, InKey k false) (escape s +:+ String dquote rest)
  = scan (acc, Colon (k +:+ s)) rest.
Proof.
  induction s as [|c s IH]; intros acc k rest.
  - rewrite append_empty_r. reflexivity.
  - cbn [escape].
    destruct (special_cases c) as [Hs|(Hs & Hq & Hb)]; rewrite Hs.
    + rewrite !append_cons, !scan_cons.
      change (read (acc, InKey k false) backslash) with (acc, InKey k true).
      cbn [read]. rewrite Hs, IH, snoc_append. reflexivity.
    + rewrite append_cons, scan_cons.
      cbn [read]. rewrite Hb, Hq, IH, snoc_append. reflexivity.
Qed.

Lemma scan_value s : forall acc k v rest,
  scan (acc, InValue k v false) (escape s +:+ String dquote rest)
  = scan ((k, v +:+ s) :: acc, CommaOrClose) rest.
Proof.
  induction s as [|c s IH]; intros acc k v rest.
  - rewrite append_empty_r. reflexivity.
  - cbn [escape].
    destruct (special_cases c) as [Hs|(Hs & Hq & Hb)]; rewrite Hs.
    + rewrite !append_cons, !scan_cons.
      change (read (acc, InValue k v false) backslash)
        with (acc, InValue k v true).
      cbn [read]. rewrite Hs, IH, snoc_append. reflexivity.
    + rewrite append_cons, scan_cons.
      cbn [read]. rewrite Hb, Hq, IH, snoc_append. reflexivity.
Qed.

(** An entry followed by [rest], as a quote and what follows it. *)
Lemma entry_shape kv rest :
  entry kv +:+ rest =
  String dquote
    (escape (fst kv) +:+ String dquote
       (String ":" (String " " (String dquote
          (escape (snd kv) +:+ String dquote rest))))).
Proof.
  unfold entry, quoted.
  repeat first [rewrite append_assoc' | rewrite append_cons
               | rewrite append_nil_l].
  reflexivity.
Qed.

(** An entry is read back when a key may start. *)
Lemma scan_entry kv acc rest :
  scan (acc, Key) (entry kv +:+ rest) = scan (kv :: acc, CommaOrClose) rest /\
  scan (acc, KeyOrClose) (entry kv +:+ rest)
    = scan (kv :: acc, CommaOrClose) rest.
Proof.
  rewrite entry_shape. destruct kv as [k v]. cbn [fst snd].
  split.
  - rewrite scan_cons.
    change (read (acc, Key) dquote) with (acc, InKey EmptyString false).
    rewrite scan_key, !scan_cons.
    change (read (read (read (acc, Colon (EmptyString +:+ k)) ":") " ") dquote)
      with (acc, InValue (EmptyString +:+ k) EmptyString false).
    rewrite scan_value. reflexivity.
  - rewrite scan_cons.
    change (read (acc, KeyOrClose) dquote) with (acc, InKey EmptyString false).
    rewrite scan_key, !scan_cons.
    change (read (read (read (acc, Colon (EmptyString +:+ k)) ":") " ") dquote)
      with (acc, InValue (EmptyString +:+ k) EmptyString false).
    rewrite scan_value. reflexivity.
Qed.

Lemma scan_more l : forall acc,
  scan (acc, CommaOrClose) (more l) = (rev l ++ acc, Closed).
Proof.
  induction l as [|e l IH]; intros acc.
  - reflexivity.
  - unfold more. cbn [fold_right]. fold (more l).
    rewrite !scan_cons.
    change (read (read (acc, CommaOrClose) ",") " ") with (acc, Key).
    rewrite (proj1 (scan_entry e acc (more l))), IH.
    cbn [rev]. now rewrite <- app_assoc.
Qed.

Lemma join_more e l :
  join ", " (map entry (e :: l)) +:+ "}" = entry e +:+ more l.
Proof.
  revert e. induction l as [|e' l IH]; intros e.
  - reflexivity.
  - change (join ", " (map entry (e :: e' :: l)))
      with (entry e +:+ ", " +:+ join ", " (map entry (e' :: l))).
    rewrite !append_assoc', IH. reflexivity.
Qed.

Lemma scan_dumps l : scan ([], Open) (dumps l) = (rev l, Closed).
Proof.
  unfold dumps. destruct l as [|e l]; [reflexivity|].
  rewrite append_cons, append_nil_l, scan_cons.
  change (read ([], Open) "{") with (@nil (string * string), KeyOrClose).
  rewrite join_more, (proj2 (scan_entry e [] (more l))), scan_more.
  reflexivity.
Qed.

Lemma loads_dump c : loads (dump c) = Ok c.
Proof.
  unfold loads, dump. rewrite scan_dumps. f_equal.
  symmetry. apply list_to_map_flip. apply Permutation_rev.
Qed.

End JsonRoundTrip.

#[export] Instance json_codec : JsonCodec :=
  {| json_dump := Json.dump; json_load := Json.loads;
     json_load_dump := loads_dump |}.

(** C9.  Whatever reader and writer of JSON is used, as long as reading
    what was written gives the object back: saving the configuration
    [{"hotkey": v}] and loading it gives that configuration, whose hotkey
    is [v], for every value [v] and so for each of the recognised ones;
    and loading when the file is absent gives the default hotkey, ctrl. *)
Theorem config_round_trip `{JsonCodec} :
  (forall (v : string) (w : world),
     exists w',
       SpeechApp.save_config {[ "hotkey" := v ]} w = (Ok tt, w') /\
       SpeechApp.load_config w' = (Ok {[ "hotkey" := v ]}, w') /\
       ({[ "hotkey" := v ]} : gmap string string) !! "hotkey" = Some v) /\
  (forall w : world,
     fs w !! SpeechApp.CONFIG_PATH = None ->
     SpeechApp.load_config w = (Ok {[ "hotkey" := "ctrl" ]}, w)).
Proof.
  split.
  - intros v w. eexists. split; [reflexivity|]. split.
    + unfold SpeechApp.load_config, bind, os_path_exists, gets, read_text, lift.
      simpl. rewrite lookup_insert_eq.
      rewrite bool_decide_eq_true_2 by eauto.
      simpl. rewrite lookup_insert_eq, json_load_dump. reflexivity.
    + apply lookup_singleton_eq.
  - intros w Habsent.
    unfold SpeechApp.load_config, bind, os_path_exists, gets, ret.
    rewrite Habsent.
    rewrite bool_decide_eq_false_2; [reflexivity|].
    intros [x Hx]. discriminate.
Qed.

(** With the reader and writer of [Json]: alt is read back, and the
    default is ctrl. *)
Lemma alt_is_read_back :
  SpeechApp.load_config
    (snd (SpeechApp.save_config {[ "hotkey" := "alt" ]} Samples.boot))
  = (Ok {[ "hotkey" := "alt" ]},
     snd (SpeechApp.save_config {[ "hotkey" := "alt" ]} Samples.boot)) /\
  SpeechApp.load_config Samples.boot = (Ok {[ "hotkey" := "ctrl" ]}, Samples.boot).
Proof.
  destruct (@config_round_trip json_codec) as [Hsave Hmissing].
  split.
  - destruct (Hsave "alt" Samples.boot) as (w' & Hs & Hl & _).
    rewrite Hs. exact Hl.
  - apply Hmissing. reflexivity.
Defined.

(** ** The model provider under concurrent callers *)

(** A single caller, seven steps: what it ends with is what [get_model]
    returns in a world where nothing has been built. *)
Lemma single_caller_is_get_model E dir w :
  _model w = None -> constructions w = 0%nat ->
  Threads.threads (Threads.run E (replicate 7 0%nat) (Threads.init 1))
  = [Threads.Finished (fst (get_model E dir w))].
Proof.
  intros Hm Hc.
  unfold get_model, bind, gets, modify, os_makedirs. rewrite Hm.
  destruct (fs w !! dir); simpl; rewrite Hc;
    unfold Threads.run, Threads.init; simpl;
    unfold Threads.step at 6; simpl; unfold Threads.step at 5; simpl;
    unfold Threads.step at 4; simpl; unfold Threads.step at 3; simpl;
    destruct (whisper_init E 0); reflexivity.
Qed.

Section ModelProvider.

Import Threads.

Variable E : env.
Hypothesis first_construction_returns : whisper_init E 0 = None.

Lemma init_ok n : pool_ok (init n).
Proof.
  split.
  - left. split; reflexivity.
  - intros i c Hc. apply lookup_replicate in Hc as [-> _]. exact I.
Qed.

(** A thread outside the critical section does not care who holds the
    lock. *)
Lemma thread_ok_lock_free l l' m b i c :
  thread_ok l m b i c -> l <> Some i -> l' <> Some i ->
  thread_ok l' m b i c.
Proof.
  destruct c; simpl; intros H Hl Hl'; try exact H; tauto.
Qed.

(** While another thread holds the lock and nothing is stored, a thread
    is before the lock, and stays in order whatever is built or stored. *)
Lemma thread_ok_idle j m' b' b i c :
  thread_ok (Some j) None b i c -> i <> j ->
  thread_ok (Some j) m' b' i c.
Proof.
  destruct c; simpl; intros H Hne;
    first [ exact I
          | exfalso; first [ contradiction
                           | decompose [and] H; congruence ] ].
Qed.

Lemma step_ok j p : pool_ok p -> pool_ok (step E j p).
Proof.
  intros [Hphase Ht]. unfold step.
  destruct (threads p !! j) as [c|] eqn:Hj; [|now split].
  pose proof (Ht j c Hj) as Hc.
  destruct c; simpl in Hc.
  - (* the outer test *)
    destruct (model p) as [h|] eqn:Hmod; (split;
      [ destruct Hphase as [[? ?]|[(? & ? & i & Hi)|[? ?]]];
        [ left; now split
        | right; left; repeat split; try assumption; exists i; simpl;
          rewrite list_lookup_insert_ne; [assumption | congruence]
        | right; right; now split ]
      | intros i c Hi; simpl in Hi |- *;
        apply list_lookup_insert_Some in Hi as [(-> & <- & _)|(Hne & Hi)];
        [ | rewrite ?Hmod; now apply Ht ] ]).
    + simpl. destruct Hphase as [[? ?]|[(? & ? & _)|[_ ?]]]; congruence.
    + exact I.
  - (* taking the lock *)
    destruct (lock p) as [k|] eqn:Hl; [split; [assumption|]; now rewrite Hl|].
    split.
    + destruct Hphase as [[? ?]|[(? & ? & i & Hi)|[? ?]]];
        [ left; now split | | right; right; now split ].
      right; left; repeat split; try assumption. exists i. simpl.
      rewrite list_lookup_insert_ne; [assumption | congruence].
    + intros i c Hi; simpl in Hi |- *.
      apply list_lookup_insert_Some in Hi as [(-> & <- & _)|(Hne & Hi)];
        [reflexivity|].
      eapply thread_ok_lock_free; [now apply Ht | discriminate | congruence].
  - (* the inner test *)
    assert (Hnobody : forall i, threads p !! i = Some (AtAssign 0) -> False).
    { intros i Hi. pose proof (Ht i _ Hi) as Hok. simpl in Hok.
      destruct Hok as [Hli _]. rewrite Hc in Hli. inversion Hli; subst i.
      congruence. }
    destruct (model p) as [h|] eqn:Hmod; (split;
      [ destruct Hphase as [[? ?]|[(? & ? & i & Hi)|[? ?]]];
        [ left; now split
        | exfalso; exact (Hnobody i Hi)
        | right; right; now split ]
      | intros i c Hi; simpl in Hi |- *;
        apply list_lookup_insert_Some in Hi as [(-> & <- & _)|(Hne & Hi)];
        [ | rewrite ?Hmod; now apply Ht ] ]).
    + simpl. split; [assumption|].
      destruct Hphase as [[? ?]|[(? & ? & _)|[_ ?]]]; congruence.
    + simpl. split; [assumption|]. split; [first [reflexivity | assumption]|].
      destruct Hphase as [[? ?]|[(? & ? & k & Hk)|[_ ?]]];
        [assumption | exfalso; exact (Hnobody k Hk) | congruence].
  - (* the construction *)
    destruct Hc as (Hl & Hmod & Hb).
    rewrite Hb, first_construction_returns.
    split.
    + right; left. simpl. repeat split; [assumption|].
      exists j. apply list_lookup_insert_eq. now apply lookup_lt_Some in Hj.
    + intros i c Hi; simpl in Hi |- *.
      apply list_lookup_insert_Some in Hi as [(-> & <- & _)|(Hne & Hi)].
      * simpl. repeat split; assumption.
      * rewrite Hl, Hmod. apply (thread_ok_idle j None 1 0); [|congruence].
        rewrite <- Hl, <- Hmod, <- Hb. now apply Ht.
  - (* the assignment *)
    destruct Hc as (Hl & Hmod & Hb & ->).
    split.
    + right; right. simpl. now split.
    + intros i c Hi; simpl in Hi |- *.
      apply list_lookup_insert_Some in Hi as [(-> & <- & _)|(Hne & Hi)].
      * simpl. now split.
      * rewrite Hl. apply (thread_ok_idle j (Some 0) (built p) (built p));
          [|congruence].
        rewrite <- Hl, <- Hmod. now apply Ht.
  - (* leaving the lock *)
    destruct Hc as (Hl & Hmod).
    split.
    + right; right. simpl.
      destruct Hphase as [[? ?]|[(? & ? & _)|[? ?]]]; [congruence..|now split].
    + intros i c Hi; simpl in Hi |- *.
      apply list_lookup_insert_Some in Hi as [(-> & <- & _)|(Hne & Hi)].
      * simpl. assumption.
      * apply (thread_ok_lock_free (Some j)); [|congruence|discriminate].
        rewrite <- Hl. now apply Ht.
  - (* an exception inside the lock: excluded *)
    contradiction.
  - (* the return *)
    split.
    + destruct Hphase as [[? ?]|[(? & ? & i & Hi)|[? ?]]];
        [ left; now split | | right; right; now split ].
      right; left; repeat split; try assumption. exists i. simpl.
      rewrite list_lookup_insert_ne; [assumption | congruence].
    + intros i c Hi; simpl in Hi |- *.
      apply list_lookup_insert_Some in Hi as [(-> & <- & _)|(Hne & Hi)];
        [|now apply Ht].
      simpl. now rewrite Hc.
  - (* finished *)
    now split.
Qed.

Lemma run_ok schedule : forall p, pool_ok p -> pool_ok (run E schedule p).
Proof.
  induction schedule as [|j schedule IH]; intros p Hp; [exact Hp|].
  apply IH. now apply step_ok.
Qed.

Lemma step_length j p : length (threads (step E j p)) = length (threads p).
Proof.
  unfold step.
  destruct (threads p !! j) as [c|]; [|reflexivity].
  destruct c; try destruct (model p); try destruct (lock p); simpl;
    rewrite ?length_insert; reflexivity.
Qed.

Lemma run_length schedule : forall p,
  length (threads (run E schedule p)) = length (threads p).
Proof.
  induction schedule as [|j schedule IH]; intros p; [reflexivity|].
  simpl. rewrite IH. apply step_length.
Qed.

End ModelProvider.

Section RacingCallers.

Import Threads.

Variable E : env.
Hypothesis first_construction_returns : whisper_init E 0 = None.

Lemma insert_middle {A} (l1 l2 : list A) (x y : A) :
  <[length l1 := y]> (l1 ++ x :: l2) = l1 ++ y :: l2.
Proof.
  rewrite <- (Nat.add_0_r (length l1)), insert_app_r. reflexivity.
Qed.

Lemma run_app s1 s2 p : run E (s1 ++ s2) p = run E s2 (run E s1 p).
Proof. unfold run. apply fold_left_app. Qed.

Lemma run_cons j s p : run E (j :: s) p = run E s (step E j p).
Proof. reflexivity. Qed.

(** One step of the thread that comes after [l1]. *)
Ltac step_middle :=
  rewrite run_cons; unfold step at 1; cbn [threads model lock built];
  rewrite list_lookup_middle by reflexivity;
  try unfold goto; cbn [threads model lock built];
  rewrite ?first_construction_returns, ?insert_middle.

(** Every caller finds [_model] empty and goes for the lock. *)
Lemma all_enter m : forall l1,
  run E (seq (length l1) m)
    {| model := None; lock := None; built := 0;
       threads := l1 ++ replicate m AtOuterTest |}
  = {| model := None; lock := None; built := 0;
       threads := l1 ++ replicate m AtAcquire |}.
Proof.
  induction m as [|m IH]; intros l1; [reflexivity|].
  cbn [seq replicate]. step_middle.
  replace (l1 ++ AtAcquire :: replicate m AtOuterTest)
    with ((l1 ++ [AtAcquire]) ++ replicate m AtOuterTest)
    by (now rewrite <- app_assoc).
  replace (S (length l1)) with (length (l1 ++ [AtAcquire]))
    by (rewrite length_app; simpl; lia).
  rewrite IH. now rewrite <- app_assoc.
Qed.

(** The first caller through the lock builds the model. *)
Lemma first_caller_builds l1 l2 :
  run E (replicate 6 (length l1))
    {| model := None; lock := None; built := 0;
       threads := l1 ++ AtAcquire :: l2 |}
  = {| model := Some 0%nat; lock := None; built := 1;
       threads := l1 ++ Finished (Ok (Some 0%nat)) :: l2 |}.
Proof.
  cbn [replicate]. do 6 step_middle. reflexivity.
Qed.

(** A later caller finds it under the lock. *)
Lemma later_caller_finds l1 l2 b :
  run E (replicate 6 (length l1))
    {| model := Some 0%nat; lock := None; built := b;
       threads := l1 ++ AtAcquire :: l2 |}
  = {| model := Some 0%nat; lock := None; built := b;
       threads := l1 ++ Finished (Ok (Some 0%nat)) :: l2 |}.
Proof.
  cbn [replicate]. do 6 step_middle. reflexivity.
Qed.

Lemma later_callers_find m : forall l1 b,
  run E (flat_map (fun i => replicate 6 i) (seq (length l1) m))
    {| model := Some 0%nat; lock := None; built := b;
       threads := l1 ++ replicate m AtAcquire |}
  = {| model := Some 0%nat; lock := None; built := b;
       threads := l1 ++ replicate m (Finished (Ok (Some 0%nat))) |}.
Proof.
  induction m as [|m IH]; intros l1 b; [reflexivity|].
  cbn [seq flat_map]. rewrite run_app.
  change (replicate (S m) AtAcquire) with (AtAcquire :: replicate m AtAcquire).
  rewrite later_caller_finds.
  replace (l1 ++ Finished (Ok (Some 0%nat)) :: replicate m AtAcquire)
    with ((l1 ++ [Finished (Ok (Some 0%nat))]) ++ replicate m AtAcquire)
    by (now rewrite <- app_assoc).
  replace (S (length l1)) with (length (l1 ++ [Finished (Ok (Some 0%nat))]))
    by (rewrite length_app; simpl; lia).
  rewrite IH. now rewrite <- app_assoc.
Qed.

(** When all callers race past the outer test and then take the lock in
    turn, every one of them returns the object the first one built. *)
Lemma racing_callers_all_return n :
  run E (racing n) (init n)
  = {| model := match n with O => None | S _ => Some 0%nat end;
       lock := None;
       built := match n with O => 0 | S _ => 1 end;
       threads := replicate n (Finished (Ok (Some 0%nat))) |}.
Proof.
  unfold racing, init. rewrite run_app.
  pose proof (all_enter n []) as Henter. cbn [length app] in Henter.
  rewrite Henter.
  destruct n as [|n]; [reflexivity|].
  cbn [seq flat_map]. rewrite run_app.
  change (replicate (S n) AtAcquire) with (AtAcquire :: replicate n AtAcquire).
  pose proof (first_caller_builds [] (replicate n AtAcquire)) as Hfirst.
  cbn [length app] in Hfirst. rewrite Hfirst.
  apply (later_callers_find n [Finished (Ok (Some 0%nat))] 1).
Qed.

End RacingCallers.

(** C7, amended.  Provided the first construction of the model does not
    raise: whatever the number of threads that call [get_model] before the
    model exists and however their steps interleave, at most one
    construction is ever made and a caller that has returned has received
    the object of that construction; once all callers have returned
    exactly one construction has been made and all hold that same object;
    and there is an interleaving, with all callers past the outer test
    before any takes the lock, in which all of them return. *)
Theorem one_construction_for_all_callers
    (E : env) (n : nat) (schedule : list nat) :
  whisper_init E 0 = None ->
  (Threads.built (Threads.run E schedule (Threads.init n)) <= 1)%nat /\
  (forall i r,
     Threads.threads (Threads.run E schedule (Threads.init n)) !! i
       = Some (Threads.Finished r) ->
     r = Ok (Some 0%nat)) /\
  (Threads.all_finished (Threads.run E schedule (Threads.init n)) = true ->
   (1 <= n)%nat ->
   Threads.built (Threads.run E schedule (Threads.init n)) = 1%nat /\
   Threads.threads (Threads.run E schedule (Threads.init n))
     = replicate n (Threads.Finished (Ok (Some 0%nat)))) /\
  Threads.all_finished (Threads.run E (Threads.racing n) (Threads.init n))
    = true.
Proof.
  intros Hfirst.
  pose proof (run_ok E Hfirst schedule _ (init_ok n)) as [Hphase Ht].
  pose proof (run_length E schedule (Threads.init n)) as Hlen.
  simpl in Hlen. rewrite length_replicate in Hlen.
  set (p := Threads.run E schedule (Threads.init n)) in *.
  assert (Hret : forall i r,
            Threads.threads p !! i = Some (Threads.Finished r) ->
            r = Ok (Some 0%nat) /\ Threads.model p = Some 0%nat).
  { intros i r Hi. exact (Ht i _ Hi). }
  split; [|split; [|split]].
  - destruct Hphase as [[-> _]|[(-> & _)|[-> _]]]; lia.
  - intros i r Hi. now destruct (Hret i r Hi).
  - intros Hall Hn.
    unfold Threads.all_finished in Hall. rewrite forallb_forall in Hall.
    assert (Hfin : Forall (fun c => Threads.Finished (Ok (Some 0%nat)) = c)
                     (Threads.threads p)).
    { apply Forall_lookup. intros i c Hi.
      assert (Hc : Threads.finished c = true).
      { apply Hall. apply list_elem_of_In. eapply list_elem_of_lookup_2, Hi. }
      destruct c; try discriminate.
      destruct (Hret i r Hi) as [-> _]. reflexivity. }
    split.
    + destruct (lookup_lt_is_Some_2 (Threads.threads p) 0%nat ltac:(lia))
        as [c Hc].
      pose proof (proj1 (Forall_lookup _ _) Hfin 0%nat c Hc) as <-.
      destruct (Hret _ _ Hc) as [_ Hm].
      destruct Hphase as [[_ ?]|[(_ & ? & _)|[? _]]]; congruence.
    + symmetry. apply replicate_as_Forall. now split.
  - rewrite (racing_callers_all_return E Hfirst).
    unfold Threads.all_finished. cbn [Threads.threads].
    apply forallb_forall. intros c Hc.
    apply list_elem_of_In, elem_of_replicate in Hc as [-> _]. reflexivity.
Qed.

(** Three callers, the second of which wins the lock. *)
Lemma one_construction_for_three_callers :
  Threads.built (Threads.run Samples.steady Samples.interleaving
                   (Threads.init 3)) = 1%nat /\
  Threads.threads (Threads.run Samples.steady Samples.interleaving
                     (Threads.init 3))
    = replicate 3 (Threads.Finished (Ok (Some 0%nat))).
Proof.
  destruct (one_construction_for_all_callers Samples.steady 3
              Samples.interleaving) as (_ & _ & Hall & _).
  - reflexivity.
  - apply Hall; [vm_compute; reflexivity | lia].
Defined.

(** C7 as stated fails when the first construction raises: the lock is
    released with [_model] still empty, the next caller through the lock
    builds a second model, and the two callers do not hold the same
    thing. *)
Lemma failed_construction_is_repeated :
  Threads.run Samples.flaky (Threads.racing 2) (Threads.init 2)
  = {| Threads.model := Some 1%nat;
       Threads.lock := None;
       Threads.built := 2;
       Threads.threads :=
         [Threads.Finished (Raise (ExternalError "download failed"));
          Threads.Finished (Ok (Some 1%nat))] |}.
Proof. vm_compute. reflexivity. Qed.

(** * Further properties *)

(** ** The recorder: that it stops *)

Section RecorderMore.

Import Index.

Context {numpy : Numpy}.

Variables max_duration silence_threshold : spec_float.
Variable max_silent : Z.

Local Abbreviation listen' :=
  (listen max_duration silence_threshold max_silent).

(** In lockstep the loop has left by the first block count at which one
    of its tests holds. *)
Lemma listen_lockstep_by blocks : forall st n,
  (1 <= n <= length blocks)%nat ->
  loop_test max_duration max_silent
    (Index.play silence_threshold (firstn n blocks) st) <> None ->
  exists st' r,
    listen' (lockstep blocks) st = (st', Some r) /\
    (length (chunks st) < length (chunks st') <= length (chunks st) + n)%nat.
Proof.
  induction blocks as [|b bs IH]; intros st n Hn Hat; simpl in Hn; [lia|].
  simpl.
  destruct (loop_test max_duration max_silent
              (callback silence_threshold b st)) as [r|] eqn:E.
  - exists (callback silence_threshold b st), r. split; [reflexivity|].
    rewrite callback_chunks, length_app. simpl. lia.
  - destruct n as [|[|n]]; [lia | simpl in Hat; congruence |].
    destruct (IH (callback silence_threshold b st) (S n) ltac:(lia) Hat)
      as (st' & r & Hrun & Hlen).
    exists st', r. split; [exact Hrun|].
    rewrite callback_chunks, length_app in Hlen. simpl in Hlen. lia.
Qed.

End RecorderMore.

(** X3.  When the loop looks after every block, the recording is over by
    the first number of blocks whose duration reaches [max_duration],
    however loud or quiet the blocks are. *)
Theorem ceiling_bounds_the_recording {numpy : Numpy}
    (max_duration silence_threshold silence_duration : spec_float)
    (max_silent : Z) (blocks : list (list Q)) (n : nat) :
  Index.max_silent_of silence_duration = Ok max_silent ->
  (1 <= n <= length blocks)%nat ->
  Index.ceiling_reached max_duration n = true ->
  exists st r,
    Index.listen max_duration silence_threshold max_silent
      (Index.lockstep blocks) Index.start = (st, Some r) /\
    (1 <= length (Index.chunks st) <= n)%nat /\
    Index.record_until_silence max_duration silence_threshold
      silence_duration (Index.lockstep blocks)
    = Index.Returned (concat (Index.chunks st)) 16000.
Proof.
  intros Hms Hn Hceil.
  destruct (listen_lockstep_by max_duration silence_threshold max_silent
              blocks Index.start n Hn) as (st & r & Hrun & Hlen).
  - unfold Index.loop_test.
    rewrite play_chunks. simpl. rewrite length_take.
    replace (n `min` length blocks)%nat with n by lia.
    rewrite Hceil. destruct (_ && _); discriminate.
  - exists st, r. simpl in Hlen. split; [exact Hrun|]. split; [lia|].
    unfold Index.record_until_silence. rewrite Hms, Hrun.
    unfold np_concatenate.
    destruct (Index.chunks st); [simpl in Hlen; lia | reflexivity].
Qed.

(** With the defaults no recording goes beyond 300 blocks, thirty
    seconds, even when every block is loud. *)
Lemma default_ceiling_is_thirty_seconds :
  exists st r,
    Index.listen (numpy := exact_arithmetic) F64.c30 F64.c0_01 15
      (Index.lockstep (repeat Samples.tone 320)) Index.start = (st, Some r) /\
    (1 <= length (Index.chunks st) <= 300)%nat.
Proof.
  destruct (ceiling_bounds_the_recording (numpy := exact_arithmetic)
              F64.c30 F64.c0_01 F64.c1_5 15
              (repeat Samples.tone 320) 300) as (st & r & Hrun & Hlen & _).
  - reflexivity.
  - rewrite repeat_length. lia.
  - vm_compute. reflexivity.
  - exists st, r. split; [exact Hrun | exact Hlen].
Defined.

(** ** The recorder, one access at a time *)

Section RecorderSteps.

Import Stream.

Context {numpy : Numpy}.

Variables max_duration silence_threshold : spec_float.
Variable max_silent : Z.

Local Abbreviation step' := (step max_duration silence_threshold max_silent).
Local Abbreviation play' := (play max_duration silence_threshold max_silent).

Lemma steps_snoc run m s : play' (run ++ [m]) s = step' (play' run s) m.
Proof. unfold play. now rewrite fold_left_app. Qed.

Lemma steps_app run run' s : play' (run ++ run') s = play' run' (play' run s).
Proof. unfold play. apply fold_left_app. Qed.

Lemma audio_step_chunks s :
  Index.chunks (vars (audio_step s)) = Index.chunks (vars s).
Proof. unfold audio_step. now destruct (audio s) as [|[]|]. Qed.

Lemma audio_step_loop s : loop (audio_step s) = loop s.
Proof. unfold audio_step. now destruct (audio s) as [|[]|]. Qed.

Lemma loop_step_vars s :
  vars (loop_step max_duration max_silent s) = vars s /\
  audio (loop_step max_duration max_silent s) = audio s.
Proof.
  unfold loop_step.
  destruct (loop s); repeat (destruct (_ : bool)); now split.
Qed.

(** A step appends the block that arrives and nothing else. *)
Lemma step_chunks s m :
  Index.chunks (vars (step' s m)) = Index.chunks (vars s) ++ arrived [m].
Proof.
  destruct m as [b| |]; simpl.
  - now rewrite !audio_step_chunks.
  - now rewrite audio_step_chunks, app_nil_r.
  - now rewrite (proj1 (loop_step_vars s)), app_nil_r.
Qed.

Lemma arrived_app run run' : arrived (run ++ run') = arrived run ++ arrived run'.
Proof. unfold arrived. apply flat_map_app. Qed.

Lemma steps_chunks_arrived run : forall s,
  Index.chunks (vars (play' run s)) = Index.chunks (vars s) ++ arrived run.
Proof.
  induction run as [|m run IH]; intros s; simpl.
  - now rewrite app_nil_r.
  - change (fold_left step' run (step' s m)) with (play' run (step' s m)).
    rewrite IH, step_chunks. simpl. now rewrite app_nil_r, <- app_assoc.
Qed.

(** Once the loop has left it stays where it is. *)
Lemma step_left s m : left s = true -> loop (step' s m) = loop s.
Proof.
  unfold left. intros H. destruct m as [b| |]; simpl.
  - now rewrite !audio_step_loop.
  - apply audio_step_loop.
  - unfold loop_step. destruct (loop s) eqn:E; try discriminate. exact E.
Qed.

Lemma steps_left run : forall s, left s = true -> loop (play' run s) = loop s.
Proof.
  induction run as [|m run IH]; intros s H; simpl; [reflexivity|].
  change (fold_left step' run (step' s m)) with (play' run (step' s m)).
  pose proof (step_left s m H) as Hs.
  rewrite IH; [exact Hs|]. unfold left in *. now rewrite Hs.
Qed.

Lemma counted_snoc recorded silent q :
  counted silence_threshold recorded silent ->
  Index.loud silence_threshold q = false ->
  counted silence_threshold (recorded ++ [q]) (silent + 1).
Proof.
  intros (pre & b & post & -> & Hb & Hq & ->) Hquiet.
  exists pre, b, (post ++ [q]). split; [now rewrite <- app_assoc|].
  split; [assumption|]. split.
  - apply Forall_app. split; [assumption|]. now repeat constructor.
  - rewrite length_app. simpl. lia.
Qed.

Lemma counted_loud recorded b :
  Index.loud silence_threshold b = true ->
  counted silence_threshold (recorded ++ [b]) 0.
Proof.
  intros Hb. exists recorded, b, []. repeat split; [assumption | constructor].
Qed.

Lemma recorder_sound_start : sound silence_threshold start.
Proof. split; [discriminate | reflexivity]. Qed.

Lemma audio_step_sound s :
  sound silence_threshold s -> sound silence_threshold (audio_step s).
Proof.
  intros [Hl Ha]. unfold sound, audio_step in *.
  destruct (audio s) as [|[]|] eqn:Ea; simpl.
  - rewrite Ea. split; assumption.
  - destruct Ha as (before & b & Hc & Hb & Hs).
    split; [reflexivity|]. split; [reflexivity|].
    exists before, b. split; [assumption|]. split; [assumption|].
    unfold settled in Hs.
    destruct (Index.speaking_started (vars s)); [now right | now left].
  - destruct Ha as (before & b & Hc & Hb & Hs).
    split; [exact Hl|]. unfold settled in *.
    destruct (Index.speaking_started (vars s)).
    + rewrite Hc. now apply counted_snoc.
    + exact Hs.
  - destruct Ha as (Hst & before & b & Hc & Hb & _).
    split; [exact Hl|]. unfold settled. rewrite Hst, Hc.
    now apply counted_loud.
Qed.

Lemma audio_step_twice_idle s : audio (audio_step (audio_step s)) = Idle.
Proof.
  destruct (audio s) as [|[]|] eqn:Ea; unfold audio_step; rewrite Ea; simpl;
    rewrite ?Ea; reflexivity.
Qed.

Lemma audio_step_started s :
  Index.speaking_started (vars s) = true ->
  Index.speaking_started (vars (audio_step s)) = true.
Proof. unfold audio_step. intros H; now destruct (audio s) as [|[]|]. Qed.

Lemma move_sound s m :
  sound silence_threshold s -> sound silence_threshold (step' s m).
Proof.
  intros Hs. destruct m as [b| |]; simpl.
  - pose proof (audio_step_sound _ (audio_step_sound _ Hs)) as [Hl Ha].
    rewrite audio_step_twice_idle in Ha.
    unfold arrive, sound. simpl. split; [exact Hl|].
    exists (Index.chunks (vars (audio_step (audio_step s)))), b.
    split; [reflexivity|]. split; [reflexivity | exact Ha].
  - now apply audio_step_sound.
  - destruct Hs as [Hl Ha]. unfold sound.
    destruct (loop_step_vars s) as [Hv Hau]. rewrite Hv, Hau.
    split; [|exact Ha].
    unfold loop_step.
    destruct (loop s) eqn:El; simpl.
    + destruct (Index.speaking_started (vars s)) eqn:Es; simpl;
        [now intros _ | discriminate].
    + destruct (_ <=? _)%Z; simpl; discriminate.
    + destruct (Index.ceiling_reached _ _); simpl; discriminate.
    + rewrite El. discriminate.
Qed.

Lemma steps_sound run : forall s,
  sound silence_threshold s -> sound silence_threshold (play' run s).
Proof.
  induction run as [|m run IH]; intros s Hs; simpl; [assumption|].
  apply IH. now apply move_sound.
Qed.

(** Once speech has started the recording is: some blocks, a block above
    the threshold, the blocks at or below it that [silent_chunks] counts,
    and the block of a callback that has yet to touch the counters, if
    there is one. *)
Lemma sound_started s :
  sound silence_threshold s ->
  Index.speaking_started (vars s) = true ->
  exists pre b post tail,
    Index.chunks (vars s) = pre ++ b :: post ++ tail /\
    Index.loud silence_threshold b = true /\
    Forall (fun q => Index.loud silence_threshold q = false) post /\
    Index.silent_chunks (vars s) = Z.of_nat (length post) /\
    (length tail <= 1)%nat.
Proof.
  intros [_ Ha] Hst. unfold settled in Ha. rewrite Hst in Ha.
  destruct (audio s) as [|above|].
  - destruct Ha as (pre & b & post & Hc & Hb & Hq & Hn).
    exists pre, b, post, []. rewrite app_nil_r. repeat split; auto.
  - destruct Ha as (before & x & Hc & _ & pre & b & post & -> & Hb & Hq & Hn).
    exists pre, b, post, [x]. rewrite Hc, <- app_assoc. repeat split; auto.
  - destruct Ha as (_ & before & x & Hc & Hx & [Hz|Hcount]).
    + exists before, x, [], []. rewrite Hc. repeat split; auto.
    + destruct Hcount as (pre & b & post & -> & Hb & Hq & Hn).
      exists pre, b, post, [x]. rewrite Hc, <- app_assoc. repeat split; auto.
Qed.

(** With a ceiling above zero the loop has not left before a block has
    arrived. *)
Lemma step_left_nonempty s m :
  F64.le max_duration (F64.of_Z 0) = false ->
  sound silence_threshold s ->
  (left s = true -> Index.chunks (vars s) <> []) ->
  left (step' s m) = true -> Index.chunks (vars (step' s m)) <> [].
Proof.
  intros Hpos Hs Hinv Hleft.
  assert (Hgrow : Index.chunks (vars s) <> [] ->
            Index.chunks (vars (step' s m)) <> []).
  { rewrite step_chunks. intros Hne Happ. apply app_eq_nil in Happ.
    now destruct Happ. }
  destruct (left s) eqn:El; [now apply Hgrow, Hinv|].
  destruct m as [b| |]; unfold left in *; simpl in Hleft.
  - rewrite !audio_step_loop in Hleft. rewrite Hleft in El. discriminate.
  - rewrite audio_step_loop in Hleft. rewrite Hleft in El. discriminate.
  - apply Hgrow. unfold loop_step in Hleft.
    destruct (loop s) eqn:Ep; try discriminate.
    + destruct (Index.speaking_started (vars s)); discriminate.
    + destruct (sound_started s Hs (proj1 Hs Ep))
        as (pre & b & post & tail & Hc & _).
      rewrite Hc. now destruct pre.
    + destruct (Index.ceiling_reached max_duration
                  (length (Index.chunks (vars s)))) eqn:Ec;
        simpl in Hleft; [|discriminate].
      intros Hnil. rewrite Hnil in Ec. simpl in Ec.
      rewrite ceiling_at_zero, Hpos in Ec. discriminate.
Qed.

Lemma steps_left_nonempty run :
  F64.le max_duration (F64.of_Z 0) = false ->
  left (play' run start) = true ->
  Index.chunks (vars (play' run start)) <> [].
Proof.
  intros Hpos.
  induction run as [|m run IH] using rev_ind; [discriminate|].
  rewrite steps_snoc. apply step_left_nonempty; [assumption| |assumption].
  apply steps_sound, recorder_sound_start.
Qed.

(** A callback of [Index.listen] is a block that arrives and the two
    steps of the audio thread that follow with no read of the loop in
    between; a turn of its loop is two or three reads with no step of the
    audio thread in between. *)
Lemma callback_is_played b st l :
  play' [Arrive b; Audio_moves; Audio_moves]
    {| vars := st; audio := Idle; loop := l |}
  = {| vars := Index.callback silence_threshold b st;
       audio := Idle; loop := l |}.
Proof.
  unfold play. simpl. unfold arrive, Index.callback, Index.loud. simpl.
  destruct (exceeds _ _); [reflexivity|].
  destruct (Index.speaking_started st) eqn:Es; unfold audio_step; simpl;
    rewrite ?Es; reflexivity.
Qed.

Lemma turn_is_played st :
  exists n,
    play' (repeat Loop_moves n)
      {| vars := st; audio := Idle; loop := AtLine63 |}
    = {| vars := st; audio := Idle;
         loop := match Index.loop_test max_duration max_silent st with
                 | Some r => Left r
                 | None => AtLine63
                 end |}.
Proof.
  unfold Index.loop_test.
  destruct (Index.speaking_started st) eqn:Es; simpl.
  - destruct (max_silent <=? Index.silent_chunks st)%Z eqn:Em; simpl.
    + exists 2%nat. unfold play. simpl. unfold loop_step, goto. simpl.
      rewrite Es. simpl. now rewrite Em.
    + exists 3%nat. unfold play. simpl. unfold loop_step, goto. simpl.
      rewrite Es. simpl. rewrite Em. simpl.
      now destruct (Index.ceiling_reached _ _).
  - exists 2%nat. unfold play. simpl. unfold loop_step, goto. simpl.
    rewrite Es. simpl. now destruct (Index.ceiling_reached _ _).
Qed.

(** Every run of [Index.listen] is one of the runs taken here. *)
Lemma listen_is_played run : forall st,
  exists moves,
    play' moves {| vars := st; audio := Idle; loop := AtLine63 |}
    = {| vars := fst (Index.listen max_duration silence_threshold max_silent
                        run st);
         audio := Idle;
         loop := match snd (Index.listen max_duration silence_threshold
                              max_silent run st) with
                 | Some r => Left r
                 | None => AtLine63
                 end |}.
Proof.
  induction run as [|ev run IH]; intros st.
  - now exists [].
  - destruct ev as [b|]; simpl.
    + destruct (IH (Index.callback silence_threshold b st)) as (moves & Hm).
      exists ([Arrive b; Audio_moves; Audio_moves] ++ moves).
      now rewrite steps_app, callback_is_played.
    + destruct (turn_is_played st) as (n & Hn).
      destruct (Index.loop_test max_duration max_silent st) as [r|].
      * now exists (repeat Loop_moves n).
      * destruct (IH st) as (moves & Hm).
        exists (repeat Loop_moves n ++ moves).
        now rewrite steps_app, Hn.
Qed.

End RecorderSteps.

(** X1.  Whatever the order in which the two threads make their steps,
    the recorder keeps every block the stream delivers before it is
    closed, those that come after the [break] included, in the order of
    delivery, and nothing else: once the loop has left, the call returns
    those blocks put end to end, and with a ceiling above zero there is
    at least one. *)
Theorem recorder_keeps_every_block {numpy : Numpy}
    (max_duration silence_threshold silence_duration : spec_float)
    (max_silent : Z) (run : list Stream.move) :
  Index.max_silent_of silence_duration = Ok max_silent ->
  let s := Stream.play max_duration silence_threshold max_silent run
             Stream.start in
  Index.chunks (Stream.vars s) = Stream.arrived run /\
  (Stream.left s = false ->
   Stream.record_until_silence max_duration silence_threshold
     silence_duration run = Index.Recording (Stream.vars s)) /\
  (Stream.left s = true ->
   (Stream.arrived run <> [] ->
    Stream.record_until_silence max_duration silence_threshold
      silence_duration run
    = Index.Returned (concat (Stream.arrived run)) 16000) /\
   (F64.le max_duration (F64.of_Z 0) = false -> Stream.arrived run <> [])).
Proof.
  intros Hms s.
  assert (Hc : Index.chunks (Stream.vars s) = Stream.arrived run)
    by (unfold s; now rewrite steps_chunks_arrived).
  split; [exact Hc|].
  unfold Stream.record_until_silence. rewrite Hms. fold s.
  split.
  - now intros ->.
  - intros Hleft. rewrite Hleft, Hc. split.
    + intros Hne. unfold np_concatenate.
      destruct (Stream.arrived run); [congruence | reflexivity].
    + intros Hpos. rewrite <- Hc.
      now apply steps_left_nonempty.
Qed.

(** A block, the loop through its two tests with a ceiling of one block,
    and a block that arrives after the [break]: both are returned. *)
Lemma recorder_keeps_the_late_block :
  Stream.record_until_silence (numpy := exact_arithmetic)
    (F64.mul (F64.of_Z 1) F64.c0_1) F64.c0_01 F64.c1_5
    [Stream.Arrive [1%Q]; Stream.Loop_moves; Stream.Loop_moves;
     Stream.Arrive [0%Q]]
  = Index.Returned [1%Q; 0%Q] 16000.
Proof.
  destruct (recorder_keeps_every_block (numpy := exact_arithmetic)
              (F64.mul (F64.of_Z 1) F64.c0_1) F64.c0_01 F64.c1_5 15
              [Stream.Arrive [1%Q]; Stream.Loop_moves;
               Stream.Loop_moves; Stream.Arrive [0%Q]] eq_refl)
    as (_ & _ & Hleft).
  destruct (Hleft eq_refl) as [Hret _].
  apply Hret. discriminate.
Defined.

(** X2.  Whatever the order in which the two threads make their steps,
    when the loop leaves through the silence test the blocks recorded at
    that moment are: some blocks, a block above the threshold, at least
    [max_silent] blocks at or below it, and at most one block more, whose
    callback has yet to touch the counters; what the stream delivers
    from then on is appended. *)
Theorem silence_end_follows_speech {numpy : Numpy}
    (max_duration silence_threshold : spec_float) (max_silent : Z)
    (before after : list Stream.move) :
  Stream.left (Stream.play max_duration silence_threshold max_silent
                   before Stream.start) = false ->
  Stream.loop (Stream.play max_duration silence_threshold max_silent
                   (before ++ [Stream.Loop_moves]) Stream.start)
    = Stream.Left Index.ENDED_SILENCE ->
  (exists pre b post tail,
     Stream.arrived before = pre ++ b :: post ++ tail /\
     Index.loud silence_threshold b = true /\
     Forall (fun q => Index.loud silence_threshold q = false) post /\
     (max_silent <= Z.of_nat (length post))%Z /\
     (length tail <= 1)%nat) /\
  Stream.loop (Stream.play max_duration silence_threshold max_silent
                   (before ++ Stream.Loop_moves :: after) Stream.start)
    = Stream.Left Index.ENDED_SILENCE /\
  Index.chunks
    (Stream.vars (Stream.play max_duration silence_threshold max_silent
                      (before ++ Stream.Loop_moves :: after) Stream.start))
    = Stream.arrived before ++ Stream.arrived after.
Proof.
  intros Hgoing Hleaves.
  set (s := Stream.play max_duration silence_threshold max_silent before
              Stream.start) in *.
  assert (Hs : Stream.sound silence_threshold s)
    by apply steps_sound, recorder_sound_start.
  rewrite steps_snoc in Hleaves. fold s in Hleaves. simpl in Hleaves.
  split; [|split].
  - unfold Stream.loop_step, Stream.left in *.
    destruct (Stream.loop s) eqn:Ep; try discriminate.
    + destruct (Index.speaking_started (Stream.vars s)); discriminate.
    + destruct (Z.leb_spec max_silent
                  (Index.silent_chunks (Stream.vars s))) as [Hle|Hlt];
        [|discriminate].
      destruct (sound_started silence_threshold s Hs (proj1 Hs Ep))
        as (pre & b & post & tail & Hc & Hb & Hq & Hn & Ht).
      exists pre, b, post, tail.
      unfold s in Hc. rewrite steps_chunks_arrived in Hc. simpl in Hc.
      repeat split; try assumption. lia.
    + destruct (Index.ceiling_reached _ _); discriminate.
  - change (before ++ Stream.Loop_moves :: after)
      with (before ++ [Stream.Loop_moves] ++ after).
    rewrite app_assoc, steps_app, steps_left; [|unfold Stream.left];
      rewrite steps_snoc; fold s; simpl; now rewrite Hleaves.
  - rewrite steps_chunks_arrived, arrived_app. reflexivity.
Qed.

(** A loud block and two quiet ones, then the loop reads
    [speaking_started], a loud block arrives, and the loop reads
    [silent_chunks], still 2: with [max_silent = 2] it leaves by
    silence, and the recording ends with the loud block. *)
Lemma silence_end_with_a_loud_block_in_flight :
  exists pre b post tail,
    [[1%Q]; [0%Q]; [0%Q]; [1%Q]] = pre ++ b :: post ++ tail /\
    Index.loud (numpy := exact_arithmetic) F64.c0_01 b = true /\
    (2 <= Z.of_nat (length post))%Z.
Proof.
  destruct (silence_end_follows_speech (numpy := exact_arithmetic)
              F64.c30 F64.c0_01 2
              [Stream.Arrive [1%Q]; Stream.Arrive [0%Q];
               Stream.Arrive [0%Q]; Stream.Audio_moves;
               Stream.Loop_moves; Stream.Arrive [1%Q]]
              [] eq_refl eq_refl)
    as ((pre & b & post & tail & Hsplit & Hloud & _ & Hlen & _) & _).
  exists pre, b, post, tail.
  split; [exact Hsplit|]. split; [exact Hloud | exact Hlen].
Defined.

(** ** The transcribers: what they leave behind *)

(** Case analysis on everything a run of the transcriber depends on. *)
Ltac inner_case :=
  match goal with
  | |- context [match ?x with _ => _ end] =>
      lazymatch x with
      | context [match _ with _ => _ end] => fail
      | _ => destruct x eqn:?
      end
  end.

Ltac run_cases :=
  repeat (unfold bind, ret, raise, lift, gets, modify, try_finally,
            try_except;
          cbn [fst snd fs next_tmp _model constructions title status config
               trace set_fs set_next_tmp set_model set_constructions
               set_title set_status emit];
          inner_case).

(** What the part of both transcribers after the test for the empty
    buffer does to the world, whatever the buffer and the model. *)
Lemma transcriber_frame E dir audio rate w :
  let w' := snd ((temp_path <- NamedTemporaryFile ".wav" ;;
                  audio_data <- normalize audio ;;
                  wavfile_write temp_path rate (quantize audio_data) ;;;
                  run_model E dir temp_path) w) in
  title w' = title w /\ status w' = status w /\ config w' = config w /\
  next_tmp w' = S (next_tmp w) /\
  (forall p, p <> temp_name ".wav" w -> p <> dir -> fs w' !! p = fs w !! p) /\
  (forall h, _model w = Some h ->
     _model w' = Some h /\ constructions w' = constructions w) /\
  (constructions w <= constructions w' <= S (constructions w))%nat.
Proof.
  unfold NamedTemporaryFile, normalize, np_divide, wavfile_write, run_model,
    get_model, model_transcribe, os_makedirs, os_unlink.
  cbv zeta.
  run_cases; simpl;
    (split; [reflexivity|]); (split; [reflexivity|]);
    (split; [reflexivity|]); (split; [reflexivity|]);
    (split; [intros p Hp Hd;
             rewrite ?lookup_delete_ne, ?lookup_insert_ne by congruence;
             reflexivity|]);
    (split; [intros h0 Hh;
             first [congruence | split; first [congruence | reflexivity]]
            | lia]).
Qed.

(** For a buffer that has a peak the temporary file is gone at the end,
    whatever the model does. *)
Lemma transcriber_removes_file E dir audio rate w :
  audio <> [] ->
  fs (snd ((temp_path <- NamedTemporaryFile ".wav" ;;
            audio_data <- normalize audio ;;
            wavfile_write temp_path rate (quantize audio_data) ;;;
            run_model E dir temp_path) w)) !! temp_name ".wav" w = None.
Proof.
  intros Hne. destruct (loaded_model E w) as [h|e] eqn:Hload.
  - destruct (transcriber_outcome E dir audio rate w h Hne Hload)
      as (w' & -> & Hgone & _). exact Hgone.
  - destruct (nonempty_has_peak audio Hne) as [m Hmax].
    destruct (transcriber_enters_try E dir audio rate w m Hmax)
      as (w3 & -> & Hfile & Hmod & Hcons).
    assert (Hload3 : loaded_model E w3 = Raise e)
      by (unfold loaded_model in *; now rewrite Hmod, Hcons).
    destruct (run_model_load_failure E dir _ w3 e _ _ Hload3 Hfile)
      as (w' & -> & Hgone & _). exact Hgone.
Qed.

(** At the end the file system differs from the one at the start in the
    models directory at most, when the temporary name was free. *)
Lemma transcriber_spares_paths E dir audio rate w :
  audio <> [] ->
  fs w !! temp_name ".wav" w = None ->
  forall p, p <> dir ->
    fs (snd ((temp_path <- NamedTemporaryFile ".wav" ;;
              audio_data <- normalize audio ;;
              wavfile_write temp_path rate (quantize audio_data) ;;;
              run_model E dir temp_path) w)) !! p = fs w !! p.
Proof.
  intros Hne Hfree p Hp.
  destruct (decide (p = temp_name ".wav" w)) as [->|Hneq].
  - rewrite Hfree. now apply transcriber_removes_file.
  - now apply (transcriber_frame E dir audio rate w).
Qed.

(** X6.  A transcription of a non-empty buffer leaves the file system as
    it found it, but for the models directory: the temporary file, made
    under a name that was free, is gone again whether the model answered,
    raised or could not be built, and no other path is touched. *)
Theorem transcription_leaves_no_file
    (E : env) (audio : list Q) (rate : Z) (w : world) :
  audio <> [] ->
  fs w !! temp_name ".wav" w = None ->
  (forall p, p <> Index.models_dir ->
     fs (snd (Index.transcribe E audio rate w)) !! p = fs w !! p) /\
  (forall p, p <> SpeechApp.models_dir ->
     fs (snd (SpeechApp.transcribe_audio E audio rate w)) !! p = fs w !! p).
Proof.
  intros Hne Hfree. split; intros p Hp.
  - now apply (transcriber_spares_paths E Index.models_dir).
  - rewrite (transcribe_audio_nonempty E audio rate w Hne).
    now apply (transcriber_spares_paths E SpeechApp.models_dir).
Qed.

(** X7.  Once the model is loaded the transcribers neither build another
    one nor replace it; in any case a transcription makes at most one
    construction. *)
Theorem loaded_model_is_kept
    (E : env) (audio : list Q) (rate : Z) (w : world) (h : nat) :
  _model w = Some h ->
  (_model (snd (Index.transcribe E audio rate w)) = Some h /\
   constructions (snd (Index.transcribe E audio rate w)) = constructions w) /\
  (_model (snd (SpeechApp.transcribe_audio E audio rate w)) = Some h /\
   constructions (snd (SpeechApp.transcribe_audio E audio rate w))
     = constructions w).
Proof.
  intros Hm. split.
  - now apply (transcriber_frame E Index.models_dir audio rate w).
  - destruct audio as [|x xs]; [now split|].
    rewrite (transcribe_audio_nonempty E (x :: xs) rate w) by discriminate.
    now apply (transcriber_frame E SpeechApp.models_dir (x :: xs) rate w).
Qed.

(** A transcription of a non-empty buffer, on this world the model loaded,
    and one with the model kept from an earlier call. *)
Lemma transcription_spares_the_configuration :
  fs (snd (Index.transcribe Samples.steady Samples.word 16000 Samples.boot))
    !! SpeechApp.CONFIG_PATH = None.
Proof.
  destruct (transcription_leaves_no_file Samples.steady Samples.word 16000
              Samples.boot) as [Hcli _].
  - intros H. apply (f_equal (@length Q)) in H. vm_compute in H. discriminate.
  - reflexivity.
  - rewrite (Hcli SpeechApp.CONFIG_PATH); [reflexivity|].
    vm_compute. discriminate.
Defined.

Lemma loaded_model_survives_a_failing_constructor :
  _model (snd (Index.transcribe Samples.flaky Samples.word 16000
                 (set_model (Some 7%nat) Samples.boot))) = Some 7%nat /\
  constructions (snd (Index.transcribe Samples.flaky Samples.word 16000
                        (set_model (Some 7%nat) Samples.boot))) = 0%nat.
Proof.
  destruct (loaded_model_is_kept Samples.flaky Samples.word 16000
              (set_model (Some 7%nat) Samples.boot) 7) as [Hcli _].
  - reflexivity.
  - exact Hcli.
Defined.

(** ** The daemon's per-utterance step, in general *)

(** The transcribers deliver nothing themselves. *)
Lemma transcriber_delivers_nothing E dir audio rate w :
  delivered (snd ((temp_path <- NamedTemporaryFile ".wav" ;;
                   audio_data <- normalize audio ;;
                   wavfile_write temp_path rate (quantize audio_data) ;;;
                   run_model E dir temp_path) w)) = delivered w.
Proof.
  unfold delivered, NamedTemporaryFile, normalize, np_divide, wavfile_write,
    run_model, get_model, model_transcribe, os_makedirs, os_unlink.
  cbv zeta.
  run_cases; simpl; rewrite ?List.filter_app; simpl; rewrite ?app_nil_r;
    reflexivity.
Qed.

Lemma transcribe_audio_frame E audio rate w :
  let w' := snd (SpeechApp.transcribe_audio E audio rate w) in
  title w' = title w /\ status w' = status w /\ config w' = config w /\
  delivered w' = delivered w.
Proof.
  destruct audio as [|x xs]; [now repeat split|].
  cbv zeta. rewrite (transcribe_audio_nonempty E (x :: xs) rate w) by discriminate.
  destruct (transcriber_frame E SpeechApp.models_dir (x :: xs) rate w)
    as (Ht & Hs & Hc & _).
  repeat split; try assumption. apply transcriber_delivers_nothing.
Qed.

Lemma show_ready_with_hotkey w hotkey :
  config w !! "hotkey" = Some hotkey ->
  SpeechApp.show_ready w =
    (Ok tt, set_status ("Durum: Hazır (" +:+ hotkey +:+ " tuşu)")
              (set_title "🎤" w)).
Proof.
  intros Hk. unfold SpeechApp.show_ready, bind, modify, SpeechApp.config_hotkey.
  simpl. now rewrite Hk.
Qed.

Lemma show_ready_without_hotkey w :
  config w !! "hotkey" = None ->
  SpeechApp.show_ready w = (Raise (KeyError "hotkey"), set_title "🎤" w).
Proof.
  intros Hk. unfold SpeechApp.show_ready, bind, modify, SpeechApp.config_hotkey.
  simpl. now rewrite Hk.
Qed.

(** The guarded part of [_process_audio] (lines 237-250) returns whatever
    happens inside, and keeps the configuration. *)
Lemma guarded_part_returns E audio w :
  exists w1,
    try_except
      (if SpeechApp.too_short (length audio) then SpeechApp.show_ready
       else
         text <- SpeechApp.transcribe_audio E audio SpeechApp._sample_rate ;;
         if nonempty text then
           SpeechApp.paste_text text ;;;
           modify (emit (Notify "Speech to Text" EmptyString
                           (SpeechApp.preview text)))
         else ret tt)
      (fun e => modify (emit (Notify "Hata" EmptyString (exn_str e)))) w
    = (Ok tt, w1) /\ config w1 = config w.
Proof.
  unfold try_except.
  destruct (SpeechApp.too_short (length audio)).
  - destruct (config w !! "hotkey") as [hk|] eqn:Hk.
    + rewrite (show_ready_with_hotkey w hk Hk). eauto.
    + rewrite (show_ready_without_hotkey w Hk). unfold modify. eauto.
  - unfold bind at 1.
    destruct (transcribe_audio_frame E audio SpeechApp._sample_rate w)
      as (_ & _ & Hc & _).
    destruct (SpeechApp.transcribe_audio E audio SpeechApp._sample_rate w)
      as [[text|e] w1]; simpl in Hc.
    + destruct text as [|c text]; simpl; unfold ret, modify, bind; simpl; eauto.
    + unfold modify. eauto.
Qed.

(** X8.  With a hotkey configured, [_process_audio] never raises, whatever
    the buffer and whatever faster_whisper does, and it always leaves the
    indicator at ready and the configuration as it was. *)
Theorem process_audio_always_returns_to_ready
    (E : env) (audio : list Q) (w : world) (hotkey : string) :
  config w !! "hotkey" = Some hotkey ->
  exists w',
    SpeechApp._process_audio E audio w = (Ok tt, w') /\
    title w' = "🎤" /\
    status w' = "Durum: Hazır (" +:+ hotkey +:+ " tuşu)" /\
    config w' = config w.
Proof.
  intros Hk. unfold SpeechApp._process_audio, try_finally.
  destruct (guarded_part_returns E audio w) as (w1 & -> & Hc).
  rewrite (show_ready_with_hotkey w1 hotkey) by now rewrite Hc.
  eexists. split; [reflexivity|]. repeat split. exact Hc.
Qed.

(** The model raises on one second of audio: the step returns all the
    same, with the indicator at ready. *)
Lemma model_error_returns_to_ready :
  exists w',
    SpeechApp._process_audio Samples.broken Samples.word Samples.boot
      = (Ok tt, w') /\
    title w' = "🎤" /\ status w' = "Durum: Hazır (ctrl tuşu)".
Proof.
  destruct (process_audio_always_returns_to_ready Samples.broken Samples.word
              Samples.boot "ctrl") as (w' & Hrun & Ht & Hs & _).
  - reflexivity.
  - exists w'. split; [exact Hrun|]. split; [exact Ht | exact Hs].
Defined.

Lemma try_finally_snd {A} (body : M A) (cleanup : M unit) w :
  snd (try_finally body cleanup w) = snd (cleanup (snd (body w))).
Proof.
  unfold try_finally. destruct (body w) as [r w1]. simpl.
  now destruct (cleanup w1) as [[[]|e] w2].
Qed.

Lemma show_ready_delivers_nothing w :
  delivered (snd (SpeechApp.show_ready w)) = delivered w.
Proof.
  destruct (config w !! "hotkey") as [hk|] eqn:Hk.
  - now rewrite (show_ready_with_hotkey w hk Hk).
  - now rewrite (show_ready_without_hotkey w Hk).
Qed.

Lemma too_short_empty : SpeechApp.too_short 0 = true.
Proof. vm_compute. reflexivity. Qed.

(** X9.  What the user gets from a recording that is long enough is
    decided by the transcriber alone: a text that is not empty is put on
    the clipboard, pasted and shown, once and in that order; an empty text
    produces nothing; an exception produces one notification titled
    "Hata" that carries its message, and nothing is pasted. *)
Theorem process_audio_delivers
    (E : env) (audio : list Q) (w : world) :
  SpeechApp.too_short (length audio) = false ->
  delivered (snd (SpeechApp._process_audio E audio w)) =
    delivered w ++
    match fst (SpeechApp.transcribe_audio E audio SpeechApp._sample_rate w) with
    | Ok text =>
        if nonempty text then
          [Pbcopy text; Osascript;
           Notify "Speech to Text" EmptyString (SpeechApp.preview text)]
        else []
    | Raise e => [Notify "Hata" EmptyString (exn_str e)]
    end.
Proof.
  intros Hlong. unfold SpeechApp._process_audio.
  rewrite try_finally_snd, show_ready_delivers_nothing, Hlong.
  unfold try_except, bind at 1.
  destruct (transcribe_audio_frame E audio SpeechApp._sample_rate w)
    as (_ & _ & _ & Hd).
  destruct (SpeechApp.transcribe_audio E audio SpeechApp._sample_rate w)
    as [[text|e] w1]; simpl in Hd |- *.
  - destruct text as [|c text]; simpl.
    + now rewrite Hd, app_nil_r.
    + unfold delivered in *. simpl. rewrite !List.filter_app, Hd. simpl.
      now rewrite <- !app_assoc.
  - unfold delivered in *. simpl. now rewrite List.filter_app, Hd.
Qed.

(** The preview counts characters, not bytes: a sentence of 50
    characters in 63 bytes is shown whole, one of 71 characters is cut
    after the fiftieth. *)
Lemma preview_counts_characters :
  String.length "Bugün öğleden sonra şehir dışına çıkıp yürüyeceğiz" = 63%nat /\
  SpeechApp.preview "Bugün öğleden sonra şehir dışına çıkıp yürüyeceğiz"
    = "Bugün öğleden sonra şehir dışına çıkıp yürüyeceğiz" /\
  SpeechApp.preview
    "Bugün öğleden sonra şehir dışına çıkıp ağaçların gölgesinde yürüyeceğiz"
    = "Bugün öğleden sonra şehir dışına çıkıp ağaçların g...".
Proof. vm_compute. repeat split. Qed.

(** One second of audio with a model that answers, and with one that
    raises. *)
Lemma word_is_delivered_once :
  delivered (snd (SpeechApp._process_audio Samples.steady Samples.word
                    Samples.boot))
  = [Pbcopy "Merhaba  dünya"; Osascript;
     Notify "Speech to Text" EmptyString "Merhaba  dünya"].
Proof.
  rewrite (process_audio_delivers Samples.steady Samples.word Samples.boot).
  - vm_compute. reflexivity.
  - vm_compute. reflexivity.
Defined.

(** ** The text the transcribers return *)

Lemma lstrip_head l :
  match lstrip l with
  | [] => True
  | c :: _ => is_space c = false
  end.
Proof.
  induction l as [|c l IH]; simpl; [exact I|].
  destruct (is_space c) eqn:Hc; [exact IH | exact Hc].
Qed.

Lemma lstrip_suffix l : exists pre, l = pre ++ lstrip l.
Proof.
  induction l as [|c l [pre IH]]; simpl; [now exists []|].
  destruct (is_space c).
  - exists (c :: pre). simpl. now f_equal.
  - now exists [].
Qed.

(** [str.strip] leaves no white space at either end. *)
Lemma strip_trimmed s : trimmed (strip s) = true.
Proof.
  unfold trimmed, strip. rewrite list_ascii_of_string_of_list_ascii.
  set (l := lstrip (list_ascii_of_string s)).
  pose proof (lstrip_head (list_ascii_of_string s)) as Hl. fold l in Hl.
  pose proof (lstrip_head (rev l)) as Hm.
  destruct (lstrip_suffix (rev l)) as [pre Hpre].
  destruct (lstrip (rev l)) as [|c t]; [reflexivity|].
  apply (f_equal (@rev ascii)) in Hpre.
  rewrite rev_involutive, rev_app_distr in Hpre.
  change (rev (c :: t)) with (rev t ++ [c]) in Hpre |- *.
  destruct (rev t) as [|d u]; simpl in Hpre |- *.
  - now rewrite Hm.
  - rewrite Hpre in Hl. rewrite Hl, List.last_last, Hm. reflexivity.
Qed.

Lemma transcriber_text_is_trimmed E dir audio rate w text :
  fst ((temp_path <- NamedTemporaryFile ".wav" ;;
        audio_data <- normalize audio ;;
        wavfile_write temp_path rate (quantize audio_data) ;;;
        run_model E dir temp_path) w) = Ok text ->
  trimmed text = true.
Proof.
  unfold NamedTemporaryFile, normalize, np_divide, wavfile_write,
    run_model, get_model, model_transcribe, os_makedirs, os_unlink.
  cbv zeta.
  run_cases; simpl; intros Heq; inversion Heq; subst; apply strip_trimmed.
Qed.

(** X10.  The text a transcriber returns, in both files, has no white
    space at its beginning or at its end, whatever segments the model
    produced. *)
Theorem returned_text_is_trimmed
    (E : env) (audio : list Q) (rate : Z) (w : world) (text : string) :
  (fst (Index.transcribe E audio rate w) = Ok text -> trimmed text = true) /\
  (fst (SpeechApp.transcribe_audio E audio rate w) = Ok text ->
   trimmed text = true).
Proof.
  split.
  - apply transcriber_text_is_trimmed.
  - destruct audio as [|x xs].
    + simpl. intros H. inversion H. reflexivity.
    + rewrite (transcribe_audio_nonempty E (x :: xs) rate w) by discriminate.
      apply transcriber_text_is_trimmed.
Qed.

(** The segments [" Merhaba"] and [" dünya "] come back without the
    space in front and the one at the end. *)
Lemma merhaba_is_trimmed : trimmed "Merhaba  dünya" = true.
Proof.
  apply (returned_text_is_trimmed Samples.steady Samples.word 16000
           Samples.boot "Merhaba  dünya").
  vm_compute. reflexivity.
Defined.

(** ** The model provider, whatever the constructor does *)

Section AnyConstructor.

Import Threads Provider.

Variable E : env.

Lemma init_sound n : sound E (init n).
Proof.
  split; [|split].
  - left. intros k Hk. simpl in Hk. lia.
  - intros i c Hc. apply lookup_replicate in Hc as [-> _].
    split; [discriminate | exact I].
  - intros i Hi. discriminate.
Qed.

(** A thread outside the critical section is not disturbed by what the
    holder of the lock does. *)
Lemma thread_sound_idle l l' m m' b b' i c :
  thread_sound E l m b i c ->
  critical c = false ->
  m' = m \/ m = None ->
  (b <= b')%nat ->
  thread_sound E l' m' b' i c.
Proof.
  intros [_ H] Hc Hm Hb. split; [congruence|].
  destruct c as [| | | | | | | |[r|e]]; simpl in *; try discriminate;
    try exact I.
  - destruct Hm as [->| ->]; [assumption | congruence].
  - destruct H as [-> Hne]. destruct Hm as [->| ->]; [now split | congruence].
  - destruct H as (k & Hk & Hi). exists k. split; [lia | assumption].
Qed.

(** While thread [j] is inside the critical section every other thread is
    outside. *)
Lemma others_outside p j cj :
  sound E p -> threads p !! j = Some cj -> critical cj = true ->
  lock p = Some j /\
  forall i c, i <> j -> threads p !! i = Some c -> critical c = false.
Proof.
  intros (_ & Ht & _) Hj Hcj.
  assert (Hl : lock p = Some j) by (now apply (Ht j cj Hj)).
  split; [exact Hl|].
  intros i c Hne Hi. destruct (critical c) eqn:Hc; [|reflexivity].
  destruct (Ht i c Hi) as [Hli _]. specialize (Hli Hc). congruence.
Qed.

(** While the lock is free every thread is outside. *)
Lemma all_outside p :
  sound E p -> lock p = None ->
  forall i c, threads p !! i = Some c -> critical c = false.
Proof.
  intros (_ & Ht & _) Hl i c Hi. destruct (critical c) eqn:Hc; [|reflexivity].
  destruct (Ht i c Hi) as [Hli _]. specialize (Hli Hc). congruence.
Qed.
Lemma store_sound_move p j cj c' l :
  store_sound E p -> threads p !! j = Some cj ->
  (forall h, cj <> AtAssign h) ->
  store_sound E {| model := model p; lock := l; built := built p;
                   threads := <[j := c']> (threads p) |}.
Proof.
  unfold store_sound. simpl. intros H Hj Hne.
  destruct (model p); [exact H|].
  destruct H as [H|(i & h & Hi & H)]; [now left|]. right.
  exists i, h. split; [|exact H].
  rewrite list_lookup_insert_ne; [exact Hi|]. intros ->. 
  rewrite Hj in Hi. inversion Hi. now apply (Hne h).
Qed.

Lemma holder_move (ts : list pc) l j cj c' :
  (forall i, l = Some i -> exists c, ts !! i = Some c /\ critical c = true) ->
  ts !! j = Some cj -> critical c' = critical cj ->
  forall i, l = Some i ->
    exists c, <[j := c']> ts !! i = Some c /\ critical c = true.
Proof.
  intros H Hj Hc i Hi. destruct (H i Hi) as (c & Hci & Hcrit).
  destruct (decide (i = j)) as [->|Hne].
  - exists c'. split.
    + apply list_lookup_insert_eq. now apply lookup_lt_Some in Hj.
    + rewrite Hc. congruence.
  - exists c. split; [|exact Hcrit]. now rewrite list_lookup_insert_ne.
Qed.

Lemma step_sound j p : sound E p -> sound E (step E j p).
Proof.
  intros Hp. pose proof Hp as (Hstore & Ht & Hlock). unfold step.
  destruct (threads p !! j) as [c|] eqn:Hj; [|exact Hp].
  pose proof (Ht j c Hj) as [Hcrit Hc].
  assert (Hlen : (j < length (threads p))%nat) by (now apply lookup_lt_Some in Hj).
  destruct c; simpl in Hc, Hcrit.
  - (* the outer test *)
    destruct (model p) as [h|] eqn:Hmod; unfold goto; rewrite <- ?Hmod;
      (split; [|split]);
      [ eapply store_sound_move; [eassumption..|discriminate]
      | cbn [threads model lock built]; intros i c Hi;
        apply list_lookup_insert_Some in Hi as [(<- & <- & _)|(Hne & Hi)];
        [ | rewrite ?Hmod; now apply Ht ]
      | cbn [threads lock]; eapply holder_move; [eassumption..|reflexivity]
      | eapply store_sound_move; [eassumption..|discriminate]
      | cbn [threads model lock built]; intros i c Hi;
        apply list_lookup_insert_Some in Hi as [(<- & <- & _)|(Hne & Hi)];
        [ | rewrite ?Hmod; now apply Ht ]
      | cbn [threads lock]; eapply holder_move; [eassumption..|reflexivity] ].
    + split; [discriminate|]. simpl. congruence.
    + split; [discriminate | exact I].
  - (* taking the lock *)
    destruct (lock p) as [k|] eqn:Hl; [exact Hp|].
    split; [|split].
    + eapply store_sound_move; [eassumption..|discriminate].
    + cbn [threads model lock built]. intros i c Hi.
      apply list_lookup_insert_Some in Hi as [(<- & <- & _)|(Hne & Hi)].
      * split; [reflexivity | exact I].
      * eapply thread_sound_idle;
          [now apply Ht | eapply all_outside; eassumption | now left | lia].
    + cbn [threads lock]. intros i Hi. inversion Hi; subst i.
      exists AtInnerTest. split; [now apply list_lookup_insert_eq | reflexivity].
  - (* the inner test *)
    specialize (Hcrit eq_refl).
    destruct (model p) as [h|] eqn:Hmod; unfold goto; rewrite <- ?Hmod;
      (split; [|split]);
      [ eapply store_sound_move; [eassumption..|discriminate]
      | cbn [threads model lock built]; intros i c Hi;
        apply list_lookup_insert_Some in Hi as [(<- & <- & _)|(Hne & Hi)];
        [ | rewrite ?Hmod; now apply Ht ]
      | cbn [threads lock]; eapply holder_move; [eassumption..|reflexivity]
      | eapply store_sound_move; [eassumption..|discriminate]
      | cbn [threads model lock built]; intros i c Hi;
        apply list_lookup_insert_Some in Hi as [(<- & <- & _)|(Hne & Hi)];
        [ | rewrite ?Hmod; now apply Ht ]
      | cbn [threads lock]; eapply holder_move; [eassumption..|reflexivity] ].
    + split; [intros _; assumption|]. simpl. congruence.
    + split; [intros _; assumption|]. simpl. split; [assumption|].
      unfold store_sound in Hstore. rewrite Hmod in Hstore.
      destruct Hstore as [H|(k & h & Hk & _)]; [exact H|].
      exfalso. destruct (Ht k _ Hk) as [Hlk _]. specialize (Hlk eq_refl).
      assert (k = j) by congruence. subst k. congruence.
  - (* the construction *)
    specialize (Hcrit eq_refl). destruct Hc as [Hmod Hfail].
    destruct (others_outside p j _ Hp Hj eq_refl) as [_ Hout].
    split; [|split].
    + unfold store_sound. cbn [threads model lock built]. rewrite Hmod.
      destruct (whisper_init E (built p)) as [e|] eqn:Hinit.
      * left. intros k Hk. destruct (decide (k = built p)) as [->|Hne];
          [congruence | apply Hfail; lia].
      * right. exists j, (built p).
        split; [now apply list_lookup_insert_eq|]. now repeat split.
    + cbn [threads model lock built]. intros i c Hi.
      apply list_lookup_insert_Some in Hi as [(<- & <- & _)|(Hne & Hi)].
      * destruct (whisper_init E (built p)) as [e|] eqn:Hinit.
        -- split; [intros _; assumption|]. simpl. split; [assumption|]. split.
           ++ intros k Hk. destruct (decide (k = built p)) as [->|Hne];
                [congruence | apply Hfail; lia].
           ++ exists (built p). split; [lia | assumption].
        -- split; [intros _; assumption|]. simpl. now repeat split.
      * eapply thread_sound_idle;
          [now apply Ht | eapply Hout; [|eassumption]; congruence
          | now left | lia].
    + cbn [threads lock]. eapply holder_move; [eassumption..|].
      now destruct (whisper_init E (built p)).
  - (* the assignment *)
    specialize (Hcrit eq_refl). destruct Hc as (Hmod & Hb & Hinit).
    destruct (others_outside p j _ Hp Hj eq_refl) as [_ Hout].
    split; [|split].
    + unfold store_sound. cbn [threads model lock built].
      split; [assumption|]. split; [assumption|].
      unfold store_sound in Hstore. rewrite Hmod in Hstore.
      destruct Hstore as [H|(i & h' & Hi & Hb' & _ & H)].
      * exfalso. apply (H h); [lia | assumption].
      * assert (h' = h) by lia. now subst h'.
    + cbn [threads model lock built]. intros i c Hi.
      apply list_lookup_insert_Some in Hi as [(<- & <- & _)|(Hne & Hi)].
      * split; [intros _; assumption|]. simpl. discriminate.
      * eapply thread_sound_idle;
          [now apply Ht | eapply Hout; [|eassumption]; congruence
          | now right | lia].
    + cbn [threads lock]. eapply holder_move; [eassumption..|reflexivity].
  - (* leaving the lock *)
    specialize (Hcrit eq_refl).
    destruct (others_outside p j _ Hp Hj eq_refl) as [_ Hout].
    split; [|split].
    + eapply store_sound_move; [eassumption..|discriminate].
    + cbn [threads model lock built]. intros i c Hi.
      apply list_lookup_insert_Some in Hi as [(<- & <- & _)|(Hne & Hi)].
      * split; [discriminate | exact Hc].
      * eapply thread_sound_idle;
          [now apply Ht | eapply Hout; [|eassumption]; congruence
          | now left | lia].
    + cbn [lock]. discriminate.
  - (* an exception leaves the [with] block *)
    specialize (Hcrit eq_refl). destruct Hc as (Hmod & Hfail & Hk).
    destruct (others_outside p j _ Hp Hj eq_refl) as [_ Hout].
    split; [|split].
    + eapply store_sound_move; [eassumption..|discriminate].
    + cbn [threads model lock built]. intros i c Hi.
      apply list_lookup_insert_Some in Hi as [(<- & <- & _)|(Hne & Hi)].
      * split; [discriminate | exact Hk].
      * eapply thread_sound_idle;
          [now apply Ht | eapply Hout; [|eassumption]; congruence
          | now left | lia].
    + cbn [lock]. discriminate.
  - (* the return *)
    unfold goto. split; [|split].
    + eapply store_sound_move; [eassumption..|discriminate].
    + cbn [threads model lock built]. intros i c Hi.
      apply list_lookup_insert_Some in Hi as [(<- & <- & _)|(Hne & Hi)];
        [|now apply Ht].
      split; [discriminate|]. simpl. now split.
    + cbn [threads lock]. eapply holder_move; [eassumption..|reflexivity].
  - exact Hp.
Qed.

Lemma run_sound schedule : forall p, sound E p -> sound E (run E schedule p).
Proof.
  induction schedule as [|j schedule IH]; intros p Hp; [exact Hp|].
  apply IH. now apply step_sound.
Qed.

End AnyConstructor.

(** X11.  Whatever the constructor of the model does, raise or return, and
    however the steps of the callers of [get_model] interleave: a caller
    that has returned holds the object stored in [_model], which is the
    last one built and was built without an exception; a caller that
    raised passes on an exception of the constructor; of all the
    constructions made at most one did not raise; no two callers are
    inside [with _model_lock:] at once; and the lock is held by a caller
    that is still inside it, never by one that has returned or raised. *)
Theorem callers_share_the_one_model
    (E : env) (n : nat) (schedule : list nat) :
  let p := Threads.run E schedule (Threads.init n) in
  (forall i r, Threads.threads p !! i = Some (Threads.Finished (Ok r)) ->
     exists h, r = Some h /\ Threads.model p = Some h /\
               whisper_init E h = None /\ Threads.built p = S h) /\
  (forall i e, Threads.threads p !! i = Some (Threads.Finished (Raise e)) ->
     exists k, (k < Threads.built p)%nat /\ whisper_init E k = Some e) /\
  (forall k k', (k < Threads.built p)%nat -> (k' < Threads.built p)%nat ->
     whisper_init E k = None -> whisper_init E k' = None -> k = k') /\
  (forall i j ci cj,
     Threads.threads p !! i = Some ci -> Threads.threads p !! j = Some cj ->
     Provider.critical ci = true -> Provider.critical cj = true -> i = j) /\
  (forall i, Threads.lock p = Some i ->
     exists c, Threads.threads p !! i = Some c /\ Threads.finished c = false).
Proof.
  intros p.
  assert (Hp : Provider.sound E p) by (apply run_sound, init_sound).
  destruct Hp as (Hstore & Ht & Hlock).
  assert (Honly : forall h, Threads.built p = S h -> whisper_init E h = None ->
            Provider.failed_before E h ->
            forall k k', (k < Threads.built p)%nat -> (k' < Threads.built p)%nat ->
              whisper_init E k = None -> whisper_init E k' = None -> k = k').
  { intros h Hb Hh Hfail k k' Hk Hk' Hi Hi'.
    assert (k = h).
    { destruct (decide (k = h)) as [|Hne]; [assumption|].
      exfalso. apply (Hfail k); [lia | assumption]. }
    assert (k' = h).
    { destruct (decide (k' = h)) as [|Hne]; [assumption|].
      exfalso. apply (Hfail k'); [lia | assumption]. }
    congruence. }
  unfold Provider.store_sound in Hstore.
  split; [|split; [|split; [|split]]].
  - intros i r Hi. destruct (Ht i _ Hi) as [_ [-> Hne]].
    destruct (Threads.model p) as [h|]; [|congruence].
    destruct Hstore as (Hb & Hh & _). exists h. now repeat split.
  - intros i e Hi. now destruct (Ht i _ Hi) as [_ H].
  - destruct (Threads.model p) as [h|].
    + destruct Hstore as (Hb & Hh & Hfail). now apply (Honly h).
    + destruct Hstore as [Hfail|(i & h & _ & Hb & Hh & Hfail)].
      * intros k k' Hk _ Hi _. exfalso. now apply (Hfail k).
      * now apply (Honly h).
  - intros i j ci cj Hi Hj Hci Hcj.
    destruct (Ht i _ Hi) as [Hli _]. destruct (Ht j _ Hj) as [Hlj _].
    specialize (Hli Hci). specialize (Hlj Hcj). congruence.
  - intros i Hi. destruct (Hlock i Hi) as (c & Hc & Hcrit).
    exists c. split; [assumption|]. now destruct c.
Qed.

(** ** The menubar application *)

Section Application.

Import App.

Context `{JsonCodec}.

Variable E : env.

Lemma with_sys_sys a : with_sys (sys a) a = a.
Proof. now destruct a. Qed.

(** [load_config] looks at the configuration file only, and changes
    nothing. *)
Lemma load_config_result w :
  SpeechApp.load_config w =
    (match fs w !! SpeechApp.CONFIG_PATH with
     | Some (Text s) => json_load s
     | Some (Wav _ _) => Raise JSONDecodeError
     | Some Directory => Raise (IsADirectoryError SpeechApp.CONFIG_PATH)
     | None => Ok {[ "hotkey" := SpeechApp.DEFAULT_HOTKEY ]}
     end, w).
Proof.
  unfold SpeechApp.load_config, bind, os_path_exists, gets, read_text, lift, ret.
  destruct (fs w !! SpeechApp.CONFIG_PATH) as [[s|r d|]|] eqn:Hf;
    cbn [fst snd]; rewrite ?Hf.
  - rewrite bool_decide_eq_true_2 by eauto. rewrite Hf. reflexivity.
  - rewrite bool_decide_eq_true_2 by eauto. rewrite Hf. reflexivity.
  - rewrite bool_decide_eq_true_2 by eauto. rewrite Hf. reflexivity.
  - rewrite bool_decide_eq_false_2 by (intros [? ?]; discriminate). reflexivity.
Qed.

Lemma load_config_reads_one_file w w' :
  fs w' !! SpeechApp.CONFIG_PATH = fs w !! SpeechApp.CONFIG_PATH ->
  fst (SpeechApp.load_config w') = fst (SpeechApp.load_config w).
Proof. intros Hfs. rewrite !load_config_result. simpl. now rewrite Hfs. Qed.

Lemma persisted_ext w w' c :
  fs w' !! SpeechApp.CONFIG_PATH = fs w !! SpeechApp.CONFIG_PATH ->
  fst (SpeechApp.load_config w) = Ok c ->
  fst (SpeechApp.load_config w') = Ok c.
Proof.
  intros Hfs Hp. now rewrite (load_config_reads_one_file w w' Hfs).
Qed.

(** What has just been saved is what [load_config] returns. *)
Lemma saved_is_loaded c w :
  fst (SpeechApp.load_config (snd (SpeechApp.save_config c w))) = Ok c.
Proof.
  rewrite load_config_result.
  unfold SpeechApp.save_config, write_text, modify. simpl.
  rewrite lookup_insert_eq. apply json_load_dump.
Qed.

Lemma temp_name_is_not_the_configuration suffix w :
  SpeechApp.CONFIG_PATH <> temp_name suffix w.
Proof. unfold temp_name, SpeechApp.CONFIG_PATH. rewrite append_cons. discriminate. Qed.

(** No thread touches the configuration, in memory or on disk. *)
Lemma process_audio_spares_configuration audio w :
  config (snd (SpeechApp._process_audio E audio w)) = config w /\
  fs (snd (SpeechApp._process_audio E audio w)) !! SpeechApp.CONFIG_PATH
    = fs w !! SpeechApp.CONFIG_PATH.
Proof.
  unfold SpeechApp._process_audio. rewrite try_finally_snd.
  assert (Hready : forall v,
    config (snd (SpeechApp.show_ready v)) = config v /\
    fs (snd (SpeechApp.show_ready v)) = fs v).
  { intros v. destruct (config v !! "hotkey") as [hk|] eqn:Hk.
    - now rewrite (show_ready_with_hotkey v hk Hk).
    - now rewrite (show_ready_without_hotkey v Hk). }
  destruct (Hready (snd (try_except
       (if SpeechApp.too_short (length audio) then SpeechApp.show_ready
        else
          text <- SpeechApp.transcribe_audio E audio SpeechApp._sample_rate ;;
          if nonempty text then
            SpeechApp.paste_text text ;;;
            modify (emit (Notify "Speech to Text" EmptyString
                            (SpeechApp.preview text)))
          else ret tt)
       (fun e => modify (emit (Notify "Hata" EmptyString (exn_str e)))) w)))
    as [-> ->].
  unfold try_except.
  destruct (SpeechApp.too_short (length audio)).
  - destruct (Hready w) as [Hc Hf].
    destruct (SpeechApp.show_ready w) as [[[]|e] w1]; simpl in *;
      now rewrite Hc, Hf.
  - unfold bind at 1 3.
    assert (Hfr : config (snd (SpeechApp.transcribe_audio E audio
                                 SpeechApp._sample_rate w)) = config w /\
                  fs (snd (SpeechApp.transcribe_audio E audio
                             SpeechApp._sample_rate w))
                    !! SpeechApp.CONFIG_PATH = fs w !! SpeechApp.CONFIG_PATH).
    { destruct audio as [|x xs]; [now split|].
      rewrite (transcribe_audio_nonempty E (x :: xs) _ w) by discriminate.
      destruct (transcriber_frame E SpeechApp.models_dir (x :: xs)
                  SpeechApp._sample_rate w) as (_ & _ & Hc & _ & Hf & _).
      split; [exact Hc|]. apply Hf.
      - apply temp_name_is_not_the_configuration.
      - discriminate. }
    destruct (SpeechApp.transcribe_audio E audio SpeechApp._sample_rate w)
      as [[text|e] w1]; simpl in Hfr |- *.
    + destruct text as [|c text]; simpl; exact Hfr.
    + exact Hfr.
Qed.

Lemma get_model_spares_configuration dir w :
  dir <> SpeechApp.CONFIG_PATH ->
  config (snd (get_model E dir w)) = config w /\
  fs (snd (get_model E dir w)) !! SpeechApp.CONFIG_PATH
    = fs w !! SpeechApp.CONFIG_PATH /\
  title (snd (get_model E dir w)) = title w /\
  status (snd (get_model E dir w)) = status w /\
  trace (snd (get_model E dir w)) = trace w.
Proof.
  intros Hdir. unfold get_model, bind, gets, modify, os_makedirs, raise.
  destruct (_model w); simpl; [now repeat split|].
  destruct (fs w !! dir) eqn:Hd; simpl;
    destruct (whisper_init E (constructions w)); simpl; repeat split;
    try reflexivity; now rewrite lookup_insert_ne.
Qed.

Lemma preload_unfold w :
  _preload_model_bg E w =
    match get_model E SpeechApp.models_dir
            (set_title "⏳" (set_status "Durum: Model yükleniyor..." w)) with
    | (Ok _, w2) =>
        match config w2 !! "hotkey" with
        | Some hotkey =>
            (Ok tt, set_title "🎤" (set_status (ready_line hotkey) w2))
        | None => (Raise (KeyError "hotkey"), w2)
        end
    | (Raise e, w2) => (Raise e, w2)
    end.
Proof.
  unfold _preload_model_bg, bind, modify, SpeechApp.config_hotkey. simpl.
  destruct (get_model E SpeechApp.models_dir _) as [[m|e] w2];
    [destruct (config w2 !! "hotkey")|]; reflexivity.
Qed.

Lemma preload_spares_configuration w :
  config (snd (_preload_model_bg E w)) = config w /\
  fs (snd (_preload_model_bg E w)) !! SpeechApp.CONFIG_PATH
    = fs w !! SpeechApp.CONFIG_PATH.
Proof.
  rewrite preload_unfold.
  destruct (get_model_spares_configuration SpeechApp.models_dir
              (set_title "⏳" (set_status "Durum: Model yükleniyor..." w)))
    as (Hc & Hf & _); [discriminate|].
  destruct (get_model E SpeechApp.models_dir _) as [[m|e] w2];
    simpl in Hc, Hf |- *; [|now split].
  destruct (config w2 !! "hotkey"); simpl; now split.
Qed.

Lemma run_job_spares_configuration j w :
  config (snd (run_job E j w)) = config w /\
  fs (snd (run_job E j w)) !! SpeechApp.CONFIG_PATH
    = fs w !! SpeechApp.CONFIG_PATH.
Proof.
  destruct j; [apply preload_spares_configuration
              | apply process_audio_spares_configuration].
Qed.

Lemma filter_only (k : nat) :
  List.filter (fun x => negb (x =? k)%nat) [k] = [].
Proof. simpl. now rewrite Nat.eqb_refl. Qed.

Lemma listed_key_is_mapped k :
  k ∈ SpeechApp.keys -> exists key, key_map !! k = Some key.
Proof.
  intros Hk. unfold SpeechApp.keys in Hk.
  repeat (apply elem_of_cons in Hk as [->|Hk]; [eexists; reflexivity|]).
  now apply elem_of_nil in Hk.
Qed.

(** [start_hotkey_listener] with a hotkey configured: the trigger is the
    key of that name, or ctrl, and the listener running before is
    replaced by a new one. *)
Lemma start_hotkey_listener_result a hotkey :
  config (sys a) !! "hotkey" = Some hotkey ->
  start_hotkey_listener a =
    (Ok tt,
     new_listener
       (match key_listener a with
        | Some k => stop_listener k
        | None => fun a => a
        end (set_trigger_key (default Key_ctrl (key_map !! hotkey))
               (with_sys (sys a) a)))).
Proof.
  intros Hk.
  unfold start_hotkey_listener, and_then, on_sys, SpeechApp.config_hotkey,
    change, skip.
  rewrite Hk. simpl. now destruct (key_listener a).
Qed.

Lemma handle_consistent ev a :
  consistent a -> exists a', handle E ev a = (Ok tt, a') /\ consistent a'.
Proof.
  intros Ha. pose proof Ha as ((hk & Hk & Htrig) & Hstream & (k & Hkl & Hlisten) & Hpers).
  unfold handle. destruct (quit a) eqn:Hq; [exists a; now split|].
  destruct ev as [l key|l key|s indata|clicked text| | |n].
  - (* a key goes down *)
    destruct (bool_decide _); [|exists a; now split].
    unfold on_press.
    destruct (bool_decide _ && negb (is_recording a)) eqn:Hc;
      [|exists a; now split].
    apply andb_true_iff in Hc as [_ Hrec]. apply negb_true_iff in Hrec.
    eexists. split; [reflexivity|].
    destruct (stream a) as [s|]; [destruct Hstream; congruence|].
    destruct Hstream as [_ Hact].
    split; [|split; [|split]]; simpl.
    + exists hk. now split.
    + rewrite Hact. now split.
    + exists k. rewrite Hq. now split.
    + apply (persisted_ext (sys a)); [reflexivity | exact Hpers].
  - (* a key goes up *)
    destruct (bool_decide _); [|exists a; now split].
    unfold on_release.
    destruct (bool_decide _ && is_recording a) eqn:Hc; [|exists a; now split].
    unfold stop_recording, and_then, change, on_sys, modify, spawn, skip.
    simpl. destruct (stream a) as [s|] eqn:Hs;
      (eexists; split; [reflexivity|]);
      (split; [|split; [|split]]); simpl; rewrite ?Hs; simpl.
    + exists hk. now split.
    + destruct Hstream as [_ ->]. now rewrite filter_only.
    + exists k. rewrite Hq. now split.
    + apply (persisted_ext (sys a)); [reflexivity | exact Hpers].
    + exists hk. now split.
    + destruct Hstream as [_ ->]. now split.
    + exists k. rewrite Hq. now split.
    + apply (persisted_ext (sys a)); [reflexivity | exact Hpers].
  - (* a block arrives *)
    destruct (bool_decide _); [|exists a; now split].
    unfold audio_callback. destruct (is_recording a) eqn:Hrec;
      [|exists a; now split].
    eexists. split; [reflexivity|].
    split; [|split; [|split]]; simpl.
    + exists hk. now split.
    + now rewrite Hrec.
    + exists k. rewrite Hq. now split.
    + exact Hpers.
  - (* the hotkey dialog *)
    unfold show_hotkey_menu, and_then at 1 2, on_sys at 1 2,
      SpeechApp.config_hotkey.
    rewrite Hk. simpl. rewrite Hk. simpl.
    destruct (clicked && bool_decide _) eqn:Hc.
    2:{ exists (with_sys (sys (with_sys (sys a) a)) (with_sys (sys a) a)).
        split; [reflexivity|]. simpl. now rewrite !with_sys_sys. }
    unfold and_then at 1, on_sys at 1, modify. simpl.
    unfold and_then at 1, on_sys at 1, bind, gets, SpeechApp.save_config,
      write_text, modify. simpl.
    unfold and_then at 1, on_sys at 1, SpeechApp.config_hotkey. simpl.
    rewrite lookup_insert_eq. simpl.
    unfold and_then at 1.
    rewrite (start_hotkey_listener_result _ (lower text))
      by (simpl; apply lookup_insert_eq).
    unfold on_sys, bind, SpeechApp.config_hotkey, modify. simpl.
    rewrite Hkl. simpl. rewrite lookup_insert_eq. simpl.
    eexists. split; [reflexivity|].
    split; [|split; [|split]]; simpl.
    + exists (lower text). split; [apply lookup_insert_eq | reflexivity].
    + exact Hstream.
    + eexists. split; [reflexivity|]. rewrite Hlisten, Hq.
      now rewrite filter_only.
    + rewrite load_config_result. simpl. rewrite lookup_insert_eq.
      apply json_load_dump.
  - (* the preload entry *)
    eexists. split; [reflexivity|].
    split; [|split; [|split]]; simpl.
    + exists hk. now split.
    + exact Hstream.
    + exists k. rewrite Hq. now split.
    + exact Hpers.
  - (* the quit entry *)
    unfold quit_app, and_then, change. rewrite Hkl.
    eexists. split; [reflexivity|].
    split; [|split; [|split]]; simpl.
    + exists hk. now split.
    + exact Hstream.
    + exists k. split; [assumption|]. rewrite Hlisten. apply filter_only.
    + exact Hpers.
  - (* a thread runs *)
    destruct (pending a !! n) as [j|]; [|exists a; now split].
    eexists. split; [reflexivity|].
    destruct (run_job_spares_configuration j (sys a)) as [Hc Hf].
    split; [|split; [|split]]; simpl.
    + exists hk. rewrite Hc. now split.
    + exact Hstream.
    + exists k. rewrite Hq. now split.
    + rewrite Hc. apply (persisted_ext (sys a)); [exact Hf | exact Hpers].
Qed.

Lemma run_consistent events : forall a,
  consistent a -> exists a', run E events a = (Ok tt, a') /\ consistent a'.
Proof.
  induction events as [|ev events IH]; intros a Ha.
  - exists a. now split.
  - destruct (handle_consistent ev a Ha) as (a1 & Hrun & Ha1).
    destruct (IH a1 Ha1) as (a2 & Hrest & Ha2).
    exists a2. split; [|exact Ha2].
    simpl. unfold and_then. now rewrite Hrun.
Qed.

Lemma get_model_result dir w :
  fst (get_model E dir w) =
    match loaded_model E w with
    | Ok h => Ok (Some h)
    | Raise e => Raise e
    end /\
  _model (snd (get_model E dir w)) =
    match loaded_model E w with
    | Ok h => Some h
    | Raise e => None
    end.
Proof.
  unfold get_model, loaded_model, bind, gets, modify, os_makedirs, raise.
  destruct (_model w) eqn:Hm; simpl; [now rewrite Hm|].
  destruct (fs w !! dir); simpl;
    destruct (whisper_init E (constructions w)); simpl; now split.
Qed.

(** [__init__]: what the object is when the configuration has been read
    and names a hotkey. *)
Lemma init_result w c hotkey :
  fst (SpeechApp.load_config w) = Ok c ->
  c !! "hotkey" = Some hotkey ->
  __init__ (blank w) =
    (Ok tt,
     {| sys := set_status "Durum: Hazır" (set_config c (set_title "🎤" w));
        is_recording := false; audio_chunks := []; stream := None;
        streams := 0; active := [];
        trigger_key := Some (default Key_ctrl (key_map !! hotkey));
        key_listener := Some 0%nat; listeners := 1; listening := [0%nat];
        pending := [Preload]; quit := false |}).
Proof.
  intros Hload Hk.
  unfold __init__, and_then at 1, on_sys at 1, modify. simpl.
  unfold and_then at 1, on_sys at 1. simpl.
  rewrite load_config_result in Hload |- *. simpl in Hload |- *. rewrite Hload.
  unfold and_then at 1, on_sys at 1, modify. simpl.
  unfold and_then at 1 2 3 4, change, on_sys at 1, modify. simpl.
  unfold and_then at 1.
  rewrite (start_hotkey_listener_result _ hotkey) by exact Hk.
  reflexivity.
Qed.

Lemma init_consistent w a :
  __init__ (blank w) = (Ok tt, a) -> consistent a.
Proof.
  destruct (fst (SpeechApp.load_config w)) as [c|e] eqn:Hload.
  - destruct (c !! "hotkey") as [hk|] eqn:Hk.
    + rewrite (init_result w c hk Hload Hk). intros Heq. inversion Heq.
      split; [|split; [|split]]; simpl.
      * exists hk. now split.
      * now split.
      * exists 0%nat. now split.
      * eapply persisted_ext; [|exact Hload]. reflexivity.
    + unfold __init__, and_then at 1, on_sys at 1, modify. simpl.
      unfold and_then at 1, on_sys at 1. simpl.
      rewrite load_config_result in Hload |- *. simpl in Hload |- *.
      rewrite Hload.
      unfold and_then at 1, on_sys at 1, modify. simpl.
      unfold and_then at 1 2 3 4, change, on_sys at 1, modify. simpl.
      unfold and_then at 1, start_hotkey_listener, and_then at 1, on_sys,
        SpeechApp.config_hotkey. simpl. rewrite Hk. discriminate.
  - unfold __init__, and_then at 1, on_sys at 1, modify. simpl.
    unfold and_then at 1, on_sys at 1. simpl.
    rewrite load_config_result in Hload |- *. simpl in Hload |- *.
    rewrite Hload. discriminate.
Qed.

End Application.

(** X14.  At any time after [__init__] the configuration file holds what
    the application has in memory: an application started on the files
    as they are now begins with the same configuration and the same
    trigger key. *)
Theorem settings_survive_a_restart `{JsonCodec}
    (E : env) (w : world) (a0 : App.app) (events : list App.event) :
  App.__init__ (App.blank w) = (Ok tt, a0) ->
  let a := snd (App.run E events a0) in
  exists a1,
    App.__init__ (App.blank (App.sys a)) = (Ok tt, a1) /\
    config (App.sys a1) = config (App.sys a) /\
    App.trigger_key a1 = App.trigger_key a.
Proof.
  intros Hinit a. apply init_consistent in Hinit.
  destruct (run_consistent E events a0 Hinit)
    as (a' & Hrun & ((hk & Hk & Ht) & _ & _ & Hp)).
  subst a. rewrite Hrun. simpl.
  eexists. split; [apply (init_result _ _ hk Hp Hk)|]. simpl. now split.
Qed.

(** The application started on an empty file system, after one
    utterance. *)
Lemma one_utterance_survives_a_restart :
  let a := snd (App.run Samples.steady one_utterance
                  (snd (App.__init__ (App.blank Samples.boot)))) in
  exists a1,
    App.__init__ (App.blank (App.sys a)) = (Ok tt, a1) /\
    config (App.sys a1) = config (App.sys a) /\
    App.trigger_key a1 = App.trigger_key a.
Proof.
  apply (settings_survive_a_restart Samples.steady Samples.boot).
  vm_compute. reflexivity.
Defined.

Section KeyHeld.

Import App.

Context `{JsonCodec}.

Variable E : env.

Lemma app_run_app ev1 ev2 a a1 :
  run E ev1 a = (Ok tt, a1) -> run E (ev1 ++ ev2) a = run E ev2 a1.
Proof.
  revert a. induction ev1 as [|ev ev1 IH]; intros a Hrun; simpl in *.
  - unfold skip in Hrun. now inversion Hrun.
  - unfold and_then in *. destruct (handle E ev a) as [[[]|e] a'];
      [now apply IH | discriminate].
Qed.

(** While the key is held the recording grows by the blocks of its
    stream and nothing else changes. *)
Lemma held_events_are_recorded t s mid : forall a,
  quit a = false -> is_recording a = true -> trigger_key a = Some t ->
  active a = [s] -> forallb (held t) mid = true ->
  run E mid a = (Ok tt, set_audio_chunks (audio_chunks a ++ heard s mid) a).
Proof.
  induction mid as [|ev mid IH]; intros a Hq Hrec Ht Hact Hheld.
  - simpl. rewrite app_nil_r. unfold skip. now destruct a.
  - simpl in Hheld. apply andb_true_iff in Hheld as [Hev Hheld].
    assert (Hsame : handle E ev a = (Ok tt, a) ->
                    heard s (ev :: mid) = heard s mid ->
                    run E (ev :: mid) a
                    = (Ok tt, set_audio_chunks
                                (audio_chunks a ++ heard s (ev :: mid)) a)).
    { intros Hh Heq. rewrite Heq. simpl. unfold and_then. rewrite Hh.
      now apply IH. }
    destruct ev as [l key|l key|s' indata|clicked text| | |n];
      try discriminate.
    + apply Hsame; [|reflexivity].
      unfold handle. rewrite Hq. destruct (bool_decide _); [|reflexivity].
      unfold on_press. rewrite Hrec, andb_false_r. reflexivity.
    + apply Hsame; [|reflexivity].
      unfold handle. rewrite Hq. destruct (bool_decide _); [|reflexivity].
      unfold on_release. rewrite Ht.
      simpl in Hev. apply negb_true_iff, bool_decide_eq_false in Hev.
      rewrite bool_decide_eq_false_2 by congruence. reflexivity.
    + destruct (Nat.eqb_spec s' s) as [->|Hne].
      * simpl. unfold and_then, handle. rewrite Hq, Hact.
        rewrite bool_decide_eq_true_2 by apply list_elem_of_singleton, eq_refl.
        unfold audio_callback. rewrite Hrec. unfold change.
        rewrite IH by assumption. simpl.
        rewrite Nat.eqb_refl. simpl. now rewrite <- app_assoc.
      * assert (Heq : heard s (Audio s' indata :: mid) = heard s mid).
        { simpl. apply Nat.eqb_neq in Hne. now rewrite Hne. }
        apply Hsame; [|exact Heq].
        unfold handle. rewrite Hq, Hact.
        rewrite bool_decide_eq_false_2; [reflexivity|].
        intros Hin. apply list_elem_of_singleton in Hin. contradiction.
Qed.

End KeyHeld.

(** The application after a hold of its trigger key. *)
Lemma hold_result `{JsonCodec}
    (E : env) (a : App.app) (l : nat) (t : App.Key)
    (mid : list App.event) :
  App.consistent a ->
  App.quit a = false ->
  App.is_recording a = false ->
  App.key_listener a = Some l ->
  App.trigger_key a = Some t ->
  forallb (App.held t) mid = true ->
  exists a',
    App.run E (App.Press l t :: mid ++ [App.Release l t]) a = (Ok tt, a') /\
    App.pending a' =
      App.pending a ++ [App.Process (concat (App.heard (App.streams a) mid))] /\
    App.is_recording a' = false /\ App.stream a' = None /\
    App.active a' = [] /\ App.quit a' = false /\
    App.sys a' =
      set_status "Durum: Yazıya çevriliyor..."
        (set_title "⏳"
           (set_status "Durum: Kaydediliyor..."
              (set_title "🔴" (App.sys a)))).
Proof.
  intros (_ & Hs & (k & Hkl & Hlisten) & _) Hq Hrec Hl Ht Hheld.
  rewrite Hq in Hlisten. assert (k = l) by congruence. subst k.
  destruct (App.stream a) as [s|] eqn:Hstream; [destruct Hs; congruence|].
  destruct Hs as [_ Hact].
  change (App.Press l t :: mid ++ [App.Release l t])
    with ([App.Press l t] ++ mid ++ [App.Release l t]).
  erewrite app_run_app.
  2:{ simpl. unfold App.and_then, App.handle. rewrite Hq, Hlisten.
      rewrite bool_decide_eq_true_2 by apply list_elem_of_singleton, eq_refl.
      unfold App.on_press. rewrite Ht, Hrec.
      rewrite bool_decide_eq_true_2 by reflexivity. simpl. reflexivity. }
  erewrite app_run_app.
  2:{ apply (held_events_are_recorded E t (App.streams a)); simpl;
        try assumption; try reflexivity. now rewrite Hact. }
  simpl. unfold App.and_then, App.handle. simpl. rewrite Hq, Hlisten.
  rewrite bool_decide_eq_true_2 by apply list_elem_of_singleton, eq_refl.
  unfold App.on_release. simpl. rewrite Ht.
  rewrite bool_decide_eq_true_2 by reflexivity. simpl.
  unfold App.stop_recording, App.and_then, App.change, App.on_sys, modify,
    App.spawn, App.skip. simpl.
  eexists. split; [reflexivity|]. simpl. rewrite Hact. simpl.
  rewrite Nat.eqb_refl. simpl. repeat split; try assumption.
  now destruct (App.heard (App.streams a) mid).
Qed.

(** X15.  A hold of the trigger key: from the press to the release the
    application records the blocks its stream delivers, in their order
    and whatever else the keyboard does in between (the key repeating,
    other keys going down and up, blocks of a stream closed before); the
    release closes the stream and starts exactly one thread, on the
    concatenation of those blocks. *)
Theorem hold_records_what_arrives `{JsonCodec}
    (E : env) (a : App.app) (l : nat) (t : App.Key)
    (mid : list App.event) :
  App.consistent a ->
  App.quit a = false ->
  App.is_recording a = false ->
  App.key_listener a = Some l ->
  App.trigger_key a = Some t ->
  forallb (App.held t) mid = true ->
  exists a',
    App.run E (App.Press l t :: mid ++ [App.Release l t]) a = (Ok tt, a') /\
    App.pending a' =
      App.pending a ++ [App.Process (concat (App.heard (App.streams a) mid))] /\
    App.is_recording a' = false /\ App.stream a' = None /\
    App.active a' = [] /\
    title (App.sys a') = "⏳".
Proof.
  intros Ha Hq Hrec Hl Ht Hheld.
  destruct (hold_result E a l t mid Ha Hq Hrec Hl Ht Hheld)
    as (a' & Hrun & Hpending & Hrec' & Hstream & Hactive & _ & Hsys).
  exists a'. split; [exact Hrun|]. split; [exact Hpending|].
  split; [exact Hrec'|]. split; [exact Hstream|]. split; [exact Hactive|].
  now rewrite Hsys.
Qed.

(** The utterance above is a hold of ctrl: three blocks of tone go to
    the thread. *)
Lemma one_utterance_is_processed :
  exists a',
    App.run Samples.steady
      (App.Press 0 App.Key_ctrl ::
       [App.Audio 0 Samples.tone; App.Press 0 App.Key_ctrl;
        App.Audio 0 Samples.tone; App.Audio 0 Samples.tone]
       ++ [App.Release 0 App.Key_ctrl])
      (snd (App.__init__ (App.blank Samples.boot))) = (Ok tt, a') /\
    App.pending a' =
      [App.Preload;
       App.Process (Samples.tone ++ Samples.tone ++ Samples.tone ++ [])].
Proof.
  destruct (hold_records_what_arrives Samples.steady
              (snd (App.__init__ (App.blank Samples.boot))) 0 App.Key_ctrl
              [App.Audio 0 Samples.tone; App.Press 0 App.Key_ctrl;
               App.Audio 0 Samples.tone; App.Audio 0 Samples.tone])
    as (a' & Hrun & Hpending & _).
  - split; [exists "ctrl"; split; reflexivity|].
    split; [split; reflexivity|].
    split; [exists 0%nat; split; reflexivity|].
    vm_compute. reflexivity.
  - reflexivity.
  - reflexivity.
  - reflexivity.
  - reflexivity.
  - reflexivity.
  - exists a'. split; [exact Hrun | exact Hpending].
Defined.

(** X16.  The answer to the hotkey dialog.  An answer that is cancelled,
    or whose text in lower case is not one of the ten names, changes
    nothing at all.  An accepted one is stored in lower case, written to
    the configuration file so that [load_config] returns it, shown in the
    status line and announced by one notification; the trigger becomes
    the key of that name, never the ctrl fallback; and a recording under
    way is not touched. *)
Theorem hotkey_dialog_answer `{JsonCodec}
    (clicked : bool) (text : string) (a : App.app) :
  App.consistent a ->
  App.quit a = false ->
  if clicked && bool_decide (App.lower text ∈ SpeechApp.keys) then
    exists key a',
      App.key_map !! App.lower text = Some key /\
      App.show_hotkey_menu clicked text a = (Ok tt, a') /\
      config (App.sys a') !! "hotkey" = Some (App.lower text) /\
      App.trigger_key a' = Some key /\
      fst (SpeechApp.load_config (App.sys a')) = Ok (config (App.sys a')) /\
      status (App.sys a') = App.ready_line (App.lower text) /\
      trace (App.sys a') =
        trace (App.sys a) ++
        [Notify "Speech to Text" EmptyString
           ("Tuş değiştirildi: " +:+ App.lower text)] /\
      App.is_recording a' = App.is_recording a /\
      App.audio_chunks a' = App.audio_chunks a /\
      App.stream a' = App.stream a /\
      App.pending a' = App.pending a
  else App.show_hotkey_menu clicked text a = (Ok tt, a).
Proof.
  intros ((hk & Hk & Htrig) & _ & (k & Hkl & Hlisten) & _) Hq.
  destruct (clicked && bool_decide _) eqn:Hc.
  2:{ unfold App.show_hotkey_menu. rewrite Hc.
      unfold App.and_then, App.on_sys, SpeechApp.config_hotkey, App.skip.
      rewrite Hk. simpl. rewrite Hk. now destruct a. }
  unfold App.show_hotkey_menu. rewrite Hc.
  unfold App.and_then at 1 2, App.on_sys at 1 2, SpeechApp.config_hotkey.
  rewrite Hk. simpl. rewrite Hk. simpl.
  apply andb_true_iff in Hc as [_ Hin]. apply bool_decide_eq_true in Hin.
  destruct (listed_key_is_mapped _ Hin) as [key Hkey].
  unfold App.and_then at 1, App.on_sys at 1, modify. simpl.
  unfold App.and_then at 1, App.on_sys at 1, bind, gets,
    SpeechApp.save_config, write_text, modify. simpl.
  unfold App.and_then at 1, App.on_sys at 1, SpeechApp.config_hotkey. simpl.
  rewrite lookup_insert_eq. simpl.
  unfold App.and_then at 1.
  rewrite (start_hotkey_listener_result _ (App.lower text))
    by (simpl; apply lookup_insert_eq).
  unfold App.on_sys, bind, SpeechApp.config_hotkey, modify. simpl.
  rewrite Hkl. simpl. rewrite lookup_insert_eq. simpl.
  exists key. eexists. split; [exact Hkey|]. split; [reflexivity|]. simpl.
  split; [apply lookup_insert_eq|].
  split; [now rewrite Hkey|].
  split; [|now repeat split].
  rewrite load_config_result. simpl. rewrite lookup_insert_eq.
  apply json_load_dump.
Qed.

(** "F2" typed into the dialog of the application just started. *)
Lemma f2_becomes_the_trigger :
  exists a',
    App.show_hotkey_menu true "F2" (snd (App.__init__ (App.blank Samples.boot)))
      = (Ok tt, a') /\
    config (App.sys a') !! "hotkey" = Some "f2" /\
    App.trigger_key a' = Some App.Key_f2.
Proof.
  pose proof (hotkey_dialog_answer true "F2"
                (snd (App.__init__ (App.blank Samples.boot)))) as Hdialog.
  destruct Hdialog as (key & a' & Hkey & Hrun & Hconf & Htrig & _).
  - split; [exists "ctrl"; split; reflexivity|].
    split; [split; reflexivity|].
    split; [exists 0%nat; split; reflexivity|].
    vm_compute. reflexivity.
  - reflexivity.
  - exists a'. split; [exact Hrun|]. split; [exact Hconf|].
    rewrite Htrig. rewrite <- Hkey. reflexivity.
Defined.

(** X17.  Loading the model in the background.  With a hotkey
    configured: when the model is there or can be built, the thread ends
    with the model stored and the indicator at ready; when the
    constructor raises, the exception ends the thread with the indicator
    left at "Model yükleniyor..." and the hourglass, and no model
    stored.  The thread delivers nothing and keeps the configuration
    either way. *)
Theorem preload_indicator
    (E : env) (w : world) (hotkey : string) :
  config w !! "hotkey" = Some hotkey ->
  let w' := snd (App._preload_model_bg E w) in
  match loaded_model E w with
  | Ok h =>
      fst (App._preload_model_bg E w) = Ok tt /\
      _model w' = Some h /\
      title w' = "🎤" /\ status w' = App.ready_line hotkey
  | Raise e =>
      fst (App._preload_model_bg E w) = Raise e /\
      _model w' = None /\
      title w' = "⏳" /\ status w' = "Durum: Model yükleniyor..."
  end /\
  trace w' = trace w /\ config w' = config w.
Proof.
  intros Hk. cbv zeta. rewrite preload_unfold.
  set (w1 := set_title _ _).
  destruct (get_model_result E SpeechApp.models_dir w1) as [Hres Hmod].
  destruct (get_model_spares_configuration E SpeechApp.models_dir w1)
    as (Hc & _ & Ht & Hs & Htr); [discriminate|].
  change (loaded_model E w1) with (loaded_model E w) in Hres, Hmod.
  destruct (get_model E SpeechApp.models_dir w1) as [[m|e] w2];
    simpl in Hres, Hmod, Hc, Ht, Hs, Htr.
  - rewrite Hc. simpl. rewrite Hk. simpl.
    destruct (loaded_model E w) as [h|e]; [|discriminate].
    now repeat split.
  - destruct (loaded_model E w) as [h|e']; [discriminate|].
    inversion Hres; subst e'. simpl. now repeat split.
Qed.

(** A constructor that raises leaves the hourglass in the menu bar. *)
Lemma failed_preload_leaves_the_hourglass :
  fst (App._preload_model_bg Samples.flaky Samples.boot)
    = Raise (ExternalError "download failed") /\
  title (snd (App._preload_model_bg Samples.flaky Samples.boot)) = "⏳".
Proof.
  destruct (preload_indicator Samples.flaky Samples.boot "ctrl")
    as [(Hres & _ & Ht & _) _].
  - reflexivity.
  - split; [exact Hres | exact Ht].
Defined.

(** X18.  Start-up.  [__init__] succeeds exactly when [load_config]
    returns a configuration that names a hotkey: the object then holds
    that configuration, one listener is running, the trigger is the key
    of the name, or ctrl for a name [key_map] does not have, and the
    thread that loads the model has been started.  An exception of
    [load_config] (a file that does not parse) and a configuration
    without a hotkey end [__init__] with that exception, respectively
    [KeyError], before any listener or thread is started. *)
Theorem start_up `{JsonCodec} (w : world) :
  let a := snd (App.__init__ (App.blank w)) in
  match fst (SpeechApp.load_config w) with
  | Ok c =>
      match c !! "hotkey" with
      | Some hotkey =>
          fst (App.__init__ (App.blank w)) = Ok tt /\
          config (App.sys a) = c /\
          App.trigger_key a
            = Some (default App.Key_ctrl (App.key_map !! hotkey)) /\
          App.listening a = [0%nat] /\ App.pending a = [App.Preload] /\
          fs (App.sys a) = fs w
      | None =>
          fst (App.__init__ (App.blank w)) = Raise (KeyError "hotkey") /\
          App.listening a = [] /\ App.pending a = []
      end
  | Raise e =>
      fst (App.__init__ (App.blank w)) = Raise e /\
      App.listening a = [] /\ App.pending a = []
  end.
Proof.
  cbv zeta.
  destruct (fst (SpeechApp.load_config w)) as [c|e] eqn:Hload.
  - destruct (c !! "hotkey") as [hk|] eqn:Hk.
    + rewrite (init_result w c hk Hload Hk). simpl.
      repeat (split; try reflexivity).
    + assert (Hinit : exists a,
                App.__init__ (App.blank w) = (Raise (KeyError "hotkey"), a) /\
                App.listening a = [] /\ App.pending a = []).
      { unfold App.__init__, App.and_then at 1, App.on_sys at 1, modify. simpl.
        unfold App.and_then at 1, App.on_sys at 1. simpl.
        rewrite load_config_result in Hload |- *. simpl in Hload |- *.
        rewrite Hload.
        unfold App.and_then at 1, App.on_sys at 1, modify. simpl.
        unfold App.and_then at 1 2 3 4, App.change, App.on_sys at 1, modify.
        simpl.
        unfold App.and_then at 1, App.start_hotkey_listener,
          App.and_then at 1, App.on_sys, SpeechApp.config_hotkey. simpl.
        rewrite Hk. eexists. split; [reflexivity|]. now split. }
      destruct Hinit as (a & -> & Hl & Hp). now repeat split.
  - assert (Hinit : exists a,
              App.__init__ (App.blank w) = (Raise e, a) /\
              App.listening a = [] /\ App.pending a = []).
    { unfold App.__init__, App.and_then at 1, App.on_sys at 1, modify. simpl.
      unfold App.and_then at 1, App.on_sys at 1. simpl.
      rewrite load_config_result in Hload |- *. simpl in Hload |- *.
      rewrite Hload. eexists. split; [reflexivity|]. now split. }
    destruct Hinit as (a & -> & Hl & Hp). now repeat split.
Qed.

(** A buffer below the floor of line 238, with a hotkey configured. *)
Lemma short_buffer_result E audio w hotkey :
  (length audio < 4800)%nat ->
  config w !! "hotkey" = Some hotkey ->
  SpeechApp._process_audio E audio w =
    (Ok tt, set_status (App.ready_line hotkey) (set_title "🎤" w)).
Proof.
  intros Hshort Hk. unfold SpeechApp._process_audio.
  rewrite (too_short_below_floor _ Hshort).
  unfold try_finally, try_except.
  rewrite (show_ready_with_hotkey w hotkey Hk).
  now rewrite (show_ready_with_hotkey _ hotkey) by exact Hk.
Qed.

(** X19.  From the key to the thread.  A hold of the trigger key
    followed by the run of the thread it started has, on files, model,
    menu and outside calls, the effect of [_process_audio] on the
    concatenation of the blocks that arrived during the hold, and leaves
    no thread behind.  In particular a tap during which at most four
    blocks of 1024 samples arrived delivers nothing, builds no model and
    touches no file. *)
Theorem utterance_reaches_process_audio `{JsonCodec}
    (E : env) (a : App.app) (l : nat) (t : App.Key)
    (mid : list App.event) :
  App.consistent a ->
  App.quit a = false ->
  App.is_recording a = false ->
  App.key_listener a = Some l ->
  App.trigger_key a = Some t ->
  forallb (App.held t) mid = true ->
  let blocks := App.heard (App.streams a) mid in
  let released :=
    set_status "Durum: Yazıya çevriliyor..."
      (set_title "⏳"
         (set_status "Durum: Kaydediliyor..." (set_title "🔴" (App.sys a)))) in
  exists a',
    App.run E (App.Press l t :: mid
               ++ [App.Release l t; App.Thread_runs (length (App.pending a))])
      a = (Ok tt, a') /\
    App.sys a' = snd (SpeechApp._process_audio E (concat blocks) released) /\
    App.pending a' = App.pending a /\
    ((length blocks <= 4)%nat ->
     Forall (fun b => length b = 1024%nat) blocks ->
     delivered (App.sys a') = delivered (App.sys a) /\
     constructions (App.sys a') = constructions (App.sys a) /\
     fs (App.sys a') = fs (App.sys a) /\
     title (App.sys a') = "🎤").
Proof.
  intros Ha Hq Hrec Hl Ht Hheld blocks released.
  destruct (hold_result E a l t mid Ha Hq Hrec Hl Ht Hheld)
    as (a1 & Hrun & Hpending & _ & _ & _ & Hq1 & Hsys).
  fold blocks in Hpending.
  replace (App.Press l t :: mid
           ++ [App.Release l t; App.Thread_runs (length (App.pending a))])
    with ((App.Press l t :: mid ++ [App.Release l t])
          ++ [App.Thread_runs (length (App.pending a))])
    by (simpl; now rewrite <- app_assoc).
  rewrite (app_run_app E _ _ a a1 Hrun).
  simpl. unfold App.and_then, App.handle. rewrite Hq1, Hpending.
  rewrite list_lookup_middle by reflexivity.
  unfold App.skip. eexists. split; [reflexivity|]. simpl.
  rewrite Hsys. fold released.
  split; [reflexivity|]. split.
  - rewrite delete_middle. apply app_nil_r.
  - intros Hfew Hsize.
    assert (Hlen : (length (concat blocks) < 4800)%nat).
    { assert (Hsum : length (concat blocks) = (1024 * length blocks)%nat).
      { clear -Hsize. induction Hsize as [|b bs Hb _ IH]; [reflexivity|].
        cbn [concat length]. rewrite length_app, Hb, IH. lia. }
      lia. }
    destruct Ha as ((hk & Hk & _) & _).
    rewrite (short_buffer_result E (concat blocks) released hk Hlen)
      by exact Hk.
    now repeat split.
Qed.

(** Four blocks of a kilosample: the tap is dropped. *)
Lemma a_tap_delivers_nothing :
  exists a',
    App.run Samples.steady
      (App.Press 0 App.Key_ctrl
       :: repeat (App.Audio 0 (repeat 1%Q 1024)) 4
       ++ [App.Release 0 App.Key_ctrl; App.Thread_runs 1])
      (snd (App.__init__ (App.blank Samples.boot))) = (Ok tt, a') /\
    delivered (App.sys a') = [] /\
    constructions (App.sys a') = 0%nat.
Proof.
  destruct (utterance_reaches_process_audio Samples.steady
              (snd (App.__init__ (App.blank Samples.boot))) 0 App.Key_ctrl
              (repeat (App.Audio 0 (repeat 1%Q 1024)) 4))
    as (a' & Hrun & _ & _ & Htap).
  - split; [exists "ctrl"; split; reflexivity|].
    split; [split; reflexivity|].
    split; [exists 0%nat; split; reflexivity|].
    vm_compute. reflexivity.
  - reflexivity.
  - reflexivity.
  - reflexivity.
  - reflexivity.
  - reflexivity.
  - destruct Htap as (Hd & Hc & _).
    + vm_compute. lia.
    + vm_compute. repeat constructor.
    + exists a'. split; [exact Hrun|]. split; [exact Hd | exact Hc].
Defined.

(** ** The command line *)

Section CommandLine.

Import Cli.

Context {numpy : Numpy}.

Variable E : env.

Lemma transcribe_keeps_model audio rate w h :
  _model w = Some h ->
  _model (snd (Index.transcribe E audio rate w)) = Some h /\
  constructions (snd (Index.transcribe E audio rate w)) = constructions w.
Proof.
  intros Hm. now apply (transcriber_frame E Index.models_dir audio rate w).
Qed.

Lemma loop_keeps_model a mic : forall w h,
  _model w = Some h ->
  _model (snd (loop E a mic w)) = Some h /\
  constructions (snd (loop E a mic w)) = constructions w.
Proof.
  induction mic as [|u mic IH]; intros w h Hm; simpl; [now split|].
  destruct (record a u) as [st|audio sr|e]; simpl; try now split.
  unfold bind.
  destruct (transcribe_keeps_model audio sr w h Hm) as [Hm1 Hc1].
  destruct (Index.transcribe E audio sr w) as [[text|e] w1];
    simpl in Hm1, Hc1 |- *; [|now split].
  destruct (dongu a); [|now split].
  destruct (IH w1 h Hm1) as [Hm2 Hc2]. split; [exact Hm2 | congruence].
Qed.

Lemma get_model_constructs_once dir w :
  (constructions w <= constructions (snd (get_model E dir w))
     <= S (constructions w))%nat /\
  trace (snd (get_model E dir w)) = trace w /\
  next_tmp (snd (get_model E dir w)) = next_tmp w /\
  forall p, p <> dir -> fs (snd (get_model E dir w)) !! p = fs w !! p.
Proof.
  unfold get_model, bind, gets, modify, os_makedirs, raise.
  destruct (_model w); simpl; [repeat split; lia|].
  destruct (fs w !! dir) eqn:Hd; simpl;
    destruct (whisper_init E (constructions w)); simpl; repeat split;
    try lia; intros p Hp; now rewrite ?lookup_insert_ne.
Qed.

Lemma temp_name_is_not_the_models_directory suffix w :
  temp_name suffix w <> Index.models_dir.
Proof.
  unfold temp_name, Index.models_dir. rewrite append_cons. discriminate.
Qed.

(** A transcription of a recording that holds samples gives every name
    back. *)
Lemma transcribe_keeps_names_free audio rate w :
  audio <> [] -> names_free w ->
  names_free (snd (Index.transcribe E audio rate w)) /\
  forall p, p <> Index.models_dir ->
    fs (snd (Index.transcribe E audio rate w)) !! p = fs w !! p.
Proof.
  intros Hne Hfree.
  assert (Hfs : forall p, p <> Index.models_dir ->
            fs (snd (Index.transcribe E audio rate w)) !! p = fs w !! p).
  { apply (transcriber_spares_paths E Index.models_dir audio rate w Hne).
    apply (Hfree (next_tmp w)). lia. }
  split; [|exact Hfs].
  destruct (transcriber_frame E Index.models_dir audio rate w)
    as (_ & _ & _ & Hnext & _).
  intros n Hn. unfold Index.transcribe in *. rewrite Hnext in Hn.
  change (temp_name ".wav" (set_next_tmp n ?v))
    with (temp_name ".wav" (set_next_tmp n w)).
  rewrite Hfs by apply temp_name_is_not_the_models_directory.
  apply Hfree. lia.
Qed.

Lemma loop_leaves_no_file a mic : forall w,
  names_free w -> Forall (audible a) mic ->
  forall p, p <> Index.models_dir ->
    fs (snd (loop E a mic w)) !! p = fs w !! p.
Proof.
  induction mic as [|u mic IH]; intros w Hfree Hmic p Hp; simpl;
    [reflexivity|].
  inversion Hmic as [|u' mic' Hu Hrest]; subst.
  unfold audible in Hu.
  destruct (record a u) as [st|audio sr|e]; simpl; try reflexivity.
  unfold bind.
  destruct (transcribe_keeps_names_free audio sr w Hu Hfree) as [Hfree1 Hfs1].
  destruct (Index.transcribe E audio sr w) as [[text|e] w1];
    simpl in Hfree1, Hfs1 |- *; [|now apply Hfs1].
  destruct (dongu a); [|now apply Hfs1].
  rewrite (IH w1 Hfree1 Hrest p Hp). now apply Hfs1.
Qed.

End CommandLine.

(** X20.  [main] builds the model before it records anything and never
    again: a run makes at most one construction, however many utterances
    it goes through; when that construction raises, [main] ends with its
    exception and nothing has been transcribed; when it returns, the
    object is still the stored model at the end. *)
Theorem main_builds_the_model_first {numpy : Numpy}
    (E : env) (a : Cli.args) (mic : list Cli.utterance) (w : world) :
  (constructions (snd (Cli.main E a mic w)) <= S (constructions w))%nat /\
  match loaded_model E w with
  | Ok h => _model (snd (Cli.main E a mic w)) = Some h
  | Raise e =>
      fst (Cli.main E a mic w) = Raise e /\
      trace (snd (Cli.main E a mic w)) = trace w
  end.
Proof.
  unfold Cli.main, bind.
  destruct (get_model_result E Index.models_dir w) as [Hres Hmod].
  destruct (get_model_constructs_once E Index.models_dir w)
    as (Hc & Htr & _).
  destruct (get_model E Index.models_dir w) as [[m|e] w1];
    simpl in Hres, Hmod, Hc, Htr |- *.
  - destruct (loaded_model E w) as [h|e]; [|discriminate].
    destruct (loop_keeps_model E a mic w1 h Hmod) as [Hm Hcons].
    split; [lia | exact Hm].
  - destruct (loaded_model E w) as [h|e']; [discriminate|].
    split; [lia|]. split; [congruence | exact Htr].
Qed.

(** X21.  A run of [main] whose recordings hold samples, and in which
    Ctrl-C, if it comes, comes while a recording is under way, leaves no
    temporary file behind, whatever the model does and whether the run
    ends with its single pass, by an exception or by that Ctrl-C: at the
    end every path but the models directory holds what it held at the
    start.  (A Ctrl-C between the creation of the file on line 84 and the
    [try] of line 92 would leave it; such a run is not among those of
    [Cli.loop].) *)
Theorem main_leaves_no_file {numpy : Numpy}
    (E : env) (a : Cli.args) (mic : list Cli.utterance) (w : world) :
  Cli.names_free w ->
  Forall (Cli.audible a) mic ->
  forall p, p <> Index.models_dir ->
    fs (snd (Cli.main E a mic w)) !! p = fs w !! p.
Proof.
  intros Hfree Hmic p Hp. unfold Cli.main, bind.
  destruct (get_model_constructs_once E Index.models_dir w)
    as (_ & _ & Hnext & Hfs).
  destruct (get_model E Index.models_dir w) as [[m|e] w1];
    simpl in Hnext, Hfs |- *; [|now apply Hfs].
  rewrite (loop_leaves_no_file E a mic w1); [now apply Hfs | | exact Hmic | exact Hp].
  intros n Hn. rewrite Hnext in Hn.
  change (temp_name ".wav" (set_next_tmp n w1))
    with (temp_name ".wav" (set_next_tmp n w)).
  rewrite Hfs by apply temp_name_is_not_the_models_directory.
  now apply Hfree.
Qed.

(** One utterance with the default recorder, on an empty file system:
    only the models directory is there afterwards. *)
Lemma one_pass_leaves_no_file :
  fs (snd (Cli.main (numpy := exact_arithmetic) Samples.steady
             {| Cli.sure := None; Cli.dongu := false |}
             [Cli.spoken] Samples.boot)) !! "/tmp/tmp0.wav" = None.
Proof.
  rewrite (main_leaves_no_file (numpy := exact_arithmetic) Samples.steady
             {| Cli.sure := None; Cli.dongu := false |} [Cli.spoken]
             Samples.boot).
  - reflexivity.
  - intros n _. reflexivity.
  - constructor; [|constructor]. unfold Cli.audible.
    vm_compute. discriminate.
  - vm_compute. discriminate.
Defined.

(** ** The two transcribers side by side *)

(** The guarded part does the same whatever the models directory is
    called, the directory itself apart. *)
Lemma run_model_any_directory E dir dir' tmp w rate data :
  fs w !! tmp = Some (Wav rate data) ->
  tmp <> dir -> tmp <> dir' ->
  let r := run_model E dir tmp w in
  let r' := run_model E dir' tmp w in
  fst r = fst r' /\
  trace (snd r) = trace (snd r') /\
  _model (snd r) = _model (snd r') /\
  constructions (snd r) = constructions (snd r') /\
  next_tmp (snd r) = next_tmp (snd r') /\
  forall p, p <> dir -> p <> dir' -> fs (snd r) !! p = fs (snd r') !! p.
Proof.
  intros Hfile Hd Hd'. cbv zeta.
  unfold run_model, try_finally, get_model, bind, gets, modify, os_makedirs,
    raise, model_transcribe, lift, os_unlink.
  destruct (_model w) as [h|] eqn:Hm; simpl.
  - rewrite Hm. simpl. rewrite Hfile.
    destruct (whisper_transcribe E h (Some (Wav rate data))); simpl;
      rewrite Hfile; simpl; repeat split.
  - destruct (fs w !! dir) eqn:Hdir; destruct (fs w !! dir') eqn:Hdir'; simpl;
      destruct (whisper_init E (constructions w)); simpl;
      rewrite ?lookup_insert_ne by congruence; rewrite ?Hfile; simpl;
      try (destruct (whisper_transcribe E (constructions w)
                       (Some (Wav rate data))); simpl;
           rewrite ?lookup_insert_ne by congruence; rewrite ?Hfile; simpl);
      repeat split; intros p Hp Hp';
      (destruct (decide (p = tmp)) as [->|Hne];
       [rewrite !lookup_delete_eq; reflexivity
       |rewrite ?lookup_delete_ne by congruence;
        rewrite ?lookup_insert_ne by congruence; reflexivity]).
Qed.

(** Up to their [try] the two transcribers are the same code. *)
Lemma transcriber_prefix audio rate w m :
  np_max (np_abs audio) = Ok m ->
  exists w3,
    fs w3 !! temp_name ".wav" w
      = Some (Wav rate (quantize (normalized audio))) /\
    forall E dir,
      (temp_path <- NamedTemporaryFile ".wav" ;;
       audio_data <- normalize audio ;;
       wavfile_write temp_path rate (quantize audio_data) ;;;
       run_model E dir temp_path) w
      = run_model E dir (temp_name ".wav" w) w3.
Proof.
  intros Hmax.
  destruct (normalize_result audio m
              (set_fs (insert (temp_name ".wav" w) (Text EmptyString))
                 (set_next_tmp (S (next_tmp w)) w)) Hmax)
    as (w2 & Hn & _).
  exists (set_fs (insert (temp_name ".wav" w)
                    (Wav rate (quantize (normalized audio)))) w2).
  split; [apply lookup_insert_eq|].
  intros E dir. unfold bind at 1, NamedTemporaryFile.
  unfold bind at 1. rewrite Hn.
  unfold bind at 1. reflexivity.
Qed.

(** X22.  On a buffer that is not empty, in a world where each of the
    two models directories is there or can be made (its path holds a
    directory or nothing), and with faster_whisper giving both the same
    answers, the transcriber of the command line and the one of the
    daemon are interchangeable: they return the same text or raise the
    same exception, make the same outside calls and the same
    constructions, and leave the same model, the same menu and the same
    files, the two models directories apart. *)
Theorem transcribers_agree
    (E : env) (audio : list Q) (rate : Z) (w : world) :
  audio <> [] ->
  makedirs_goes_through Index.models_dir w ->
  makedirs_goes_through SpeechApp.models_dir w ->
  let r := Index.transcribe E audio rate w in
  let r' := SpeechApp.transcribe_audio E audio rate w in
  fst r = fst r' /\
  trace (snd r) = trace (snd r') /\
  _model (snd r) = _model (snd r') /\
  constructions (snd r) = constructions (snd r') /\
  next_tmp (snd r) = next_tmp (snd r') /\
  title (snd r) = title (snd r') /\
  status (snd r) = status (snd r') /\
  config (snd r) = config (snd r') /\
  forall p, p <> Index.models_dir -> p <> SpeechApp.models_dir ->
    fs (snd r) !! p = fs (snd r') !! p.
Proof.
  intros Hne _ _. cbv zeta.
  destruct (transcriber_frame E Index.models_dir audio rate w)
    as (Ht & Hs & Hc & _).
  destruct (transcriber_frame E SpeechApp.models_dir audio rate w)
    as (Ht' & Hs' & Hc' & _).
  rewrite (transcribe_audio_nonempty E audio rate w Hne).
  unfold Index.transcribe in *.
  rewrite Ht, Hs, Hc, Ht', Hs', Hc'.
  destruct (nonempty_has_peak audio Hne) as [m Hmax].
  destruct (transcriber_prefix audio rate w m Hmax) as (w3 & Hfile & Heq).
  rewrite !Heq.
  destruct (run_model_any_directory E Index.models_dir SpeechApp.models_dir
              (temp_name ".wav" w) w3 _ _ Hfile)
    as (H1 & H2 & H3 & H4 & H5 & H6).
  - apply temp_name_is_not_the_models_directory.
  - unfold temp_name, SpeechApp.models_dir. rewrite append_cons. discriminate.
  - repeat split; assumption.
Qed.

(** On one second of audio with a model that answers. *)
Lemma word_is_transcribed_alike :
  fst (Index.transcribe Samples.steady Samples.word 16000 Samples.boot)
  = fst (SpeechApp.transcribe_audio Samples.steady Samples.word 16000
           Samples.boot).
Proof.
  destruct (transcribers_agree Samples.steady Samples.word 16000
              Samples.boot) as [Hsame _].
  - intros Heq. apply (f_equal (@length Q)) in Heq. vm_compute in Heq.
    discriminate.
  - left. reflexivity.
  - left. reflexivity.
  - exact Hsame.
Defined.
